(** * frete-yampi: shipping-quote adapter

    A shallow embedding of the signature verifier ([verifyProxy.js]), the SKU
    catalog ([yampiCatalog.js]), the quote cache and the App-Proxy request
    handler ([server.js] and its earlier revision), with the properties of
    the specification stated and proved over it.

    Conventions of the model
    - a JavaScript string is a [string]: a sequence of 8-bit code units.
      Case mapping, trimming and the [\d] class act on the ASCII range and
      leave every other code unit alone;
    - a JavaScript number is a [number]: an integer in the range where
      double arithmetic is exact, or [NaN];
    - a plain object received from JSON is a list of its own properties in
      enumeration order; [Map] objects are finite maps ([gmap]);
    - an operation that can throw returns a [completion]. *)

From Stdlib Require Import ZArith Ascii.
From stdpp Require Import gmap strings list sorting pretty.

Local Open Scope Z_scope.
Set Warnings "-register-all".

(** ** Node's [crypto.createHmac('sha256', key).update(msg).digest('hex')] *)

Module Crypto.

Definition w32 (x : Z) : Z := x mod 2 ^ 32.
Definition add32 (x y : Z) : Z := w32 (x + y).
Definition rotr (n x : Z) : Z :=
  Z.lor (Z.shiftr x n) (w32 (Z.shiftl x (32 - n))).
Definition not32 (x : Z) : Z := Z.lxor x 0xffffffff.

Definition Ch (x y z : Z) : Z := Z.lxor (Z.land x y) (Z.land (not32 x) z).
Definition Maj (x y z : Z) : Z :=
  Z.lxor (Z.lxor (Z.land x y) (Z.land x z)) (Z.land y z).
Definition Sigma0 (x : Z) : Z :=
  Z.lxor (Z.lxor (rotr 2 x) (rotr 13 x)) (rotr 22 x).
Definition Sigma1 (x : Z) : Z :=
  Z.lxor (Z.lxor (rotr 6 x) (rotr 11 x)) (rotr 25 x).
Definition sigma0 (x : Z) : Z :=
  Z.lxor (Z.lxor (rotr 7 x) (rotr 18 x)) (Z.shiftr x 3).
Definition sigma1 (x : Z) : Z :=
  Z.lxor (Z.lxor (rotr 17 x) (rotr 19 x)) (Z.shiftr x 10).

(** The first sixty-four primes, by trial division. *)
Fixpoint primes_upto (fuel : nat) (n : Z) (found : list Z) : list Z :=
  match fuel with
  | O => found
  | S f =>
      let fresh := forallb (fun q => negb (n mod q =? 0)) found in
      primes_upto f (n + 1) (if fresh then found ++ [n] else found)
  end.

Definition primes : list Z := primes_upto 310 2 [].

(** Integer cube root, one bit at a time from bit [bits - 1] down. *)
Fixpoint cube_root (bits : nat) (n r : Z) : Z :=
  match bits with
  | O => r
  | S b =>
      let r' := r + 2 ^ Z.of_nat b in
      cube_root b n (if r' * r' * r' <=? n then r' else r)
  end.

(** The first 32 bits of the fractional part of the cube root, and of the
    square root, of [q]. *)
Definition frac_cbrt (q : Z) : Z := w32 (cube_root 44 (q * 2 ^ 96) 0).
Definition frac_sqrt (q : Z) : Z := w32 (Z.sqrt (q * 2 ^ 64)).

Definition K : list Z := Eval vm_compute in List.map frac_cbrt primes.

(** The eight working variables, equally the chaining value. *)
Record hstate := HState {
  ha : Z; hb : Z; hc : Z; hd : Z; he : Z; hf : Z; hg : Z; hh : Z }.

Definition H0 : hstate :=
  let h i := frac_sqrt (nth i primes 0) in
  HState (h 0%nat) (h 1%nat) (h 2%nat) (h 3%nat)
         (h 4%nat) (h 5%nat) (h 6%nat) (h 7%nat).

Definition round (s : hstate) (kw : Z * Z) : hstate :=
  let '(k, w) := kw in
  let t1 := add32 (add32 (add32 (add32 (hh s) (Sigma1 (he s)))
                                (Ch (he s) (hf s) (hg s))) k) w in
  let t2 := add32 (Sigma0 (ha s)) (Maj (ha s) (hb s) (hc s)) in
  HState (add32 t1 t2) (ha s) (hb s) (hc s)
         (add32 (hd s) t1) (he s) (hf s) (hg s).

(** Message schedule: [win] holds the last sixteen words, oldest first. *)
Fixpoint schedule (n : nat) (win : list Z) : list Z :=
  match n with
  | O => []
  | S n' =>
      let at_ i := nth i win 0 in
      let wt := add32 (add32 (add32 (sigma1 (at_ 14%nat)) (at_ 9%nat))
                             (sigma0 (at_ 1%nat))) (at_ 0%nat) in
      wt :: schedule n' (tl win ++ [wt])
  end.

Definition compress (s : hstate) (block : list Z) : hstate :=
  let ws := block ++ schedule 48 block in
  let r := fold_left round (combine K ws) s in
  HState (add32 (ha s) (ha r)) (add32 (hb s) (hb r))
         (add32 (hc s) (hc r)) (add32 (hd s) (hd r))
         (add32 (he s) (he r)) (add32 (hf s) (hf r))
         (add32 (hg s) (hg r)) (add32 (hh s) (hh r)).

Definition be_bytes (n : nat) (x : Z) : list Z :=
  map (fun i => Z.shiftr x (8 * Z.of_nat i) mod 256) (rev (seq 0 n)).

Fixpoint be_words (fuel : nat) (bs : list Z) : list Z :=
  match fuel, bs with
  | S f, b0 :: b1 :: b2 :: b3 :: rest =>
      (((b0 * 256 + b1) * 256 + b2) * 256 + b3) :: be_words f rest
  | _, _ => []
  end.

Definition pad (msg : list Z) : list Z :=
  let len := Z.of_nat (length msg) in
  let zeros := Z.to_nat ((55 - len) mod 64) in
  msg ++ [0x80] ++ repeat 0 zeros ++ be_bytes 8 (8 * len).

Fixpoint blocks (fuel : nat) (ws : list Z) (s : hstate) : hstate :=
  match fuel, ws with
  | S f, _ :: _ => blocks f (skipn 16 ws) (compress s (firstn 16 ws))
  | _, _ => s
  end.

Definition sha256 (msg : list Z) : hstate :=
  let bs := pad msg in
  let ws := be_words (length bs) bs in
  blocks (length ws) ws H0.

Definition hwords (s : hstate) : list Z :=
  [ha s; hb s; hc s; hd s; he s; hf s; hg s; hh s].

Definition digest_bytes (s : hstate) : list Z :=
  flat_map (be_bytes 4) (hwords s).

Definition hex_digit (x : Z) : ascii :=
  ascii_of_N (Z.to_N (if x <? 10 then 48 + x else 87 + x)).

Definition hex32 (x : Z) (k : string) : string :=
  let d i := hex_digit (Z.shiftr x (4 * i) mod 16) in
  String (d 7) (String (d 6) (String (d 5) (String (d 4)
    (String (d 3) (String (d 2) (String (d 1) (String (d 0) k))))))).

Definition hex (s : hstate) : string :=
  hex32 (ha s) (hex32 (hb s) (hex32 (hc s) (hex32 (hd s)
    (hex32 (he s) (hex32 (hf s) (hex32 (hg s) (hex32 (hh s) EmptyString))))))).

Definition bytes_of_string (s : string) : list Z :=
  map (fun c => Z.of_N (N_of_ascii c)) (String.list_ascii_of_string s).

(** RFC 2104 with block size 64. *)
Definition hmac_sha256 (key msg : list Z) : hstate :=
  let k0 := if (64 <? Z.of_nat (length key))
            then digest_bytes (sha256 key) else key in
  let k := k0 ++ repeat 0 (64 - length k0)%nat in
  let ipad := map (Z.lxor 0x36) k in
  let opad := map (Z.lxor 0x5c) k in
  sha256 (opad ++ digest_bytes (sha256 (ipad ++ msg))).

Definition hmac_sha256_hex (key msg : string) : string :=
  hex (hmac_sha256 (bytes_of_string key) (bytes_of_string msg)).

End Crypto.


(** ** JavaScript strings, numbers and values *)

Module Js.

Definition is_digit (c : ascii) : bool :=
  let n := N_of_ascii c in (48 <=? n)%N && (n <=? 57)%N.

(** White space and line terminators removed by [trim] and skipped by the
    string-to-number conversion. *)
Definition is_space (c : ascii) : bool :=
  let n := N_of_ascii c in ((9 <=? n)%N && (n <=? 13)%N) || (n =? 32)%N.

Definition upper_char (c : ascii) : ascii :=
  let n := N_of_ascii c in
  if (97 <=? n)%N && (n <=? 122)%N then ascii_of_N (n - 32) else c.

Definition lower_char (c : ascii) : ascii :=
  let n := N_of_ascii c in
  if (65 <=? n)%N && (n <=? 90)%N then ascii_of_N (n + 32) else c.

Fixpoint smap (f : ascii -> ascii) (s : string) : string :=
  match s with
  | EmptyString => EmptyString
  | String c r => String (f c) (smap f r)
  end.

Fixpoint sfilter (f : ascii -> bool) (s : string) : string :=
  match s with
  | EmptyString => EmptyString
  | String c r => if f c then String c (sfilter f r) else sfilter f r
  end.

Fixpoint sforall (f : ascii -> bool) (s : string) : bool :=
  match s with
  | EmptyString => true
  | String c r => f c && sforall f r
  end.

Definition toUpperCase : string -> string := smap upper_char.
Definition toLowerCase : string -> string := smap lower_char.

Fixpoint trimStart (s : string) : string :=
  match s with
  | String c r => if is_space c then trimStart r else s
  | EmptyString => EmptyString
  end.

Fixpoint trimEnd (s : string) : string :=
  match s with
  | EmptyString => EmptyString
  | String c r =>
      match trimEnd r with
      | EmptyString => if is_space c then EmptyString else String c EmptyString
      | r' => String c r'
      end
  end.

Definition trim (s : string) : string := trimEnd (trimStart s).

(** [s.replace(/\D/g, '')] *)
Definition strip_non_digits : string -> string := sfilter is_digit.

(** [/^\d+$/.test(s)] *)
Definition all_digits (s : string) : bool :=
  match s with
  | EmptyString => false
  | _ => sforall is_digit s
  end.

(** [s.split(',')] *)
Fixpoint split_comma (s : string) : list string :=
  match s with
  | EmptyString => [EmptyString]
  | String c r =>
      if Ascii.eqb c "," then EmptyString :: split_comma r
      else match split_comma r with
           | h :: t => String c h :: t
           | [] => [String c EmptyString]
           end
  end.

Inductive number := NaN | Num (z : Z).

Definition digit_val (c : ascii) : Z := Z.of_N (N_of_ascii c) - 48.

Fixpoint parse_dec (acc : Z) (s : string) : Z :=
  match s with
  | EmptyString => acc
  | String c r => parse_dec (10 * acc + digit_val c) r
  end.

(** The conversion of a string to a number, on optionally signed decimal
    integer literals surrounded by white space; the empty literal is 0.
    Literals with a fraction, an exponent or a radix prefix, and
    [Infinity], denote numbers outside [number]; like every string that
    is no numeric literal they are given [NaN] here. *)
Definition StringToNumber (s : string) : number :=
  match trim s with
  | EmptyString => Num 0
  | String c r as t =>
      if all_digits t then Num (parse_dec 0 t)
      else if Ascii.eqb c "-" && all_digits r then Num (- parse_dec 0 r)
      else if Ascii.eqb c "+" && all_digits r then Num (parse_dec 0 r)
      else NaN
  end.

Definition NumberToString (n : number) : string :=
  match n with
  | NaN => "NaN"
  | Num z => pretty z
  end.

Inductive jsval :=
| VUndef
| VNull
| VBool (b : bool)
| VNum (n : number)
| VStr (s : string)
| VArr (elems : list jsval)
| VObj (props : list (string * jsval)).

Definition nullish (v : jsval) : bool :=
  match v with
  | VUndef | VNull => true
  | _ => false
  end.

Definition number_truthy (n : number) : bool :=
  match n with
  | NaN => false
  | Num z => negb (z =? 0)
  end.

Definition truthy (v : jsval) : bool :=
  match v with
  | VUndef | VNull => false
  | VBool b => b
  | VNum n => number_truthy n
  | VStr EmptyString => false
  | VStr _ | VArr _ | VObj _ => true
  end.

(** [String(v)] and template interpolation, of a value on which the
    conversion completes ([unconvertible] below tells the others). *)
Fixpoint ToString (v : jsval) : string :=
  match v with
  | VUndef => "undefined"
  | VNull => "null"
  | VBool true => "true"
  | VBool false => "false"
  | VNum n => NumberToString n
  | VStr s => s
  | VArr l =>
      (fix join (l : list jsval) : string :=
         match l with
         | [] => EmptyString
         | x :: r =>
             let sx := if nullish x then EmptyString else ToString x in
             match r with
             | [] => sx
             | _ => sx +:+ "," +:+ join r
             end
         end) l
  | VObj _ => "[object Object]"
  end.

(** [Number(v)], of a value on which the conversion completes. An
    integer stands for itself: the rounding to a double, which leaves the
    integers of magnitude up to 2^53 as they are, is not part of this
    model. *)
Definition ToNumber (v : jsval) : number :=
  match v with
  | VUndef => NaN
  | VNull => Num 0
  | VBool true => Num 1
  | VBool false => Num 0
  | VNum n => n
  | VStr s => StringToNumber s
  | VArr _ => StringToNumber (ToString v)
  | VObj _ => NaN
  end.

(** [String(v)] and [Number(v)] raise a [TypeError] on an object with an
    own [toString] property (it hides the inherited method and, in a value
    that was parsed, is not callable) and on an array with such an
    element, which [join] converts in turn. [ToString] and [ToNumber]
    give the conversion of every other value. *)
Fixpoint unconvertible (v : jsval) : bool :=
  match v with
  | VObj props => existsb (fun kv => String.eqb kv.1 "toString") props
  | VArr l =>
      (fix some (l : list jsval) : bool :=
         match l with
         | [] => false
         | x :: r => unconvertible x || some r
         end) l
  | _ => false
  end.

Fixpoint assoc (k : string) (props : list (string * jsval)) : jsval :=
  match props with
  | [] => VUndef
  | (k', v) :: r => if String.eqb k k' then v else assoc k r
  end.

(** [v?.k] for the property names this program reads, none of which is
    a built-in property of a string, an array, a number or a boolean. *)
Definition get (v : jsval) (k : string) : jsval :=
  match v with
  | VObj props => assoc k props
  | _ => VUndef
  end.

(** [a || b] *)
Definition or_else (a b : jsval) : jsval := if truthy a then a else b.

(** [a ?? b] *)
Definition coalesce (a b : jsval) : jsval := if nullish a then b else a.

(** [a >= b] on numbers: false as soon as one side is NaN. *)
Definition num_ge (a b : number) : bool :=
  match a, b with
  | Num x, Num y => y <=? x
  | _, _ => false
  end.

(** An environment variable, possibly unset, interpolated in a template. *)
Definition env_string (v : option string) : string := default "undefined" v.

Inductive completion (A : Type) :=
| Return (a : A)
| Throw (message : string).
Arguments Return {A} a.
Arguments Throw {A} message.

End Js.

(** ** The outbound HTTP client ([node-fetch]) *)

Module Http.
Import Js.

(** What [await fetch(url, ...)] gives: a rejection, or a response with
    its status, its body as text and the outcome of [res.json()]. *)
Inductive fetch_result :=
| Rejected (message : string)
| Response (status : Z) (text : string) (json : completion jsval).

(** [res.ok] *)
Definition ok (status : Z) : bool := (200 <=? status) && (status <=? 299).

Definition BASE : string := "https://api.dooki.com.br/v2".

End Http.

(** ** [verifyProxy.js] *)

Module VerifyProxy.
Import Js.

(** [Object.keys(params).sort()] *)
Definition sorted_keys (params : gmap string jsval) : list string :=
  merge_sort String.le (map fst (map_to_list params)).

Definition pair_of (params : gmap string jsval) (k : string) : string :=
  k +:+ "=" +:+ ToString (default VUndef (params !! k)).

(** [.join('')] *)
Definition join_empty (l : list string) : string :=
  foldr String.append EmptyString l.

Definition base_string (params : gmap string jsval) : string :=
  join_empty (map (pair_of params) (sorted_keys params)).

(** [digest === signature] *)
Definition strict_eq_string (digest : string) (v : jsval) : bool :=
  match v with
  | VStr s => String.eqb digest s
  | _ => false
  end.

Definition verifyShopifyProxy
    (query : option (gmap string jsval)) (secret : option string) : bool :=
  match secret with
  | None | Some EmptyString => false
  | Some key =>
      let q := default ∅ query in
      let signature := default VUndef (q !! "signature") in
      let params := delete "signature" q in
      if negb (truthy signature) then false
      else
        let base := base_string params in
        let digest := Crypto.hmac_sha256_hex key base in
        strict_eq_string digest signature
  end.

End VerifyProxy.

(** ** [yampiCatalog.js] *)

Module Catalog.
Import Js Http.

Definition yampiGet (fetch : string -> fetch_result) (path : string)
  : completion jsval :=
  match fetch (BASE +:+ path) with
  | Rejected msg => Throw msg
  | Response status text json =>
      if negb (ok status)
      then Throw ("[Yampi GET " +:+ pretty status +:+ "] " +:+ text)
      else json
  end.

(** The fields of a [YampiSkuMap]; the refresh timer is not modelled. *)
Record YampiSkuMap := {
  alias : option string;
  refreshMs : Z;
  map : gmap string number }.

Definition new_YampiSkuMap (alias : option string) : YampiSkuMap :=
  {| alias := alias; refreshMs := 15 * 60 * 1000; map := ∅ |}.

Definition with_map (this : YampiSkuMap) (m : gmap string number)
  : YampiSkuMap :=
  {| alias := alias this; refreshMs := refreshMs this; map := m |}.

(** [a ?? b] on the result of [Map.get], whose stored values are numbers. *)
Definition first_some {A} (a b : option A) : option A :=
  match a with
  | Some _ => a
  | None => b
  end.

Definition getId (this : YampiSkuMap) (skuText : jsval) : option number :=
  if negb (truthy skuText) then None
  else
    let key := trim (ToString skuText) in
    first_some (map this !! key)
      (first_some (map this !! toUpperCase key) (map this !! toLowerCase key)).

(** *** Seed file *)

(** What reading [SKU_SEED_FILE] gives: no path or no such file; a read or
    parse error (caught and logged); or the parsed JSON. *)
Inductive seed_source :=
| NoSeed
| Unreadable (message : string)
| Parsed (raw : jsval).

(** The callback of [raw.forEach], for a record whose conversions
    complete. *)
Definition seedRecord (m : gmap string number) (r : jsval)
  : gmap string number :=
  if truthy r && truthy (get r "sku") && truthy (get r "id")
  then <[trim (ToString (get r "sku")) := ToNumber (get r "id")]> m
  else m.

(** The callback raises: the record passes the test and [String(r.sku)]
    or [Number(r.id)] is a [TypeError]. *)
Definition seedRecord_raises (r : jsval) : bool :=
  truthy r && truthy (get r "sku") && truthy (get r "id")
  && (unconvertible (get r "sku") || unconvertible (get r "id")).

(** [raw.forEach(...)] inside the [try]: a record that raises ends the
    load, the records after it are not read, and what was written
    stays. *)
Fixpoint seedRecords (l : list jsval) (m : gmap string number)
  : gmap string number :=
  match l with
  | [] => m
  | r :: l' =>
      if seedRecord_raises r then m else seedRecords l' (seedRecord m r)
  end.

(** The body of the [for ... of Object.entries(raw)] loop, for an entry
    whose [Number(id)] completes. *)
Definition seedEntry (m : gmap string number) (e : string * jsval)
  : gmap string number :=
  <[trim e.1 := ToNumber e.2]> m.

Fixpoint seedEntries (props : list (string * jsval))
    (m : gmap string number) : gmap string number :=
  match props with
  | [] => m
  | e :: props' =>
      if unconvertible e.2 then m else seedEntries props' (seedEntry m e)
  end.

Definition loadSeed (src : seed_source) (m : gmap string number)
  : gmap string number :=
  match src with
  | Parsed (VArr l) => seedRecords l m
  | Parsed (VObj props) => seedEntries props m
  | _ => m
  end.

(** *** Hydration *)

Record hydrate_options := {
  pageStart : Z;
  limit : Z;
  maxPages : Z }.

Definition default_options : hydrate_options :=
  {| pageStart := 1; limit := 100; maxPages := 1000 |}.

(** The body of the innermost loop: one SKU record. *)
Definition hydrateSku (st : gmap string number * Z) (s : jsval)
  : gmap string number * Z :=
  if truthy (get s "sku") && negb (nullish (get s "id")) then
    let key := trim (ToString (get s "sku")) in
    let id := ToNumber (get s "id") in
    (<[toLowerCase key := id]> (<[toUpperCase key := id]> (<[key := id]> st.1)),
     st.2 + 1)
  else st.

Definition hydrateProduct (st : gmap string number * Z) (p : jsval)
  : gmap string number * Z :=
  let skus := or_else (get (get p "skus") "data")
                (or_else (get p "skus") (VArr [])) in
  match skus with
  | VArr l => fold_left hydrateSku l st
  | _ => st
  end.

(** [for (const p of list)]: the elements iterated, or the [TypeError]. *)
Definition iterate (lst : jsval) : completion (list jsval) :=
  match lst with
  | VArr l => Return l
  | VStr s =>
      Return (List.map (fun c => VStr (String c EmptyString))
                (String.list_ascii_of_string s))
  | _ => Throw "list is not iterable"
  end.

Definition page_path (alias : option string) (limit page : Z) : string :=
  "/" +:+ env_string alias +:+ "/catalog/products?include=skus&limit="
      +:+ pretty limit +:+ "&page=" +:+ pretty page.

(** The state of a run: the mapping, the paths requested so far (oldest
    first) and how the call completed. *)
Record run := {
  run_map : gmap string number;
  run_requests : list string;
  run_result : completion Z }.

Section Hydrate.
Variable fetch : string -> fetch_result.
Variable this_alias : option string.
Variable opts : hydrate_options.

(** The [for (;;)] loop; [None] when [fuel] iterations did not reach a
    [break], a [return] or a [throw]. *)
Fixpoint hydrateLoop (fuel : nat) (page total : Z)
    (m : gmap string number) (reqs : list string) : option run :=
  match fuel with
  | O => None
  | S fuel' =>
      let path := page_path this_alias (limit opts) page in
      let reqs := reqs ++ [path] in
      match yampiGet fetch path with
      | Throw msg => Some (Build_run m reqs (Throw msg))
      | Return resp =>
          let lst := or_else (get resp "data") (VArr []) in
          match iterate lst with
          | Throw msg => Some (Build_run m reqs (Throw msg))
          | Return ps =>
              let st := fold_left hydrateProduct ps (m, total) in
              let totalPages :=
                ToNumber
                  (or_else
                     (get (get (get resp "meta") "pagination") "total_pages")
                     (VNum (Num page))) in
              if (length ps =? 0)%nat
                 || num_ge (Num page) totalPages
                 || (maxPages opts <=? page - pageStart opts + 1)
              then Some (Build_run st.1 reqs (Return st.2))
              else hydrateLoop fuel' (page + 1) st.2 st.1 reqs
          end
      end
  end.

Definition hydrateOnce (fuel : nat) (this : YampiSkuMap) : option run :=
  hydrateLoop fuel (pageStart opts) 0 (map this) [].

End Hydrate.

(** The requests the cap still allows when [page] is about to be
    requested; the loop body runs once even when the cap is spent. *)
Definition allowance (opts : hydrate_options) (page : Z) : Z :=
  Z.max 1 (maxPages opts - (page - pageStart opts)).

(** [bootstrap]: seed, then a first hydration whose failure is logged and
    swallowed. *)
Definition bootstrap (src : seed_source) (fetch : string -> fetch_result)
    (fuel : nat) (this : YampiSkuMap) : option YampiSkuMap :=
  let seeded := with_map this (loadSeed src (map this)) in
  match hydrateOnce fetch (alias this) default_options fuel seeded with
  | None => None
  | Some r => Some (with_map this (run_map r))
  end.

End Catalog.

(** ** [yampi.js] *)

Module Yampi.
Import Js Http.

Record quote_args := {
  arg_alias : option string;
  arg_zipcode : string;
  arg_total : option number;
  arg_skusIds : list number;
  arg_quantities : list number;
  arg_orderId : option number }.

(** The JSON body of the shipping-cost request. *)
Record quote_body := {
  zipcode : string;
  total : option number;
  origin : string;
  utm_email : option string;
  skus_ids : list number;
  quantities : list number;
  order_id : option number }.

(** The result comes with the request sent: every call sends exactly one. *)
Definition calcularFreteYampi
    (post : string -> quote_body -> fetch_result) (a : quote_args)
  : (string * quote_body) * completion jsval :=
  let url := BASE +:+ "/" +:+ env_string (arg_alias a)
                  +:+ "/logistics/shipping-costs" in
  let body := {| zipcode := arg_zipcode a; total := arg_total a;
                 origin := "cart_drawer"; utm_email := None;
                 skus_ids := arg_skusIds a; quantities := arg_quantities a;
                 order_id := arg_orderId a |} in
  (url, body,
   match post url body with
   | Rejected msg => Throw msg
   | Response status text json =>
       if negb (ok status)
       then Throw ("Yampi " +:+ pretty status +:+ ": " +:+ text)
       else match json with
            | Throw msg => Throw msg
            | Return j => Return (coalesce (get j "data") j)
            end
   end).

End Yampi.

(** ** The App-Proxy endpoint: what both revisions of [server.js] share *)

Module Proxy.
Import Js Http Catalog Yampi.

Record process_env := {
  SHOPIFY_API_SECRET : option string;
  DISABLE_PROXY_SIGNATURE_CHECK : option string;
  YAMPI_ALIAS : option string;
  CACHE_TTL_MS : option string }.

(** [Number(CACHE_TTL_MS) || 300000], with [CACHE_TTL_MS = '300000'] by
    default. *)
Definition TTL (env : process_env) : Z :=
  match StringToNumber (default "300000" (CACHE_TTL_MS env)) with
  | Num z => if z =? 0 then 300000 else z
  | NaN => 300000
  end.

Definition signature_check_enabled (env : process_env) : bool :=
  negb (String.eqb (default "false" (DISABLE_PROXY_SIGNATURE_CHECK env)) "true").

Record request := {
  method : string;
  query : gmap string jsval;
  body : gmap string jsval }.

(** [req.method === 'GET' ? req.query.k : req.body.k] *)
Definition param (req : request) (k : string) : jsval :=
  default VUndef
    ((if String.eqb (method req) "GET" then query req else body req) !! k).

Record cache_entry := {
  stored_at : Z;
  data : jsval }.

Record reply := {
  status : Z;
  json : jsval }.

(** What handling one request does: the reply, the quote cache afterwards
    and the upstream calls issued. *)
Record outcome := {
  out_reply : reply;
  out_cache : gmap string cache_entry;
  out_posts : list (string * quote_body) }.

Definition error_reply (code : Z) (msg : string) : reply :=
  {| status := code; json := VObj [("error", VStr msg)] |}.

Definition toArr (v : jsval) : list jsval :=
  match v with
  | VArr l => l
  | VUndef | VNull => []
  | _ =>
      List.map VStr
        (List.filter (fun s => negb (String.eqb s EmptyString))
           (List.map trim (split_comma (ToString v))))
  end.

Definition unmapped_message (s : jsval) : string :=
  "SKU sem ID cadastrado na Yampi: " +:+ ToString s.

(** The resolution loop: the identifiers, or the first code without one. *)
Fixpoint resolveIds (skuMap : YampiSkuMap) (skusArr : list jsval)
    (ids : list number) : list number + jsval :=
  match skusArr with
  | [] => inl ids
  | s :: rest =>
      if all_digits (ToString s)
      then resolveIds skuMap rest (ids ++ [ToNumber s])
      else
        match getId skuMap s with
        | Some id =>
            if number_truthy id then resolveIds skuMap rest (ids ++ [id])
            else inr s
        | None => inr s
        end
  end.

Definition dquote : string := String (ascii_of_nat 34) EmptyString.

Definition json_number (n : number) : string :=
  match n with
  | NaN => "null"
  | Num z => pretty z
  end.

Fixpoint join_comma (l : list string) : string :=
  match l with
  | [] => EmptyString
  | [x] => x
  | x :: r => x +:+ "," +:+ join_comma r
  end.

Definition json_numbers (l : list number) : string :=
  "[" +:+ join_comma (List.map json_number l) +:+ "]".

(** [JSON.stringify({ cep, ids, qtys, total })], for a [cep] of digits. *)
Definition cacheKey (cep : string) (ids qtys : list number)
    (total : option number) : string :=
  "{" +:+ dquote +:+ "cep" +:+ dquote +:+ ":" +:+ dquote +:+ cep +:+ dquote
  +:+ "," +:+ dquote +:+ "ids" +:+ dquote +:+ ":" +:+ json_numbers ids
  +:+ "," +:+ dquote +:+ "qtys" +:+ dquote +:+ ":" +:+ json_numbers qtys
  +:+ match total with
      | None => EmptyString
      | Some t => "," +:+ dquote +:+ "total" +:+ dquote +:+ ":" +:+ json_number t
      end
  +:+ "}".

Definition ORDER_ID_HARDCODED : Z := 129339217.

(** The inputs read from the request once its signature is accepted. *)
Record inputs := {
  in_cep : string;
  in_total : option number;
  in_skusArr : list jsval;
  in_qtyArr : list number }.

Definition read_inputs (req : request) : inputs :=
  let cep := strip_non_digits
               (ToString (or_else (param req "cep") (VStr EmptyString))) in
  let totalParam := param req "total" in
  let total := if nullish totalParam then None
               else Some (ToNumber totalParam) in
  let skusRaw := coalesce (param req "skus") (param req "skus_ids") in
  let quantitiesRaw := param req "quantities" in
  {| in_cep := cep; in_total := total; in_skusArr := toArr skusRaw;
     in_qtyArr := List.map ToNumber (toArr quantitiesRaw) |}.

Definition quote_call (env : process_env) (i : inputs) (ids : list number)
  : quote_args :=
  {| arg_alias := YAMPI_ALIAS env; arg_zipcode := in_cep i;
     arg_total := in_total i; arg_skusIds := ids;
     arg_quantities := in_qtyArr i;
     arg_orderId := Some (Num ORDER_ID_HARDCODED) |}.

End Proxy.

(** ** The earlier revision of [server.js], with [getFromCache] and
       [setCache] *)

Module ServerA.
Import Js Http Catalog Yampi Proxy.

Definition makeCacheKey := cacheKey.

(** [getFromCache] at time [now]: the value returned ([null] for a miss)
    and the cache afterwards. *)
Definition getFromCache (ttl now : Z) (key : string)
    (quoteCache : gmap string cache_entry)
  : jsval * gmap string cache_entry :=
  match quoteCache !! key with
  | None => (VNull, quoteCache)
  | Some item =>
      if ttl <? now - stored_at item then (VNull, delete key quoteCache)
      else (data item, quoteCache)
  end.

Definition setCache (now : Z) (key : string) (d : jsval)
    (quoteCache : gmap string cache_entry) : gmap string cache_entry :=
  <[key := {| stored_at := now; data := d |}]> quoteCache.

Section Handler.
Variable env : process_env.
Variable skuMap : YampiSkuMap.
Variable post : string -> quote_body -> fetch_result.
(** [Date.now()] when the cache is read and when it is written. *)
Variables now_get now_set : Z.

Definition handler (req : request) (quoteCache : gmap string cache_entry)
  : outcome :=
  let respond r := {| out_reply := r; out_cache := quoteCache;
                      out_posts := [] |} in
  if signature_check_enabled env
     && negb (VerifyProxy.verifyShopifyProxy (Some (query req))
                (SHOPIFY_API_SECRET env))
  then respond (error_reply 401 "Invalid proxy signature")
  else
    let i := read_inputs req in
    if negb (String.length (in_cep i) =? 8)%nat
    then respond (error_reply 400 "CEP inválido")
    else if (length (in_skusArr i) =? 0)%nat
            || negb (length (in_skusArr i) =? length (in_qtyArr i))%nat
    then respond (error_reply 400 "Itens ausentes ou mal formatados")
    else
      match resolveIds skuMap (in_skusArr i) [] with
      | inr s => respond (error_reply 400 (unmapped_message s))
      | inl ids =>
          let key := makeCacheKey (in_cep i) ids (in_qtyArr i) (in_total i) in
          let '(cached, cache1) := getFromCache (TTL env) now_get key quoteCache in
          if truthy cached
          then {| out_reply :=
                    {| status := 200;
                       json := VObj [("data", cached); ("cached", VBool true)] |};
                  out_cache := cache1; out_posts := [] |}
          else
            let '(sent, result) :=
              calcularFreteYampi post (quote_call env i ids) in
            match result with
            | Throw msg =>
                {| out_reply := error_reply 500 msg;
                   out_cache := cache1; out_posts := [sent] |}
            | Return d =>
                {| out_reply := {| status := 200; json := VObj [("data", d)] |};
                   out_cache := setCache now_set key d cache1;
                   out_posts := [sent] |}
            end
      end.

End Handler.
End ServerA.

(** ** [server.js]

    The handler registered for [proxyPath]; the registration of routes and
    their order are not modelled. *)

Module Server.
Import Js Http Catalog Yampi Proxy.

(** [Array.isArray(raw) ? raw : (raw && typeof raw === 'object' ?
    Object.values(raw) : [])] *)
Definition normalize (raw : jsval) : jsval :=
  match raw with
  | VArr _ => raw
  | VObj props => VArr (List.map snd props)
  | _ => VArr []
  end.

(** The inline cache test: the entry served at time [now], if any. *)
Definition cache_hit (ttl now : Z) (key : string)
    (quoteCache : gmap string cache_entry) : option cache_entry :=
  match quoteCache !! key with
  | Some cached => if now - stored_at cached <? ttl then Some cached else None
  | None => None
  end.

Section Handler.
Variable env : process_env.
Variable skuMap : YampiSkuMap.
Variable post : string -> quote_body -> fetch_result.
Variables now_get now_set : Z.

Definition handler (req : request) (quoteCache : gmap string cache_entry)
  : outcome :=
  let respond r := {| out_reply := r; out_cache := quoteCache;
                      out_posts := [] |} in
  if signature_check_enabled env
     && negb (VerifyProxy.verifyShopifyProxy (Some (query req))
                (SHOPIFY_API_SECRET env))
  then respond (error_reply 401 "Invalid proxy signature")
  else
    let i := read_inputs req in
    if negb (String.length (in_cep i) =? 8)%nat
    then respond (error_reply 400 "CEP inválido")
    else if (length (in_skusArr i) =? 0)%nat
            || negb (length (in_skusArr i) =? length (in_qtyArr i))%nat
    then respond (error_reply 400 "Itens ausentes ou mal formatados")
    else
      match resolveIds skuMap (in_skusArr i) [] with
      | inr s => respond (error_reply 400 (unmapped_message s))
      | inl ids =>
          let key := cacheKey (in_cep i) ids (in_qtyArr i) (in_total i) in
          match cache_hit (TTL env) now_get key quoteCache with
          | Some cached =>
              respond {| status := 200;
                         json := VObj [("data", data cached);
                                       ("cached", VBool true)] |}
          | None =>
              let '(sent, result) :=
                calcularFreteYampi post (quote_call env i ids) in
              match result with
              | Throw msg =>
                  {| out_reply := error_reply 500 msg;
                     out_cache := quoteCache; out_posts := [sent] |}
              | Return raw =>
                  let d := normalize raw in
                  {| out_reply :=
                       {| status := 200; json := VObj [("data", d)] |};
                     out_cache :=
                       <[key := {| stored_at := now_set; data := d |}]> quoteCache;
                     out_posts := [sent] |}
              end
          end
      end.

End Handler.
End Server.

(** ** The canonical message of the specification *)

Module Spec.
Import Js.

Definition render (kv : string * jsval) : string :=
  kv.1 +:+ "=" +:+ ToString kv.2.

Definition by_key (a b : string * jsval) : Prop := String.le a.1 b.1.

(** [msg] is the parameters rendered as [key=value], sorted by key and
    concatenated with no separator. *)
Definition canonical (params : gmap string jsval) (msg : string) : Prop :=
  exists l : list (string * jsval),
    l ≡ₚ map_to_list params
    /\ StronglySorted by_key l
    /\ msg = foldr (fun kv acc => render kv +:+ acc) EmptyString l.

(** The state [Verified] of the pipeline: the signature check is switched
    off or the signature verifies. *)
Definition verified (env : Proxy.process_env) (req : Proxy.request) : Prop :=
  Proxy.signature_check_enabled env = false
  \/ VerifyProxy.verifyShopifyProxy (Some (Proxy.query req))
       (Proxy.SHOPIFY_API_SECRET env) = true.

(** An internal identifier as the data model wants it. *)
Definition positive_integer (n : number) : Prop :=
  exists z : Z, n = Num z /\ 0 < z.

End Spec.

(** ** Sample inputs *)

Module Sample.
Import Js Http Catalog Yampi Proxy.

(** A SKU record as the catalog listing and the seed file carry it. *)
Definition sku_record (code : string) (id : jsval) : jsval :=
  VObj [("sku", VStr code); ("id", id)].

(** One catalog page listing the given SKU records under one product. *)
Definition catalog_page (skus : list jsval) (total_pages : Z) : jsval :=
  VObj [("data", VArr [VObj [("skus", VObj [("data", VArr skus)])]]);
        ("meta", VObj [("pagination",
                        VObj [("total_pages", VNum (Num total_pages))])])].

(** An upstream whose catalog is one page holding ("ABC-1", 42). *)
Definition fetch_one_page (url : string) : fetch_result :=
  Response 200 EmptyString
    (Return (catalog_page [sku_record "ABC-1" (VNum (Num 42))] 1)).

(** An upstream whose one page lists the same code in two spellings. *)
Definition fetch_two_spellings (url : string) : fetch_result :=
  Response 200 EmptyString
    (Return (catalog_page [sku_record "Abc-1" (VNum (Num 9));
                           sku_record "ABC-1" (VNum (Num 42))] 1)).

(** The options of a call that allows no page. *)
Definition zero_cap : hydrate_options :=
  {| pageStart := 1; limit := 100; maxPages := 0 |}.

(** A seed whose second record has a code that cannot be converted. *)
Definition seed_with_bad_record : jsval :=
  VArr [sku_record "A" (VNum (Num 1));
        VObj [("sku", VObj [("toString", VNum (Num 1))]);
              ("id", VNum (Num 2))];
        sku_record "C" (VNum (Num 3))].

(** An upstream that is down. *)
Definition fetch_down (url : string) : fetch_result :=
  Rejected "connect ECONNREFUSED".

(** An upstream of three pages whose second page answers 500. *)
Definition fetch_page2_fails (url : string) : fetch_result :=
  if String.eqb url
       (BASE +:+ "/loja/catalog/products?include=skus&limit=100&page=1")
  then Response 200 EmptyString
         (Return (catalog_page [sku_record "ABC-1" (VNum (Num 42))] 3))
  else Response 500 "boom" (Throw "unexpected body").

(** A deployment with the signature check switched off. *)
Definition env_unsigned : process_env :=
  {| SHOPIFY_API_SECRET := Some "shpss_secret";
     DISABLE_PROXY_SIGNATURE_CHECK := Some "true";
     YAMPI_ALIAS := Some "loja";
     CACHE_TTL_MS := None |}.

(** A deployment that checks signatures. *)
Definition env_signed : process_env :=
  {| SHOPIFY_API_SECRET := Some "shpss_secret";
     DISABLE_PROXY_SIGNATURE_CHECK := None;
     YAMPI_ALIAS := Some "loja";
     CACHE_TTL_MS := None |}.

Definition get_request (params : list (string * jsval)) : request :=
  {| method := "GET"; query := list_to_map params; body := ∅ |}.

(** A postal code that keeps seven digits once stripped. *)
Definition req_short_cep : request :=
  get_request [("cep", VStr "0100-100"); ("skus", VStr "99");
               ("quantities", VStr "1")].

(** One numeric item for a valid postal code. *)
Definition req_quote : request :=
  get_request [("cep", VStr "01001-000"); ("skus", VStr "99");
               ("quantities", VStr "1")].

(** An item code that the catalog maps to the identifier 0. *)
Definition req_zero : request :=
  get_request [("cep", VStr "01001-000"); ("skus", VStr "ZERO");
               ("quantities", VStr "1")].

Definition skuMap_zero : YampiSkuMap :=
  with_map (new_YampiSkuMap (Some "loja")) {[ "ZERO" := Num 0 ]}.

(** An App-Proxy query signed with the secret of [env_unsigned]. *)
Definition signed_query : gmap string jsval :=
  list_to_map
    [("shop", VStr "loja.myshopify.com");
     ("path_prefix", VStr "/apps/shipping-quotes");
     ("timestamp", VStr "1700000000");
     ("signature",
      VStr "4b9b143caa499b29b82e882c1d18d6854fae04d32bd45d5b17199efb15180996")].

(** Scenario 1 of the specification. *)
Definition skuMap_sku1 : YampiSkuMap :=
  with_map (new_YampiSkuMap (Some "loja")) {[ "SKU1" := Num 501 ]}.

Definition req_scenario1 : request :=
  get_request [("cep", VStr "01001-000"); ("skus", VStr "SKU1,99");
               ("quantities", VStr "2,1")].

Definition post_ok (url : string) (b : quote_body) : fetch_result :=
  Response 200 EmptyString
    (Return (VObj [("data", VObj [("pac", VNum (Num 1990))])])).

(** A quote API whose body is the JSON number 0. *)
Definition post_zero (url : string) (b : quote_body) : fetch_result :=
  Response 200 "0" (Return (VNum (Num 0))).

(** A quote API that answers 503. *)
Definition post_unavailable (url : string) (b : quote_body) : fetch_result :=
  Response 503 "Service Unavailable" (Throw "invalid json").

End Sample.

(** ** The later revision of the App-Proxy handler, kept in [yampi.js]

    It reads its inputs from the query string and the body merged, the
    body taking precedence, whatever the method. *)

Module ServerB.
Import Js Http Catalog Yampi Proxy.

(** [{ ...(req.query || {}), ...(req.body || {}) }] *)
Definition merged (req : request) : gmap string jsval :=
  body req ∪ query req.

Definition read_inputs (req : request) : inputs :=
  let p k := default VUndef (merged req !! k) in
  let cep := strip_non_digits
               (ToString (or_else (p "cep") (VStr EmptyString))) in
  let total := if nullish (p "total") then None
               else Some (ToNumber (p "total")) in
  {| in_cep := cep; in_total := total;
     in_skusArr := toArr (coalesce (p "skus") (p "skus_ids"));
     in_qtyArr := List.map ToNumber (toArr (p "quantities")) |}.

Section Handler.
Variable env : process_env.
Variable skuMap : YampiSkuMap.
Variable post : string -> quote_body -> fetch_result.
Variables now_get now_set : Z.

Definition handler (req : request) (quoteCache : gmap string cache_entry)
  : outcome :=
  let respond r := {| out_reply := r; out_cache := quoteCache;
                      out_posts := [] |} in
  if signature_check_enabled env
     && negb (VerifyProxy.verifyShopifyProxy (Some (query req))
                (SHOPIFY_API_SECRET env))
  then respond (error_reply 401 "Invalid proxy signature")
  else
    let i := read_inputs req in
    if negb (String.length (in_cep i) =? 8)%nat
    then respond (error_reply 400 "CEP inválido")
    else if (length (in_skusArr i) =? 0)%nat
            || negb (length (in_skusArr i) =? length (in_qtyArr i))%nat
    then respond (error_reply 400 "Itens ausentes ou mal formatados")
    else
      match resolveIds skuMap (in_skusArr i) [] with
      | inr s => respond (error_reply 400 (unmapped_message s))
      | inl ids =>
          let key := cacheKey (in_cep i) ids (in_qtyArr i) (in_total i) in
          match Server.cache_hit (TTL env) now_get key quoteCache with
          | Some cached =>
              respond {| status := 200;
                         json := VObj [("data", data cached);
                                       ("cached", VBool true)] |}
          | None =>
              let '(sent, result) :=
                calcularFreteYampi post (quote_call env i ids) in
              match result with
              | Throw msg =>
                  {| out_reply := error_reply 500 msg;
                     out_cache := quoteCache; out_posts := [sent] |}
              | Return raw =>
                  let d := Server.normalize raw in
                  {| out_reply :=
                       {| status := 200; json := VObj [("data", d)] |};
                     out_cache :=
                       <[key := {| stored_at := now_set; data := d |}]> quoteCache;
                     out_posts := [sent] |}
              end
          end
      end.

End Handler.
End ServerB.

(** ** The admin endpoints of the earlier revision of [server.js] *)

Module Admin.
Import Js Http Catalog.

(** [!ADMIN_TOKEN || req.headers['x-admin-token'] !== ADMIN_TOKEN] *)
Definition unauthorized (ADMIN_TOKEN header : option string) : bool :=
  match ADMIN_TOKEN with
  | None | Some EmptyString => true
  | Some t =>
      match header with
      | Some h => negb (String.eqb h t)
      | None => true
      end
  end.

Record admin_outcome := {
  adm_status : Z;
  adm_json : jsval;
  adm_map : gmap string number;
  adm_requests : list string }.

Definition deny (this : YampiSkuMap) : admin_outcome :=
  {| adm_status := 401; adm_json := VObj [("error", VStr "unauthorized")];
     adm_map := map this; adm_requests := [] |}.

(** [POST /admin/refresh-skus]; [None] when the hydration loop has not
    completed within [fuel] iterations. *)
Definition refresh_skus (ADMIN_TOKEN header : option string)
    (fetch : string -> fetch_result) (fuel : nat) (this : YampiSkuMap)
  : option admin_outcome :=
  if unauthorized ADMIN_TOKEN header then Some (deny this)
  else
    match hydrateOnce fetch (alias this) default_options fuel this with
    | None => None
    | Some r =>
        Some
          match run_result r with
          | Return count =>
              {| adm_status := 200;
                 adm_json := VObj [("ok", VBool true);
                                   ("count", VNum (Num count))];
                 adm_map := run_map r; adm_requests := run_requests r |}
          | Throw msg =>
              {| adm_status := 500; adm_json := VObj [("error", VStr msg)];
                 adm_map := run_map r; adm_requests := run_requests r |}
          end
    end.

(** [GET /admin/sku/:sku] *)
Definition lookup_sku (ADMIN_TOKEN header : option string)
    (sku_param : option string) (this : YampiSkuMap) : admin_outcome :=
  if unauthorized ADMIN_TOKEN header then deny this
  else
    let sku := trim (default EmptyString sku_param) in
    {| adm_status := 200;
       adm_json :=
         VObj [("sku", VStr sku);
               ("id", match getId this (VStr sku) with
                      | Some id => VNum id
                      | None => VNull
                      end)];
       adm_map := map this; adm_requests := [] |}.

End Admin.

(** ** The install flow of [server.js] *)

Module OAuth.
Import Js Http.

Fixpoint ends_with (suffix s : string) : bool :=
  String.eqb s suffix
  || match s with
     | EmptyString => false
     | String _ r => ends_with suffix r
     end.

(** [/\.(myshopify\.com)$/i.test(v)] *)
Definition isShopDomain (v : string) : bool :=
  ends_with ".myshopify.com" (toLowerCase v).

Definition is_alnum (c : ascii) : bool :=
  let n := N_of_ascii c in
  ((48 <=? n)%N && (n <=? 57)%N)
  || ((65 <=? n)%N && (n <=? 90)%N)
  || ((97 <=? n)%N && (n <=? 122)%N).

Fixpoint mem_char (c : ascii) (s : string) : bool :=
  match s with
  | EmptyString => false
  | String d r => Ascii.eqb c d || mem_char c r
  end.

Definition hex_upper (x : N) : ascii :=
  ascii_of_N (if (x <? 10)%N then 48 + x else 55 + x)%N.

Definition percent (c : ascii) : string :=
  let n := N_of_ascii c in
  String "%" (String (hex_upper (n / 16)) (String (hex_upper (n mod 16))
    EmptyString)).

Fixpoint encode_with (f : ascii -> string) (s : string) : string :=
  match s with
  | EmptyString => EmptyString
  | String c r => f c +:+ encode_with f r
  end.

Definition encodeURIComponent : string -> string :=
  encode_with (fun c =>
    if is_alnum c || mem_char c "-_.!~*'()" then String c EmptyString
    else percent c).

(** The serializer of [URLSearchParams]. *)
Definition form_encode : string -> string :=
  encode_with (fun c =>
    if is_alnum c || mem_char c "*-._" then String c EmptyString
    else if Ascii.eqb c " " then "+"
    else percent c).

Fixpoint join_amp (l : list string) : string :=
  match l with
  | [] => EmptyString
  | [x] => x
  | x :: r => x +:+ "&" +:+ join_amp r
  end.

Definition search_params (l : list (string * string)) : string :=
  join_amp (List.map (fun kv => form_encode kv.1 +:+ "=" +:+ form_encode kv.2) l).

Record oauth_env := {
  SHOPIFY_API_KEY : option string;
  SHOPIFY_API_SECRET : string;
  SCOPES : option string;
  APP_URL : string }.

(** [APP_URL.replace(/\/$/, '')] *)
Fixpoint strip_trailing_slash (s : string) : string :=
  match s with
  | EmptyString => EmptyString
  | String c EmptyString => if Ascii.eqb c "/" then EmptyString else s
  | String c r => String c (strip_trailing_slash r)
  end.

Definition buildAuthURL (env : oauth_env) (shop state : string) : string :=
  let redirectUri := strip_trailing_slash (APP_URL env) +:+ "/auth/callback" in
  let scope := default EmptyString (SCOPES env) in
  "https://" +:+ shop +:+ "/admin/oauth/authorize?"
  +:+ search_params [("client_id", env_string (SHOPIFY_API_KEY env));
                     ("scope", scope);
                     ("redirect_uri", redirectUri);
                     ("state", state)].

Definition pair_of (rest : gmap string jsval) (k : string) : string :=
  k +:+ "=" +:+ ToString (default VUndef (rest !! k)).

(** The message signed at the callback: every parameter but [hmac] and
    [signature], sorted by key, joined by [&]. *)
Definition message (query : gmap string jsval) : string :=
  let rest := delete "signature" (delete "hmac" query) in
  join_amp (List.map (pair_of rest) (VerifyProxy.sorted_keys rest)).

Definition verifyOAuthHmac (query : gmap string jsval) (secret : string)
  : bool :=
  VerifyProxy.strict_eq_string
    (Crypto.hmac_sha256_hex secret (message query))
    (default VUndef (query !! "hmac")).

Inductive page :=
| Send (status : Z) (text : string)
| Redirect (url : string).

(** [GET /install]; [state] is the value drawn from
    [crypto.randomBytes(16).toString('hex')]. *)
Definition install (env : oauth_env) (state : string)
    (query : gmap string jsval) (states : gmap string string)
  : page * gmap string string :=
  let shop :=
    toLowerCase
      (ToString (or_else (default VUndef (query !! "shop")) (VStr EmptyString))) in
  if negb (isShopDomain shop)
  then (Send 400 "Parâmetro shop inválido", states)
  else (Redirect (buildAuthURL env shop state), <[shop := state]> states).

(** The JSON body of the token request. *)
Record token_body := {
  client_id : option string;
  client_secret : string;
  code : jsval }.

Record callback_outcome := {
  cb_reply : page;
  cb_states : gmap string string;
  cb_token_requests : list (string * token_body) }.

(** [states.get(shop)]: the keys of [states] are strings. *)
Definition states_get (states : gmap string string) (shop : jsval)
  : option string :=
  match shop with
  | VStr s => states !! s
  | _ => None
  end.

(** [expected !== state] *)
Definition differs (expected : string) (state : jsval) : bool :=
  match state with
  | VStr s => negb (String.eqb expected s)
  | _ => true
  end.

Definition states_delete (states : gmap string string) (shop : jsval)
  : gmap string string :=
  match shop with
  | VStr s => delete s states
  | _ => states
  end.

(** [GET /auth/callback] *)
Definition callback (env : oauth_env)
    (token_fetch : string -> token_body -> fetch_result)
    (query : gmap string jsval) (states : gmap string string)
  : callback_outcome :=
  let field k := default VUndef (query !! k) in
  let shop := field "shop" in
  let quiet r := {| cb_reply := r; cb_states := states;
                    cb_token_requests := [] |} in
  if negb (truthy shop) || negb (truthy (field "code"))
     || negb (truthy (field "hmac"))
  then quiet (Send 400 "params inválidos")
  else if negb (verifyOAuthHmac query (SHOPIFY_API_SECRET env))
  then quiet (Send 401 "hmac inválido")
  else
    match states_get states shop with
    | None => quiet (Send 401 "state inválido")
    | Some expected =>
        if negb (truthy (VStr expected)) || differs expected (field "state")
        then quiet (Send 401 "state inválido")
        else
          let sent :=
            ("https://" +:+ ToString shop +:+ "/admin/oauth/access_token",
             {| client_id := SHOPIFY_API_KEY env;
                client_secret := SHOPIFY_API_SECRET env;
                code := field "code" |}) in
          match token_fetch sent.1 sent.2 with
          | Rejected _ =>
              {| cb_reply := Send 500 "erro na instalação";
                 cb_states := states; cb_token_requests := [sent] |}
          | Response status _ json =>
              if negb (ok status)
              then {| cb_reply := Send 500 "falha ao obter token";
                      cb_states := states; cb_token_requests := [sent] |}
              else
                match json with
                | Throw _ =>
                    {| cb_reply := Send 500 "erro na instalação";
                       cb_states := states; cb_token_requests := [sent] |}
                | Return _ =>
                    {| cb_reply :=
                         Redirect
                           (strip_trailing_slash (APP_URL env) +:+ "/installed"
                            +:+ "?shop=" +:+ encodeURIComponent (ToString shop));
                       cb_states := states_delete states shop;
                       cb_token_requests := [sent] |}
                end
          end
    end.

End OAuth.

(** ** The refresh timer of [YampiSkuMap]

    The bookkeeping of [startAutoRefresh] and [stopAutoRefresh] over the
    timers of the event loop: [pending] holds the handles of the timeouts
    that are armed, [timer] is the field of the catalog. *)

Module Refresh.

Record timers := {
  timer : option nat;
  pending : gset nat;
  running : nat;
  next_handle : nat }.

Definition initial : timers :=
  {| timer := None; pending := ∅; running := 0; next_handle := 0 |}.

(** [this.timer = setTimeout(run, this.refreshMs)] *)
Definition arm (t : timers) : timers :=
  {| timer := Some (next_handle t);
     pending := {[ next_handle t ]} ∪ pending t;
     running := running t;
     next_handle := S (next_handle t) |}.

Definition startAutoRefresh (t : timers) : timers :=
  match timer t with
  | None => arm t
  | Some _ => t
  end.

Definition stopAutoRefresh (t : timers) : timers :=
  match timer t with
  | Some h => {| timer := timer t; pending := pending t ∖ {[ h ]};
                 running := running t; next_handle := next_handle t |}
  | None => t
  end.

(** The timeout [h] fires and [run] starts: the handle is spent. *)
Definition fire (h : nat) (t : timers) : timers :=
  {| timer := timer t; pending := pending t ∖ {[ h ]};
     running := S (running t); next_handle := next_handle t |}.

(** A [run] reaches its [finally], after a hydration that succeeded or
    failed, and arms the next timeout. *)
Definition run_finally (t : timers) : timers :=
  arm {| timer := timer t; pending := pending t;
         running := Nat.pred (running t); next_handle := next_handle t |}.

(** What can happen to the timers of one catalog. *)
Inductive step : timers -> timers -> Prop :=
| step_start t : step t (startAutoRefresh t)
| step_stop t : step t (stopAutoRefresh t)
| step_fire t h : h ∈ pending t -> step t (fire h t)
| step_finally t : (0 < running t)%nat -> step t (run_finally t).

Inductive reachable : timers -> Prop :=
| reach_initial : reachable initial
| reach_step t t' : reachable t -> step t t' -> reachable t'.

End Refresh.

(** ** Notions used to state properties of the catalog *)

Module CatalogFacts.
Import Js Catalog.

(** The paths of [n] consecutive pages from [page] on. *)
Definition pages_from (this_alias : option string) (opts : hydrate_options)
    (page : Z) (n : nat) : list string :=
  List.map (fun i => page_path this_alias (limit opts) (page + Z.of_nat i))
    (seq 0 n).

(** The run [r] replayed over the prior mapping [m]: what it wrote wins,
    the rest of [m] stays. *)
Definition over (m : gmap string number) (r : run) : run :=
  Build_run (run_map r ∪ m) (run_requests r) (run_result r).

(** The test of the innermost loop of [hydrateOnce]. *)
Definition accepted (s : jsval) : bool :=
  truthy (get s "sku") && negb (nullish (get s "id")).

(** The three writes made for an accepted record. *)
Definition store (m : gmap string number) (s : jsval) : gmap string number :=
  let key := trim (ToString (get s "sku")) in
  let id := ToNumber (get s "id") in
  <[toLowerCase key := id]> (<[toUpperCase key := id]> (<[key := id]> m)).

(** The SKU records listed under the product [p]. *)
Definition skus_of (p : jsval) : list jsval :=
  match or_else (get (get p "skus") "data")
          (or_else (get p "skus") (VArr [])) with
  | VArr l => l
  | _ => []
  end.

(** The SKU records of the page answered for [path], in the order the
    loops visit them; none when the request or the listing fails. *)
Definition records_of (fetch : string -> Http.fetch_result) (path : string)
  : list jsval :=
  match yampiGet fetch path with
  | Js.Throw _ => []
  | Js.Return resp =>
      match iterate (or_else (get resp "data") (VArr [])) with
      | Js.Throw _ => []
      | Js.Return ps => flat_map skus_of ps
      end
  end.

(** The accepted records of the pages answered for [paths]. *)
Definition written (fetch : string -> Http.fetch_result)
    (paths : list string) : list jsval :=
  List.filter accepted (flat_map (records_of fetch) paths).

(** The records of a seed array before the first one that raises. *)
Fixpoint read_records (l : list jsval) : list jsval :=
  match l with
  | [] => []
  | r :: l' => if seedRecord_raises r then [] else r :: read_records l'
  end.

(** The entries of a seed object before the first whose identifier
    raises. *)
Fixpoint read_entries (props : list (string * jsval))
  : list (string * jsval) :=
  match props with
  | [] => []
  | e :: props' => if unconvertible e.2 then [] else e :: read_entries props'
  end.

End CatalogFacts.

(** ** Notions used to state properties of the handlers *)

Module HandlerFacts.
Import Js Http Catalog Yampi Proxy.

(** The identifier [id] stands for the item code [s]: a code made of
    digits is its own identifier, any other code has the identifier the
    catalog gives it, which is then neither 0 nor NaN. *)
Definition resolved (skuMap : YampiSkuMap) (s : jsval) (id : number) : Prop :=
  (all_digits (ToString s) = true /\ id = ToNumber s)
  \/ (all_digits (ToString s) = false
      /\ getId skuMap s = Some id /\ number_truthy id = true).

(** An item code on which the conversions of the resolution loop complete
    and are exact: [String] and [Number] do not raise, and the number it
    converts to, if any, is at most 2^53 in magnitude, so that [Number]
    gives it unrounded and [String] writes it in plain decimal. *)
Definition plain (s : jsval) : bool :=
  negb (unconvertible s)
  && match ToNumber s with
     | NaN => true
     | Num z => Z.abs z <=? 9007199254740992
     end.

(** An item of a comma-separated list: not empty, no comma, no white space
    at either end. *)
Definition token (t : string) : Prop :=
  t <> EmptyString
  /\ sforall (fun c => negb (Ascii.eqb c ",")) t = true
  /\ trim t = t.

(** The characters of a decimal numeral. *)
Definition numeric (c : ascii) : bool := is_digit c || Ascii.eqb c "-".

(** The characters that do not end a number inside the cache key. *)
Definition inner (c : ascii) : bool :=
  negb (Ascii.eqb c ",") && negb (Ascii.eqb c "]") && negb (Ascii.eqb c "}").

(** The end of a cache key, from the bracket that closes [qtys] on. *)
Definition key_tail (total : option number) : string :=
  match total with
  | None => "}"
  | Some t =>
      "," +:+ dquote +:+ "total" +:+ dquote +:+ ":" +:+ json_number t +:+ "}"
  end.

(** Every payload in the cache is an array. *)
Definition holds_arrays (quoteCache : gmap string cache_entry) : Prop :=
  map_Forall (fun _ e => exists l : list jsval, data e = VArr l) quoteCache.

(** The code [s] has no usable identifier. *)
Definition unmapped (skuMap : YampiSkuMap) (s : jsval) : Prop :=
  all_digits (ToString s) = false
  /\ (getId skuMap s = None
      \/ getId skuMap s = Some NaN \/ getId skuMap s = Some (Num 0)).

Section Cases.
Variable env : process_env.
Variable skuMap : YampiSkuMap.
Variable post : string -> quote_body -> fetch_result.
Variables now_get now_set : Z.

(** The four ways a run of [server.js]'s pipeline over the inputs [i] can
    end, given as facts about its outcome [out]. *)
Definition pipeline_cases (i : inputs) (quoteCache : gmap string cache_entry)
    (out : outcome) : Prop :=
  (exists (code : Z) (msg : string),
      (code = 400 \/ code = 401)
      /\ out = {| out_reply := error_reply code msg;
                  out_cache := quoteCache; out_posts := [] |})
  \/ exists ids : list number,
       String.length (in_cep i) = 8%nat
       /\ resolveIds skuMap (in_skusArr i) [] = inl ids
       /\ let key := cacheKey (in_cep i) ids (in_qtyArr i) (in_total i) in
          (exists e : cache_entry,
              Server.cache_hit (TTL env) now_get key quoteCache = Some e
              /\ out = {| out_reply :=
                            {| status := 200;
                               json := VObj [("data", data e);
                                             ("cached", VBool true)] |};
                          out_cache := quoteCache; out_posts := [] |})
          \/ (Server.cache_hit (TTL env) now_get key quoteCache = None
              /\ exists sent : string * quote_body,
                   (exists msg : string,
                       calcularFreteYampi post (quote_call env i ids)
                         = (sent, Throw msg)
                       /\ out = {| out_reply := error_reply 500 msg;
                                   out_cache := quoteCache;
                                   out_posts := [sent] |})
                   \/ (exists raw : jsval,
                         calcularFreteYampi post (quote_call env i ids)
                           = (sent, Return raw)
                         /\ out = {| out_reply :=
                                       {| status := 200;
                                          json := VObj [("data", Server.normalize raw)] |};
                                     out_cache :=
                                       <[key := {| stored_at := now_set;
                                                   data := Server.normalize raw |}]>
                                         quoteCache;
                                     out_posts := [sent] |})).

(** The same for the earlier revision, whose cache read can drop the
    entry and serves only truthy payloads. *)
Definition pipelineA_cases (i : inputs) (quoteCache : gmap string cache_entry)
    (out : outcome) : Prop :=
  (exists (code : Z) (msg : string),
      (code = 400 \/ code = 401)
      /\ out = {| out_reply := error_reply code msg;
                  out_cache := quoteCache; out_posts := [] |})
  \/ exists ids : list number,
       String.length (in_cep i) = 8%nat
       /\ resolveIds skuMap (in_skusArr i) [] = inl ids
       /\ let key := cacheKey (in_cep i) ids (in_qtyArr i) (in_total i) in
          let got := ServerA.getFromCache (TTL env) now_get key quoteCache in
          (truthy got.1 = true
           /\ out = {| out_reply :=
                         {| status := 200;
                            json := VObj [("data", got.1);
                                          ("cached", VBool true)] |};
                       out_cache := got.2; out_posts := [] |})
          \/ (truthy got.1 = false
              /\ exists sent : string * quote_body,
                   (exists msg : string,
                       calcularFreteYampi post (quote_call env i ids)
                         = (sent, Throw msg)
                       /\ out = {| out_reply := error_reply 500 msg;
                                   out_cache := got.2;
                                   out_posts := [sent] |})
                   \/ (exists d : jsval,
                         calcularFreteYampi post (quote_call env i ids)
                           = (sent, Return d)
                         /\ out = {| out_reply :=
                                       {| status := 200;
                                          json := VObj [("data", d)] |};
                                     out_cache :=
                                       ServerA.setCache now_set key d got.2;
                                     out_posts := [sent] |})).

End Cases.
End HandlerFacts.

(** ** Notions and sample inputs for the install flow *)

Module OAuthFacts.
Import Js Http OAuth.

(** Every shop that holds a state is a shop domain. *)
Definition shops_only (states : gmap string string) : Prop :=
  forall (shop state : string),
    states !! shop = Some state -> isShopDomain shop = true.

Definition env0 : oauth_env :=
  {| SHOPIFY_API_KEY := Some "key123";
     SHOPIFY_API_SECRET := "shpss_secret";
     SCOPES := Some "read_products,write_shipping";
     APP_URL := "https://frete.example.com/" |}.

Definition nonce0 : string := "0f0e0d0c0b0a09080706050403020100".

Definition install_query : gmap string jsval :=
  {[ "shop" := VStr "Loja.MyShopify.com" ]}.

(** The callback the platform sends back for [nonce0]. *)
Definition callback_query : gmap string jsval :=
  list_to_map
    [("code", VStr "abc123");
     ("shop", VStr "loja.myshopify.com");
     ("state", VStr nonce0);
     ("timestamp", VStr "1700000000");
     ("hmac",
      VStr "02b1203383b0dcaa95d6a947dc46789816dad22e99c6c71b73e463dc093b8683")].

Definition token_ok (url : string) (b : token_body) : fetch_result :=
  Response 200 EmptyString
    (Return (VObj [("access_token", VStr "shpat_1")])).

Definition token_refused (url : string) (b : token_body) : fetch_result :=
  Response 400 "invalid_request" (Throw "unexpected body").

End OAuthFacts.

(** ** Notions used to state properties of the refresh timer *)

Module RefreshFacts.
Import Refresh.

(** At most one run in flight, nothing armed during it, and nothing armed
    but the timeout recorded in [timer]. *)
Definition orderly (t : timers) : Prop :=
  (running t <= 1)%nat
  /\ (running t = 1%nat -> pending t = ∅)
  /\ (forall h : nat, h ∈ pending t -> timer t = Some h)
  /\ (timer t = None -> pending t = ∅ /\ running t = 0%nat).

(** Started once, nothing armed, nothing running. *)
Definition stopped (t : timers) : Prop :=
  timer t <> None /\ pending t = ∅ /\ running t = 0%nat.

End RefreshFacts.

(** * Properties *)

(** FIPS 180-4 and RFC 4231 test vectors. *)
Example sha256_abc :
  Crypto.hex (Crypto.sha256 (Crypto.bytes_of_string "abc"))
  = "ba7816bf8f01cfea414140de5dae2223b00361a396177a9cb410ff61f20015ad".
Proof. vm_compute. reflexivity. Qed.

Example sha256_empty :
  Crypto.hex (Crypto.sha256 [])
  = "e3b0c44298fc1c149afbf4c8996fb92427ae41e4649b934ca495991b7852b855".
Proof. vm_compute. reflexivity. Qed.

Example hmac_rfc4231_case2 :
  Crypto.hmac_sha256_hex "Jefe" "what do ya want for nothing?"
  = "5bdcc146bf60754e6a042426089575c75a003f089d2739839dec58b964ec3843".
Proof. vm_compute. reflexivity. Qed.

Example hmac_key_longer_than_block :
  Crypto.hmac_sha256_hex
    "kkkkkkkkkkkkkkkkkkkkkkkkkkkkkkkkkkkkkkkkkkkkkkkkkkkkkkkkkkkkkkkkkkkkkkkkkkkkkkkkkkkkkkkkkkkkkkkkkkkk"
    "long key message"
  = "2206307199b2c74b4ba3c86def2864db041962d763b2236b6ef54a175377af22".
Proof. vm_compute. reflexivity. Qed.

Lemma hmac_hex_length key msg :
  String.length (Crypto.hmac_sha256_hex key msg) = 64%nat.
Proof. reflexivity. Qed.


(** ** Signature verifier *)

Section Verifier.
Import Js VerifyProxy.

Lemma entries_of_keys (params : gmap string jsval) :
  List.map (fun k => (k, default VUndef (params !! k)))
    (List.map fst (map_to_list params)) = map_to_list params.
Proof.
  rewrite List.map_map. rewrite <- (List.map_id (map_to_list params)) at 2.
  apply List.map_ext_in. intros [k v] Hin. simpl.
  apply list_elem_of_In, elem_of_map_to_list in Hin. by rewrite Hin.
Qed.

Lemma base_string_canonical (params : gmap string jsval) :
  Spec.canonical params (base_string params).
Proof.
  exists (List.map (fun k => (k, default VUndef (params !! k)))
            (sorted_keys params)).
  split; [|split].
  - trans (List.map (fun k => (k, default VUndef (params !! k)))
             (List.map fst (map_to_list params)));
      [|by rewrite (entries_of_keys params)].
    apply Permutation_map. unfold sorted_keys. apply merge_sort_Permutation.
  - unfold sorted_keys.
    assert (Hs : StronglySorted String.le
                   (merge_sort String.le (List.map fst (map_to_list params))))
      by apply (StronglySorted_merge_sort String.le).
    induction Hs as [|k ks Hs IH Hall]; simpl; constructor; [done|].
    apply Forall_forall. intros [k' v'] Hin.
    apply list_elem_of_In, List.in_map_iff in Hin as (k2 & Heq & Hin).
    injection Heq as <- <-. unfold Spec.by_key. simpl.
    rewrite Forall_forall in Hall. apply Hall. by apply list_elem_of_In.
  - unfold base_string, join_empty.
    induction (sorted_keys params) as [|k ks IH]; simpl; [done|].
    by rewrite IH.
Qed.

Lemma canonical_unique (params : gmap string jsval) (m1 m2 : string) :
  Spec.canonical params m1 -> Spec.canonical params m2 -> m1 = m2.
Proof.
  intros (l1 & Hp1 & Hs1 & ->) (l2 & Hp2 & Hs2 & ->).
  assert (l1 = l2) as ->; [|done].
  apply (StronglySorted_unique_strong Spec.by_key); [|done|done|].
  - intros [k1 v1] [k2 v2] H1 H2 Hle1 Hle2. unfold Spec.by_key in *. simpl in *.
    assert (k1 = k2) as <- by (by apply (anti_symm String.le)).
    rewrite Hp1 in H1. rewrite Hp2 in H2.
    apply elem_of_map_to_list in H1, H2. congruence.
  - by rewrite Hp1, Hp2.
Qed.

End Verifier.

Example signed_query_verifies :
  VerifyProxy.base_string (delete "signature" Sample.signed_query)
  = "path_prefix=/apps/shipping-quotesshop=loja.myshopify.comtimestamp=1700000000"
  /\ VerifyProxy.verifyShopifyProxy (Some Sample.signed_query)
       (Some "shpss_secret") = true
  /\ VerifyProxy.verifyShopifyProxy
       (Some (<["timestamp" := Js.VStr "1700000001"]> Sample.signed_query))
       (Some "shpss_secret") = false
  /\ VerifyProxy.verifyShopifyProxy (Some Sample.signed_query) None = false.
Proof. repeat split; by vm_compute. Qed.

(** C1. [verifyShopifyProxy] is total, so it never throws. It returns
    false when the secret is absent or empty or the [signature] field is
    missing; otherwise it returns true exactly when the lowercase hex
    HMAC-SHA256, keyed by the secret, of the canonical message of the
    remaining parameters equals the [signature] value. *)
Theorem verify_iff_hmac_of_canonical
    (query : option (gmap string Js.jsval)) (secret : option string) :
  let q := default ∅ query in
  ((secret = None \/ secret = Some EmptyString \/ q !! "signature" = None)
     -> VerifyProxy.verifyShopifyProxy query secret = false)
  /\ (forall key sig : string,
        secret = Some key -> key <> EmptyString ->
        q !! "signature" = Some (Js.VStr sig) ->
        exists msg : string,
          Spec.canonical (delete "signature" q) msg
          /\ (forall msg', Spec.canonical (delete "signature" q) msg' -> msg' = msg)
          /\ (VerifyProxy.verifyShopifyProxy query secret = true
              <-> Crypto.hmac_sha256_hex key msg = sig)).
Proof.
  intros q. split.
  - intros [-> | [-> | Hsig]]; [done..|].
    unfold VerifyProxy.verifyShopifyProxy. fold q. rewrite Hsig.
    by destruct secret as [[|c k]|].
  - intros key sig -> Hkey Hsig.
    exists (VerifyProxy.base_string (delete "signature" q)).
    split; [apply base_string_canonical|]. split.
    { intros msg' H. eapply canonical_unique; eauto using base_string_canonical. }
    unfold VerifyProxy.verifyShopifyProxy. fold q. rewrite Hsig.
    destruct key as [|c k]; [done|]. cbn [default from_option id].
    destruct sig as [|d sig'].
    + cbn [Js.truthy negb]. split; [done|].
      intros H. apply (f_equal String.length) in H.
      by rewrite hmac_hex_length in H.
    + cbn [Js.truthy negb VerifyProxy.strict_eq_string].
      apply String.eqb_eq.
Qed.


(** ** Catalog: lookup and writes *)

Section CatalogWrites.
Import Js Catalog.

Lemma first_some_None {A} (a b : option A) :
  first_some a b = None <-> a = None /\ b = None.
Proof. destruct a, b; simpl; intuition congruence. Qed.

Lemma hydrateSku_accepted (st : gmap string number * Z) (s : jsval) :
  truthy (get s "sku") && negb (nullish (get s "id")) = true ->
  hydrateSku st s =
    (<[toLowerCase (trim (ToString (get s "sku"))) := ToNumber (get s "id")]>
       (<[toUpperCase (trim (ToString (get s "sku"))) := ToNumber (get s "id")]>
          (<[trim (ToString (get s "sku")) := ToNumber (get s "id")]> st.1)),
     st.2 + 1).
Proof. intros H. unfold hydrateSku. by rewrite H. Qed.

Lemma hydrateSku_rejected (st : gmap string number * Z) (s : jsval) :
  truthy (get s "sku") && negb (nullish (get s "id")) = false ->
  hydrateSku st s = st.
Proof. intros H. unfold hydrateSku. by rewrite H. Qed.

Lemma hydrate_write_three_keys (st : gmap string number * Z) (s : jsval) :
  truthy (get s "sku") && negb (nullish (get s "id")) = true ->
  let key := trim (ToString (get s "sku")) in
  let id := ToNumber (get s "id") in
  let m' := (hydrateSku st s).1 in
  m' !! key = Some id
  /\ m' !! toUpperCase key = Some id
  /\ m' !! toLowerCase key = Some id.
Proof.
  intros H key id m'. subst m'. rewrite hydrateSku_accepted by done.
  fold key. fold id. cbn [fst]. repeat split.
  - destruct (decide (toLowerCase key = key)) as [->|];
      [by rewrite lookup_insert_eq|rewrite lookup_insert_ne by done].
    destruct (decide (toUpperCase key = key)) as [->|];
      [by rewrite lookup_insert_eq|rewrite lookup_insert_ne by done].
    by rewrite lookup_insert_eq.
  - destruct (decide (toLowerCase key = toUpperCase key)) as [->|];
      [by rewrite lookup_insert_eq|rewrite lookup_insert_ne by done].
    by rewrite lookup_insert_eq.
  - by rewrite lookup_insert_eq.
Qed.

End CatalogWrites.

(** C3, refuted as stated. The lookup tries the trimmed spelling before
    its upper-cased and lower-cased forms, and hydration writes the code
    "ABC-1" under "ABC-1" and "abc-1" only: an entry under "Abc-1" answers
    the lookup of " Abc-1 ". So it is after a [bootstrap] whose seed holds
    ("Abc-1", 9) and whose hydration lists ("ABC-1", 42), and after the
    hydration of a fresh catalog from one page that lists ("Abc-1", 9) and
    ("ABC-1", 42): "abc-1" and "ABC-1" give 42, " Abc-1 " gives 9. *)
Lemma mixed_case_lookup_finds_its_own_entry :
  (exists this' : Catalog.YampiSkuMap,
      Catalog.bootstrap
        (Catalog.Parsed (Js.VArr [Sample.sku_record "Abc-1" (Js.VNum (Js.Num 9))]))
        Sample.fetch_one_page 1000 (Catalog.new_YampiSkuMap (Some "loja"))
      = Some this'
      /\ Catalog.getId this' (Js.VStr "abc-1") = Some (Js.Num 42)
      /\ Catalog.getId this' (Js.VStr "ABC-1") = Some (Js.Num 42)
      /\ Catalog.getId this' (Js.VStr " Abc-1 ") = Some (Js.Num 9)
      /\ Catalog.getId this' (Js.VStr " Abc-1 ") <> Some (Js.Num 42))
  /\ (exists r : Catalog.run,
        Catalog.hydrateOnce Sample.fetch_two_spellings (Some "loja")
          Catalog.default_options 1000 (Catalog.new_YampiSkuMap (Some "loja"))
        = Some r
        /\ Catalog.run_result r = Js.Return 2
        /\ let this' := Catalog.with_map (Catalog.new_YampiSkuMap (Some "loja"))
                          (Catalog.run_map r) in
           Catalog.getId this' (Js.VStr "abc-1") = Some (Js.Num 42)
           /\ Catalog.getId this' (Js.VStr "ABC-1") = Some (Js.Num 42)
           /\ Catalog.getId this' (Js.VStr " Abc-1 ") = Some (Js.Num 9)
           /\ Catalog.getId this' (Js.VStr " Abc-1 ") <> Some (Js.Num 42)).
Proof.
  split.
  - eexists. split; [by vm_compute|]. repeat split; by vm_compute.
  - eexists. split; [by vm_compute|]. cbv zeta. repeat split; by vm_compute.
Qed.

(** C3, amended. Once hydration has written the entry ("ABC-1", 42), the
    lookups of "abc-1" and "ABC-1" return 42 whatever the mapping held,
    and the lookup of " Abc-1 " returns the entry of the spelling "Abc-1"
    if the mapping has one and 42 otherwise; all three return 42 after a
    full [hydrateOnce] of a fresh catalog from a page that lists that
    record alone. A lookup of a
    non-empty string tries the trimmed form, then its upper-cased form,
    then its lower-cased form, and is absent when none of them is a key.
    In general a lookup that differs from a code written by hydration only
    in case and surrounding white space returns that code's identifier,
    unless its own trimmed spelling is a key of an older entry. *)
Theorem lookup_case_insensitive_after_hydration :
  (exists r : Catalog.run,
      Catalog.hydrateOnce Sample.fetch_one_page (Some "loja")
        Catalog.default_options 1000 (Catalog.new_YampiSkuMap (Some "loja"))
      = Some r
      /\ Catalog.run_result r = Js.Return 1
      /\ let this' := Catalog.with_map (Catalog.new_YampiSkuMap (Some "loja"))
                        (Catalog.run_map r) in
         Catalog.getId this' (Js.VStr "abc-1") = Some (Js.Num 42)
         /\ Catalog.getId this' (Js.VStr "ABC-1") = Some (Js.Num 42)
         /\ Catalog.getId this' (Js.VStr " Abc-1 ") = Some (Js.Num 42))
  /\ (forall (this : Catalog.YampiSkuMap) (n : Z),
      let m' := (Catalog.hydrateSku (Catalog.map this, n)
                   (Sample.sku_record "ABC-1" (Js.VNum (Js.Num 42)))).1 in
      let this' := Catalog.with_map this m' in
      Catalog.getId this' (Js.VStr "abc-1") = Some (Js.Num 42)
      /\ Catalog.getId this' (Js.VStr "ABC-1") = Some (Js.Num 42)
      /\ Catalog.getId this' (Js.VStr " Abc-1 ")
         = Some (default (Js.Num 42) (Catalog.map this !! "Abc-1")))
  /\ (forall (this : Catalog.YampiSkuMap) (n : Z) (s : Js.jsval) (q : string),
        let key := Js.trim (Js.ToString (Js.get s "sku")) in
        let id := Js.ToNumber (Js.get s "id") in
        let this' := Catalog.with_map this
                       (Catalog.hydrateSku (Catalog.map this, n) s).1 in
        Js.truthy (Js.get s "sku") && negb (Js.nullish (Js.get s "id")) = true ->
        q <> EmptyString ->
        Js.toUpperCase (Js.trim q) = Js.toUpperCase key ->
        Catalog.getId this' (Js.VStr q)
        = Some (if decide (Js.trim q ∈ [key; Js.toUpperCase key;
                                        Js.toLowerCase key])
                then id
                else default id (Catalog.map this !! Js.trim q)))
  /\ (forall (this : Catalog.YampiSkuMap) (s : string),
        s <> EmptyString ->
        let key := Js.trim s in
        Catalog.getId this (Js.VStr s) =
          match Catalog.map this !! key with
          | Some id => Some id
          | None =>
              match Catalog.map this !! Js.toUpperCase key with
              | Some id => Some id
              | None => Catalog.map this !! Js.toLowerCase key
              end
          end)
  /\ (forall (this : Catalog.YampiSkuMap) (s : string),
        Catalog.map this !! Js.trim s = None ->
        Catalog.map this !! Js.toUpperCase (Js.trim s) = None ->
        Catalog.map this !! Js.toLowerCase (Js.trim s) = None ->
        Catalog.getId this (Js.VStr s) = None).
Proof.
  split; [|split; [|split; [|split]]].
  - eexists. split; [by vm_compute|]. cbv zeta. repeat split; by vm_compute.
  - intros this n m' this'. subst this' m'.
    rewrite hydrateSku_accepted by done.
    unfold Catalog.getId, Catalog.with_map, Sample.sku_record. cbn.
    repeat split.
    + by rewrite lookup_insert_eq.
    + rewrite lookup_insert_ne by done. by rewrite lookup_insert_eq.
    + rewrite !(lookup_insert_ne _ _ "Abc-1") by done.
      destruct (Catalog.map this !! "Abc-1") as [v|] eqn:E; cbn; [done|].
      rewrite lookup_insert_ne by done. by rewrite lookup_insert_eq.
  - intros this n s q key id this' Hacc Hq Hup.
    destruct (hydrate_write_three_keys (Catalog.map this, n) s Hacc)
      as (Hk & Hu & Hl). fold key id in Hk, Hu, Hl.
    unfold Catalog.getId. destruct q as [|c q']; [done|].
    cbn [Js.truthy negb Js.ToString]. set (t := Js.trim (String c q')) in *.
    subst this'. cbn [Catalog.map Catalog.with_map]. rewrite Hup, Hu.
    case_decide as Hin.
    + rewrite !elem_of_cons, elem_of_nil in Hin.
      destruct Hin as [-> | [-> | [-> | []]]]; by rewrite ?Hk, ?Hu, ?Hl.
    + rewrite hydrateSku_accepted by done. fold key id. cbn [fst].
      rewrite !elem_of_cons, elem_of_nil in Hin.
      rewrite !lookup_insert_ne by naive_solver.
      by destruct (Catalog.map this !! t).
  - intros this s Hs key. unfold Catalog.getId, Catalog.first_some.
    destruct s; [done|]. cbn [Js.truthy negb Js.ToString]. fold key.
    by repeat case_match.
  - intros this s H1 H2 H3. unfold Catalog.getId.
    destruct (negb _); [done|]. cbn [Js.ToString].
    by rewrite H1, H2, H3.
Qed.


(** C8, at the seed [[{"sku": "Abc-1", "id": 42}]]: the seed load stores
    the entry under the trimmed code alone, so its upper-cased and
    lower-cased forms stay absent and a lookup in another case finds
    nothing, as after a [bootstrap] whose hydration fails; hydration of
    the same record stores all three forms. *)
Theorem seed_write_single_key :
  let r := Sample.sku_record "Abc-1" (Js.VNum (Js.Num 42)) in
  let seeded := Catalog.loadSeed (Catalog.Parsed (Js.VArr [r])) ∅ in
  let hydrated := (Catalog.hydrateSku (∅, 0) r).1 in
  seeded = {[ "Abc-1" := Js.Num 42 ]}
  /\ seeded !! "ABC-1" = None
  /\ seeded !! "abc-1" = None
  /\ Catalog.getId (Catalog.with_map (Catalog.new_YampiSkuMap None) seeded)
       (Js.VStr "abc-1") = None
  /\ (exists this' : Catalog.YampiSkuMap,
        Catalog.bootstrap (Catalog.Parsed (Js.VArr [r])) Sample.fetch_down 1000
          (Catalog.new_YampiSkuMap None) = Some this'
        /\ Catalog.getId this' (Js.VStr "Abc-1") = Some (Js.Num 42)
        /\ Catalog.getId this' (Js.VStr "abc-1") = None
        /\ Catalog.getId this' (Js.VStr "ABC-1") = None)
  /\ hydrated !! "Abc-1" = Some (Js.Num 42)
  /\ hydrated !! "ABC-1" = Some (Js.Num 42)
  /\ hydrated !! "abc-1" = Some (Js.Num 42).
Proof.
  cbv zeta. repeat split; try (by vm_compute).
  eexists. split; [by vm_compute|]. repeat split; by vm_compute.
Qed.

(** C9, refuted as stated. Hydration accepts the record
    [{"sku": "A", "id": 0}] (its id is not null) and stores 0; the seed
    load accepts [{"sku": "B", "id": -5}] (its id is truthy) and stores -5.
    Neither is a positive integer. *)
Lemma stored_id_not_positive :
  let s := Sample.sku_record "A" (Js.VNum (Js.Num 0)) in
  let r := Sample.sku_record "B" (Js.VNum (Js.Num (-5))) in
  (Js.truthy (Js.get s "sku") && negb (Js.nullish (Js.get s "id")) = true
   /\ (Catalog.hydrateSku (∅, 0) s).1 !! "A" = Some (Js.Num 0)
   /\ ~ Spec.positive_integer (Js.Num 0))
  /\ (Js.truthy r && Js.truthy (Js.get r "sku") && Js.truthy (Js.get r "id") = true
      /\ Catalog.loadSeed (Catalog.Parsed (Js.VArr [r])) ∅ !! "B"
         = Some (Js.Num (-5))
      /\ ~ Spec.positive_integer (Js.Num (-5))).
Proof.
  cbv zeta. repeat split; try (by vm_compute);
    intros (z & [= <-] & Hz); lia.
Qed.

(** C9, amended. A write changes the mapping only at the key forms of the
    record's code, and the value it stores there is [Number(id)] of the
    record's own id, whatever that is; so a mapping of positive integers
    stays one when the written id converts to a positive integer, as every
    JSON id that is a positive integer does. *)
Theorem stored_id_is_number_of_record_id :
  (forall (st : gmap string Js.number * Z) (s : Js.jsval) (k : string)
          (v : Js.number),
      (Catalog.hydrateSku st s).1 !! k = Some v ->
      st.1 !! k = Some v
      \/ (Js.truthy (Js.get s "sku") && negb (Js.nullish (Js.get s "id")) = true
          /\ v = Js.ToNumber (Js.get s "id")))
  /\ (forall (m : gmap string Js.number) (r : Js.jsval) (k : string)
             (v : Js.number),
        Catalog.seedRecord m r !! k = Some v ->
        m !! k = Some v \/ v = Js.ToNumber (Js.get r "id"))
  /\ (forall (m : gmap string Js.number) (e : string * Js.jsval) (k : string)
             (v : Js.number),
        Catalog.seedEntry m e !! k = Some v ->
        m !! k = Some v \/ v = Js.ToNumber e.2)
  /\ (forall (st : gmap string Js.number * Z) (s : Js.jsval),
        map_Forall (fun _ v => Spec.positive_integer v) st.1 ->
        Spec.positive_integer (Js.ToNumber (Js.get s "id")) ->
        map_Forall (fun _ v => Spec.positive_integer v)
          (Catalog.hydrateSku st s).1)
  /\ (forall z : Z, 0 < z ->
        Spec.positive_integer (Js.ToNumber (Js.VNum (Js.Num z)))).
Proof.
  assert (Hsku : forall (st : gmap string Js.number * Z) s k v,
    (Catalog.hydrateSku st s).1 !! k = Some v ->
    st.1 !! k = Some v
    \/ (Js.truthy (Js.get s "sku") && negb (Js.nullish (Js.get s "id")) = true
        /\ v = Js.ToNumber (Js.get s "id"))).
  { intros st s k v. unfold Catalog.hydrateSku.
    destruct (_ && _) eqn:Hacc; [|by left]. cbn [fst].
    rewrite !lookup_insert. repeat case_decide; naive_solver. }
  split; [exact Hsku|]. split; [|split; [|split]].
  - intros m r k v. unfold Catalog.seedRecord.
    destruct (_ && _); [|by left].
    rewrite lookup_insert. case_decide; naive_solver.
  - intros m e k v. unfold Catalog.seedEntry.
    rewrite lookup_insert. case_decide; naive_solver.
  - intros st s Hall Hid k v Hk.
    destruct (Hsku st s k v Hk) as [H|[_ ->]]; [by eapply Hall|done].
  - intros z Hz. exists z. by split.
Qed.

(** ** Catalog: hydration *)

Section Hydration.
Import Js Http Catalog.

Lemma hydrateSku_keeps (st : gmap string number * Z) (s : jsval) (k : string) :
  is_Some (st.1 !! k) -> is_Some ((hydrateSku st s).1 !! k).
Proof.
  intros H. unfold hydrateSku. destruct (_ && _); [|done]. cbn [fst].
  rewrite !lookup_insert_is_Some'. auto.
Qed.

Lemma fold_hydrateSku_keeps (l : list jsval) (st : gmap string number * Z)
    (k : string) :
  is_Some (st.1 !! k) -> is_Some ((fold_left hydrateSku l st).1 !! k).
Proof.
  revert st. induction l as [|s l IH]; intros st H; simpl; [done|].
  by apply IH, hydrateSku_keeps.
Qed.

Lemma hydrateProduct_keeps (st : gmap string number * Z) (p : jsval)
    (k : string) :
  is_Some (st.1 !! k) -> is_Some ((hydrateProduct st p).1 !! k).
Proof.
  intros H. unfold hydrateProduct.
  destruct (or_else _ _); auto using fold_hydrateSku_keeps.
Qed.

Lemma fold_hydrateProduct_keeps (ps : list jsval)
    (st : gmap string number * Z) (k : string) :
  is_Some (st.1 !! k) -> is_Some ((fold_left hydrateProduct ps st).1 !! k).
Proof.
  revert st. induction ps as [|p ps IH]; intros st H; simpl; [done|].
  by apply IH, hydrateProduct_keeps.
Qed.

Variable fetch : string -> fetch_result.
Variable this_alias : option string.
Variable opts : hydrate_options.

Lemma hydrateLoop_step (fuel : nat) (page total : Z)
    (m : gmap string number) (reqs : list string) :
  hydrateLoop fetch this_alias opts (S fuel) page total m reqs =
    let path := page_path this_alias (limit opts) page in
    match yampiGet fetch path with
    | Throw msg => Some (Build_run m (reqs ++ [path]) (Throw msg))
    | Return resp =>
        match iterate (or_else (get resp "data") (VArr [])) with
        | Throw msg => Some (Build_run m (reqs ++ [path]) (Throw msg))
        | Return ps =>
            let st := fold_left hydrateProduct ps (m, total) in
            let totalPages :=
              ToNumber
                (or_else
                   (get (get (get resp "meta") "pagination") "total_pages")
                   (VNum (Num page))) in
            if (length ps =? 0)%nat
               || num_ge (Num page) totalPages
               || (maxPages opts <=? page - pageStart opts + 1)
            then Some (Build_run st.1 (reqs ++ [path]) (Return st.2))
            else hydrateLoop fetch this_alias opts fuel (page + 1) st.2 st.1
                   (reqs ++ [path])
        end
    end.
Proof. reflexivity. Qed.

Lemma hydrateLoop_keeps (fuel : nat) :
  forall (page total : Z) (m : gmap string number) (reqs : list string)
         (r : run),
    hydrateLoop fetch this_alias opts fuel page total m reqs = Some r ->
    forall k : string, is_Some (m !! k) -> is_Some (run_map r !! k).
Proof.
  induction fuel as [|fuel IH]; intros page total m reqs r Hr k Hk;
    [done|].
  simpl in Hr. destruct (yampiGet _ _) as [resp|msg]; [|by simplify_eq].
  destruct (iterate _) as [ps|msg]; [|by simplify_eq].
  pose proof (fold_hydrateProduct_keeps ps (m, total) k Hk) as Hk'.
  destruct (_ || _); [by simplify_eq|]. by eapply IH.
Qed.

Lemma hydrateLoop_more_fuel (fuel : nat) :
  forall (page total : Z) (m : gmap string number) (reqs : list string)
         (r : run),
    hydrateLoop fetch this_alias opts fuel page total m reqs = Some r ->
    hydrateLoop fetch this_alias opts (S fuel) page total m reqs = Some r.
Proof.
  induction fuel as [|fuel IH]; intros page total m reqs r Hr; [done|].
  remember (S fuel) as n eqn:Hn. simpl. subst n. simpl in Hr.
  destruct (yampiGet _ _) as [resp|msg]; [|done].
  destruct (iterate _) as [ps|msg]; [|done].
  destruct (_ || _); [done|]. by apply IH.
Qed.

Lemma hydrateLoop_fuel_le (fuel fuel' : nat) (page total : Z)
    (m : gmap string number) (reqs : list string) (r : run) :
  (fuel <= fuel')%nat ->
  hydrateLoop fetch this_alias opts fuel page total m reqs = Some r ->
  hydrateLoop fetch this_alias opts fuel' page total m reqs = Some r.
Proof.
  induction 1 as [|fuel' _ IH]; [done|].
  intros Hr. by apply hydrateLoop_more_fuel, IH.
Qed.

Lemma hydrateLoop_bounded (fuel : nat) :
  forall (page total : Z) (m : gmap string number) (reqs : list string),
    allowance opts page <= Z.of_nat fuel ->
    exists r : run,
      hydrateLoop fetch this_alias opts fuel page total m reqs = Some r
      /\ Z.of_nat (length (run_requests r))
         <= Z.of_nat (length reqs) + allowance opts page.
Proof.
  unfold allowance.
  induction fuel as [|fuel IH]; intros page total m reqs Hfuel; [lia|].
  simpl.
  destruct (yampiGet _ _) as [resp|msg];
    [|eexists; split; [done|]; simpl; rewrite length_app; simpl; lia].
  destruct (iterate _) as [ps|msg];
    [|eexists; split; [done|]; simpl; rewrite length_app; simpl; lia].
  destruct (_ || _) eqn:Hstop;
    [eexists; split; [done|]; simpl; rewrite length_app; simpl; lia|].
  apply orb_false_iff in Hstop as [_ Hcap]. apply Z.leb_gt in Hcap.
  destruct (IH (page + 1) (fold_left hydrateProduct ps (m, total)).2
              (fold_left hydrateProduct ps (m, total)).1
              (reqs ++ [page_path this_alias (limit opts) page]))
    as (r & Hr & Hlen); [lia|].
  exists r. split; [done|]. rewrite length_app in Hlen. simpl in Hlen. lia.
Qed.

Lemma hydrateLoop_requests_grow (fuel : nat) :
  forall (page total : Z) (m : gmap string number) (reqs : list string)
         (r : run),
    hydrateLoop fetch this_alias opts fuel page total m reqs = Some r ->
    (length reqs < length (run_requests r))%nat.
Proof.
  induction fuel as [|fuel IH]; intros page total m reqs r Hr; [done|].
  rewrite hydrateLoop_step in Hr. cbv zeta in Hr.
  destruct (yampiGet _ _) as [resp|msg];
    [|injection Hr as <-; cbn; rewrite length_app; cbn; lia].
  destruct (iterate _) as [ps|msg];
    [|injection Hr as <-; cbn; rewrite length_app; cbn; lia].
  destruct (_ || _);
    [injection Hr as <-; cbn; rewrite length_app; cbn; lia|].
  apply IH in Hr. rewrite length_app in Hr. cbn in Hr. lia.
Qed.

Lemma hydrateOnce_completes (this : YampiSkuMap) :
  exists r : run,
    (forall fuel : nat,
        (Z.to_nat (Z.max 1 (maxPages opts)) <= fuel)%nat ->
        hydrateOnce fetch this_alias opts fuel this = Some r)
    /\ (1 <= length (run_requests r))%nat
    /\ Z.of_nat (length (run_requests r)) <= Z.max 1 (maxPages opts).
Proof.
  destruct (hydrateLoop_bounded (Z.to_nat (Z.max 1 (maxPages opts)))
              (pageStart opts) 0 (map this) [])
    as (r & Hr & Hlen); [unfold allowance; lia|].
  exists r. split; [|split].
  - intros fuel Hfuel. unfold hydrateOnce. by eapply hydrateLoop_fuel_le.
  - apply hydrateLoop_requests_grow in Hr. cbn in Hr. lia.
  - unfold allowance in Hlen. cbn [length] in Hlen. lia.
Qed.

End Hydration.

(** C5. Whatever the upstream answers and however the call completes, a
    key present when the loop reaches a page is still present in the
    mapping the call leaves behind; a page that was read hands its writes
    on to the next iteration; and when the request for a page fails the
    call raises that failure and leaves exactly the mapping built by the
    pages before it. *)
Theorem hydration_only_gains_entries
    (fetch : string -> Http.fetch_result) (this_alias : option string)
    (opts : Catalog.hydrate_options) :
  (forall (fuel : nat) (this : Catalog.YampiSkuMap) (r : Catalog.run),
      Catalog.hydrateOnce fetch this_alias opts fuel this = Some r ->
      forall k : string,
        is_Some (Catalog.map this !! k) -> is_Some (Catalog.run_map r !! k))
  /\ (forall (fuel : nat) (page total : Z) (m : gmap string Js.number)
             (reqs : list string) (r : Catalog.run),
        Catalog.hydrateLoop fetch this_alias opts fuel page total m reqs
          = Some r ->
        forall k : string,
          is_Some (m !! k) -> is_Some (Catalog.run_map r !! k))
  /\ (forall (fuel : nat) (page total : Z) (m : gmap string Js.number)
             (reqs : list string) (resp : Js.jsval) (ps : list Js.jsval),
        let path := Catalog.page_path this_alias (Catalog.limit opts) page in
        let st := fold_left Catalog.hydrateProduct ps (m, total) in
        Catalog.yampiGet fetch path = Js.Return resp ->
        Catalog.iterate (Js.or_else (Js.get resp "data") (Js.VArr []))
          = Js.Return ps ->
        (forall k : string, is_Some (m !! k) -> is_Some (st.1 !! k))
        /\ (Catalog.hydrateLoop fetch this_alias opts (S fuel) page total m reqs
            = Some (Catalog.Build_run st.1 (reqs ++ [path]) (Js.Return st.2))
            \/ Catalog.hydrateLoop fetch this_alias opts (S fuel) page total m reqs
               = Catalog.hydrateLoop fetch this_alias opts fuel (page + 1)
                   st.2 st.1 (reqs ++ [path])))
  /\ (forall (fuel : nat) (page total : Z) (m : gmap string Js.number)
             (reqs : list string) (msg : string),
        let path := Catalog.page_path this_alias (Catalog.limit opts) page in
        Catalog.yampiGet fetch path = Js.Throw msg ->
        Catalog.hydrateLoop fetch this_alias opts (S fuel) page total m reqs
        = Some (Catalog.Build_run m (reqs ++ [path]) (Js.Throw msg))).
Proof.
  split; [|split; [|split]].
  - intros fuel this r Hr. by eapply hydrateLoop_keeps.
  - intros fuel page total m reqs r Hr. by eapply hydrateLoop_keeps.
  - intros fuel page total m reqs resp ps path st Hget Hit. split.
    + intros k. apply (fold_hydrateProduct_keeps ps (m, total) k).
    + rewrite hydrateLoop_step. cbv zeta. fold path.
      rewrite Hget, Hit. fold st.
      destruct (_ || _); auto.
  - intros fuel page total m reqs msg path Hget.
    rewrite hydrateLoop_step. cbv zeta. fold path. by rewrite Hget.
Qed.

(** The scenario of the specification: page 2 of 3 fails, the call raises
    and the entry written from page 1 is still found. *)
Example page_two_of_three_fails :
  exists r : Catalog.run,
    Catalog.hydrateOnce Sample.fetch_page2_fails (Some "loja")
      Catalog.default_options 1000 (Catalog.new_YampiSkuMap (Some "loja"))
    = Some r
    /\ Catalog.run_result r = Js.Throw "[Yampi GET 500] boom"
    /\ length (Catalog.run_requests r) = 2%nat
    /\ Catalog.getId
         (Catalog.with_map (Catalog.new_YampiSkuMap (Some "loja"))
            (Catalog.run_map r)) (Js.VStr "abc-1") = Some (Js.Num 42).
Proof. eexists. split; [by vm_compute|]. by vm_compute. Qed.

(** C6, refuted as stated. The loop requests a page before it looks at
    the cap: called with [maxPages] 0, [hydrateOnce] issues one request,
    which is more than [maxPages]. *)
Lemma zero_cap_still_requests_a_page :
  exists r : Catalog.run,
    Catalog.hydrateOnce Sample.fetch_one_page (Some "loja") Sample.zero_cap
      1000 (Catalog.new_YampiSkuMap (Some "loja")) = Some r
    /\ Catalog.run_requests r
       = ["/loja/catalog/products?include=skus&limit=100&page=1"]
    /\ Catalog.run_result r = Js.Return 1
    /\ ~ (Z.of_nat (length (Catalog.run_requests r))
          <= Catalog.maxPages Sample.zero_cap).
Proof.
  eexists. split; [by vm_compute|]. repeat split; by vm_compute.
Qed.

(** C6, amended. Whatever the upstream answers and whatever the cap,
    [hydrateOnce] completes (by a return or a raise) within
    [max(1, maxPages)] iterations of its loop and issues at least one and
    at most [max(1, maxPages)] page requests, which is at most [maxPages]
    when the cap is at least one page; further fuel changes nothing.
    After a page that was read, the loop stops as soon as the page has no
    items, or the page number has reached the reported total, or the cap
    is reached. *)
Theorem hydration_terminates_within_cap_or_one_page
    (fetch : string -> Http.fetch_result) (this_alias : option string)
    (opts : Catalog.hydrate_options) (this : Catalog.YampiSkuMap) :
  (exists r : Catalog.run,
      (forall fuel : nat,
          (Z.to_nat (Z.max 1 (Catalog.maxPages opts)) <= fuel)%nat ->
          Catalog.hydrateOnce fetch this_alias opts fuel this = Some r)
      /\ (1 <= length (Catalog.run_requests r))%nat
      /\ Z.of_nat (length (Catalog.run_requests r))
         <= Z.max 1 (Catalog.maxPages opts)
      /\ (1 <= Catalog.maxPages opts ->
          (length (Catalog.run_requests r)
           <= Z.to_nat (Catalog.maxPages opts))%nat))
  /\ (forall (fuel : nat) (page total : Z) (m : gmap string Js.number)
             (reqs : list string) (resp : Js.jsval) (ps : list Js.jsval),
        let path := Catalog.page_path this_alias (Catalog.limit opts) page in
        let st := fold_left Catalog.hydrateProduct ps (m, total) in
        let totalPages :=
          Js.ToNumber
            (Js.or_else
               (Js.get (Js.get (Js.get resp "meta") "pagination") "total_pages")
               (Js.VNum (Js.Num page))) in
        Catalog.yampiGet fetch path = Js.Return resp ->
        Catalog.iterate (Js.or_else (Js.get resp "data") (Js.VArr []))
          = Js.Return ps ->
        (ps = []
         \/ Js.num_ge (Js.Num page) totalPages = true
         \/ Catalog.maxPages opts <= page - Catalog.pageStart opts + 1) ->
        Catalog.hydrateLoop fetch this_alias opts (S fuel) page total m reqs
        = Some (Catalog.Build_run st.1 (reqs ++ [path]) (Js.Return st.2))).
Proof.
  split.
  - destruct (hydrateOnce_completes fetch this_alias opts this)
      as (r & Hr & Hone & Hlen).
    exists r. split; [exact Hr|]. split; [exact Hone|].
    split; [exact Hlen|]. lia.
  - intros fuel page total m reqs resp ps path st totalPages Hget Hit Hstop.
    rewrite hydrateLoop_step. cbv zeta. fold path.
    rewrite Hget, Hit. fold st totalPages.
    assert (((length ps =? 0)%nat
             || Js.num_ge (Js.Num page) totalPages
             || (Catalog.maxPages opts <=? page - Catalog.pageStart opts + 1))
            = true) as ->; [|done].
    destruct Hstop as [-> | [-> | H]]; [done|by rewrite orb_true_r|].
    apply Z.leb_le in H. rewrite H. by rewrite orb_true_r.
Qed.


(** ** Quote cache *)

Section QuoteCache.
Import Js Proxy.

Lemma getFromCache_after_setCache (ttl now now' : Z) (key : string)
    (d : jsval) (cache : gmap string cache_entry) :
  ServerA.getFromCache ttl now' key (ServerA.setCache now key d cache) =
    if ttl <? now' - now
    then (VNull, delete key (ServerA.setCache now key d cache))
    else (d, ServerA.setCache now key d cache).
Proof.
  unfold ServerA.getFromCache, ServerA.setCache.
  by rewrite lookup_insert_eq.
Qed.

Lemma cache_hit_after_insert (ttl now now' : Z) (key : string) (d : jsval)
    (cache : gmap string cache_entry) :
  Server.cache_hit ttl now' key
    (<[key := {| stored_at := now; data := d |}]> cache) =
    if now' - now <? ttl then Some {| stored_at := now; data := d |}
    else None.
Proof. unfold Server.cache_hit. by rewrite lookup_insert_eq. Qed.

(** The round trip as the specification states it holds for the inline
    test of [server.js]. *)
Lemma cache_hit_round_trip (ttl now now' : Z) (key : string) (d : jsval)
    (cache : gmap string cache_entry) :
  let cache' := <[key := {| stored_at := now; data := d |}]> cache in
  (now' - now < ttl ->
     data <$> Server.cache_hit ttl now' key cache' = Some d)
  /\ (ttl <= now' - now -> Server.cache_hit ttl now' key cache' = None).
Proof.
  intros cache'. subst cache'. rewrite cache_hit_after_insert.
  split; intros H.
  - apply Z.ltb_lt in H. by rewrite H.
  - apply Z.ltb_ge in H. by rewrite H.
Qed.

(** [getFromCache] agrees with it on both sides of the boundary. *)
Lemma getFromCache_round_trip (ttl now now' : Z) (key : string) (d : jsval)
    (cache : gmap string cache_entry) :
  let cache' := ServerA.setCache now key d cache in
  (now' - now < ttl -> ServerA.getFromCache ttl now' key cache' = (d, cache'))
  /\ (ttl < now' - now ->
        ServerA.getFromCache ttl now' key cache' = (VNull, delete key cache')).
Proof.
  intros cache'. subst cache'. rewrite getFromCache_after_setCache.
  split; intros H.
  - assert ((ttl <? now' - now) = false) as -> by (apply Z.ltb_ge; lia). done.
  - apply Z.ltb_lt in H. by rewrite H.
Qed.

End QuoteCache.

(** C2, at the boundary. An entry whose age equals the TTL is not younger
    than the TTL, yet [getFromCache] still returns its payload and keeps
    it in the mapping: with a TTL of 300000, [setCache] at time 0 and
    [getFromCache] at time 300000 give the payload back. The inline test
    of [server.js] reports a miss at that same instant. *)
Theorem getFromCache_serves_entry_aged_ttl :
  (forall (ttl now : Z) (key : string) (d : Js.jsval)
          (cache : gmap string Proxy.cache_entry),
      ServerA.getFromCache ttl (now + ttl) key
        (ServerA.setCache now key d cache)
      = (d, ServerA.setCache now key d cache))
  /\ ServerA.getFromCache 300000 300000 "k"
       (ServerA.setCache 0 "k" (Js.VStr "quote") ∅)
     = (Js.VStr "quote", ServerA.setCache 0 "k" (Js.VStr "quote") ∅)
  /\ (forall (ttl now : Z) (key : string) (d : Js.jsval)
             (cache : gmap string Proxy.cache_entry),
        Server.cache_hit ttl (now + ttl) key
          (<[key := {| Proxy.stored_at := now; Proxy.data := d |}]> cache)
        = None).
Proof.
  split; [|split].
  - intros. rewrite getFromCache_after_setCache.
    assert ((ttl <? now + ttl - now) = false) as -> by (apply Z.ltb_ge; lia).
    done.
  - by vm_compute.
  - intros. rewrite cache_hit_after_insert.
    assert ((now + ttl - now <? ttl) = false) as -> by (apply Z.ltb_ge; lia).
    done.
Qed.

(** ** The request handler *)

Section Handlers.
Import Js Http Catalog Yampi Proxy.

Lemma verified_passes (env : process_env) (req : request) :
  Spec.verified env req ->
  signature_check_enabled env
  && negb (VerifyProxy.verifyShopifyProxy (Some (query req))
             (SHOPIFY_API_SECRET env)) = false.
Proof. intros [-> | ->]; [done|]. by rewrite andb_false_r. Qed.

Lemma resolveIds_app (skuMap : YampiSkuMap) (pre rest : list jsval)
    (ids : list number) :
  resolveIds skuMap (pre ++ rest) ids =
    match resolveIds skuMap pre ids with
    | inl ids' => resolveIds skuMap rest ids'
    | inr s => inr s
    end.
Proof.
  revert ids. induction pre as [|s pre IH]; intros ids; simpl; [done|].
  destruct (all_digits _); [apply IH|].
  destruct (getId skuMap s) as [id|]; [|done].
  destruct (number_truthy id); [apply IH|done].
Qed.

Lemma resolveIds_length (skuMap : YampiSkuMap) (l : list jsval) :
  forall ids ids' : list number,
    resolveIds skuMap l ids = inl ids' ->
    length ids' = (length ids + length l)%nat.
Proof.
  induction l as [|s l IH]; intros ids ids' H; simpl in *.
  - injection H as <-. lia.
  - destruct (all_digits _).
    + apply IH in H. rewrite length_app in H. simpl in H. lia.
    + destruct (getId skuMap s) as [id|]; [|done].
      destruct (number_truthy id); [|done].
      apply IH in H. rewrite length_app in H. simpl in H. lia.
Qed.

End Handlers.

(** C7, refuted as stated. Where signatures are checked, a request that
    carries no signature and a postal code of seven digits is answered
    401, not 400: the signature step comes before the postal code is
    read. *)
Lemma unsigned_short_cep_is_401 :
  let a := ServerA.handler Sample.env_signed Sample.skuMap_zero
             Sample.post_unavailable 0 1 Sample.req_short_cep ∅ in
  let b := Server.handler Sample.env_signed Sample.skuMap_zero
             Sample.post_unavailable 0 1 Sample.req_short_cep ∅ in
  String.length (Proxy.in_cep (Proxy.read_inputs Sample.req_short_cep))
    = 7%nat
  /\ Proxy.out_reply a = Proxy.error_reply 401 "Invalid proxy signature"
  /\ Proxy.out_reply b = Proxy.error_reply 401 "Invalid proxy signature"
  /\ Proxy.status (Proxy.out_reply a) <> 400
  /\ Proxy.status (Proxy.out_reply b) <> 400.
Proof. cbv zeta. repeat split; by vm_compute. Qed.

(** C7, amended. A request whose postal code does not keep exactly eight
    digits once its non-digits are stripped causes no upstream call and
    leaves the quote cache as it was, in both revisions of the handler;
    past the signature step (the request is verified) the reply is 400
    "CEP inválido", and a request stopped at the signature step is
    answered 401 before its postal code is read. *)
Theorem invalid_postal_code_rejected
    (env : Proxy.process_env) (skuMap : Catalog.YampiSkuMap)
    (post : string -> Yampi.quote_body -> Http.fetch_result)
    (now_get now_set : Z) (req : Proxy.request)
    (quoteCache : gmap string Proxy.cache_entry) :
  String.length
    (Js.strip_non_digits
       (Js.ToString (Js.or_else (Proxy.param req "cep") (Js.VStr EmptyString))))
    <> 8%nat ->
  let a := ServerA.handler env skuMap post now_get now_set req quoteCache in
  let b := Server.handler env skuMap post now_get now_set req quoteCache in
  (Proxy.out_posts a = [] /\ Proxy.out_cache a = quoteCache
   /\ Proxy.out_posts b = [] /\ Proxy.out_cache b = quoteCache)
  /\ (Spec.verified env req ->
      Proxy.out_reply a = Proxy.error_reply 400 "CEP inválido"
      /\ Proxy.out_reply b = Proxy.error_reply 400 "CEP inválido")
  /\ (~ Spec.verified env req ->
      Proxy.out_reply a = Proxy.error_reply 401 "Invalid proxy signature"
      /\ Proxy.out_reply b = Proxy.error_reply 401 "Invalid proxy signature").
Proof.
  intros Hcep a b. subst a b.
  unfold ServerA.handler, Server.handler.
  assert (negb (String.length (Proxy.in_cep (Proxy.read_inputs req)) =? 8)%nat
          = true) as ->
    by (apply negb_true_iff, Nat.eqb_neq; exact Hcep).
  destruct (Proxy.signature_check_enabled env
            && negb (VerifyProxy.verifyShopifyProxy (Some (Proxy.query req))
                       (Proxy.SHOPIFY_API_SECRET env))) eqn:Hsig.
  - split; [done|]. split; [|done].
    intros Hver. by rewrite (verified_passes env req Hver) in Hsig.
  - split; [done|]. split; [done|].
    intros Hnot. exfalso. apply Hnot. unfold Spec.verified.
    apply andb_false_iff in Hsig as [H|H]; [by left|right].
    by apply negb_false_iff.
Qed.

Lemma invalid_postal_code_rejected_witness :
  let a := ServerA.handler Sample.env_unsigned Sample.skuMap_zero
             Sample.post_unavailable 0 1 Sample.req_short_cep ∅ in
  let b := Server.handler Sample.env_unsigned Sample.skuMap_zero
             Sample.post_unavailable 0 1 Sample.req_short_cep ∅ in
  (Proxy.out_posts a = [] /\ Proxy.out_cache a = ∅
   /\ Proxy.out_posts b = [] /\ Proxy.out_cache b = ∅)
  /\ Proxy.out_reply a = Proxy.error_reply 400 "CEP inválido"
  /\ Proxy.out_reply b = Proxy.error_reply 400 "CEP inválido".
Proof.
  destruct (invalid_postal_code_rejected Sample.env_unsigned Sample.skuMap_zero
              Sample.post_unavailable 0 1 Sample.req_short_cep ∅)
    as (Hquiet & Hverified & _).
  - vm_compute. lia.
  - split; [exact Hquiet|]. apply Hverified. left. reflexivity.
Defined.

(** C10. At the resolution step of a request that passed the earlier
    steps, a non-numeric item code whose lookup gives the identifier 0 is
    rejected exactly as one whose lookup is absent: both revisions answer
    400 with the message naming the code, call nothing upstream and leave
    the quote cache as it was. *)
Theorem zero_identifier_is_unmapped
    (env : Proxy.process_env) (skuMap : Catalog.YampiSkuMap)
    (post : string -> Yampi.quote_body -> Http.fetch_result)
    (now_get now_set : Z) (req : Proxy.request)
    (quoteCache : gmap string Proxy.cache_entry)
    (pre rest : list Js.jsval) (s : Js.jsval) (ids : list Js.number) :
  let i := Proxy.read_inputs req in
  Spec.verified env req ->
  String.length (Proxy.in_cep i) = 8%nat ->
  Proxy.in_skusArr i = pre ++ s :: rest ->
  length (Proxy.in_skusArr i) = length (Proxy.in_qtyArr i) ->
  Proxy.resolveIds skuMap pre [] = inl ids ->
  Js.all_digits (Js.ToString s) = false ->
  Catalog.getId skuMap s = Some (Js.Num 0) \/ Catalog.getId skuMap s = None ->
  let rejected :=
    {| Proxy.out_reply :=
         Proxy.error_reply 400 ("SKU sem ID cadastrado na Yampi: " +:+ Js.ToString s);
       Proxy.out_cache := quoteCache;
       Proxy.out_posts := [] |} in
  ServerA.handler env skuMap post now_get now_set req quoteCache = rejected
  /\ Server.handler env skuMap post now_get now_set req quoteCache = rejected.
Proof.
  intros i Hver Hcep Hsplit Hlen Hpre Hnum Hid rejected.
  assert (Hres : Proxy.resolveIds skuMap (Proxy.in_skusArr i) [] = inr s).
  { rewrite Hsplit, resolveIds_app, Hpre. simpl. rewrite Hnum.
    by destruct Hid as [-> | ->]. }
  assert (Hitems :
    (length (Proxy.in_skusArr i) =? 0)%nat
    || negb (length (Proxy.in_skusArr i) =? length (Proxy.in_qtyArr i))%nat
    = false).
  { rewrite <- Hlen, Nat.eqb_refl, orb_false_r. apply Nat.eqb_neq.
    rewrite Hsplit, length_app. simpl. lia. }
  unfold ServerA.handler, Server.handler. fold i.
  by rewrite (verified_passes env req Hver), Hcep, Hitems, Hres.
Qed.

Lemma zero_identifier_is_unmapped_witness :
  let rejected :=
    {| Proxy.out_reply :=
         Proxy.error_reply 400 "SKU sem ID cadastrado na Yampi: ZERO";
       Proxy.out_cache := ∅;
       Proxy.out_posts := [] |} in
  ServerA.handler Sample.env_unsigned Sample.skuMap_zero
    Sample.post_unavailable 0 1 Sample.req_zero ∅ = rejected
  /\ Server.handler Sample.env_unsigned Sample.skuMap_zero
       Sample.post_unavailable 0 1 Sample.req_zero ∅ = rejected.
Proof.
  apply (zero_identifier_is_unmapped Sample.env_unsigned Sample.skuMap_zero
           Sample.post_unavailable 0 1 Sample.req_zero ∅
           [] [] (Js.VStr "ZERO") []).
  - left. reflexivity.
  - vm_compute. reflexivity.
  - vm_compute. reflexivity.
  - vm_compute. reflexivity.
  - reflexivity.
  - vm_compute. reflexivity.
  - left. vm_compute. reflexivity.
Defined.

(** C4, refuted as stated. A verified request for one numeric item misses
    the empty cache, the quote API answers 503, and both revisions reply
    with status 500, not 502. *)
Lemma upstream_failure_status_is_not_502 :
  let a := ServerA.handler Sample.env_unsigned Sample.skuMap_zero
             Sample.post_unavailable 0 1 Sample.req_quote ∅ in
  let b := Server.handler Sample.env_unsigned Sample.skuMap_zero
             Sample.post_unavailable 0 1 Sample.req_quote ∅ in
  length (Proxy.out_posts a) = 1%nat
  /\ length (Proxy.out_posts b) = 1%nat
  /\ Proxy.out_reply a
     = Proxy.error_reply 500 "Yampi 503: Service Unavailable"
  /\ Proxy.out_reply b
     = Proxy.error_reply 500 "Yampi 503: Service Unavailable"
  /\ Proxy.status (Proxy.out_reply a) <> 502
  /\ Proxy.status (Proxy.out_reply b) <> 502.
Proof. cbv zeta. repeat split; by vm_compute. Qed.

(** C4, amended. When a verified, well-formed request whose items all
    resolve misses the cache and the quote API answers with a non-success
    status, the handler replies with status 500 and the error message
    "Yampi <status>: <body>"; it has called upstream once and has stored
    nothing in the cache. *)
Theorem upstream_failure_replies_500
    (env : Proxy.process_env) (skuMap : Catalog.YampiSkuMap)
    (post : string -> Yampi.quote_body -> Http.fetch_result)
    (now_get now_set : Z) (req : Proxy.request)
    (quoteCache : gmap string Proxy.cache_entry)
    (ids : list Js.number) (code : Z) (text : string)
    (js : Js.completion Js.jsval) :
  let i := Proxy.read_inputs req in
  let key := Proxy.cacheKey (Proxy.in_cep i) ids (Proxy.in_qtyArr i)
               (Proxy.in_total i) in
  let sent := (Yampi.calcularFreteYampi post (Proxy.quote_call env i ids)).1 in
  let failure :=
    Proxy.error_reply 500 ("Yampi " +:+ pretty code +:+ ": " +:+ text) in
  Spec.verified env req ->
  String.length (Proxy.in_cep i) = 8%nat ->
  Proxy.in_skusArr i <> [] ->
  length (Proxy.in_skusArr i) = length (Proxy.in_qtyArr i) ->
  Proxy.resolveIds skuMap (Proxy.in_skusArr i) [] = inl ids ->
  post sent.1 sent.2 = Http.Response code text js ->
  Http.ok code = false ->
  (Js.truthy (ServerA.getFromCache (Proxy.TTL env) now_get key quoteCache).1
     = false ->
   ServerA.handler env skuMap post now_get now_set req quoteCache
   = {| Proxy.out_reply := failure;
        Proxy.out_cache :=
          (ServerA.getFromCache (Proxy.TTL env) now_get key quoteCache).2;
        Proxy.out_posts := [sent] |}
   /\ forall k : string,
        (ServerA.getFromCache (Proxy.TTL env) now_get key quoteCache).2 !! k
        = None
        \/ (ServerA.getFromCache (Proxy.TTL env) now_get key quoteCache).2 !! k
           = quoteCache !! k)
  /\ (Server.cache_hit (Proxy.TTL env) now_get key quoteCache = None ->
      Server.handler env skuMap post now_get now_set req quoteCache
      = {| Proxy.out_reply := failure;
           Proxy.out_cache := quoteCache;
           Proxy.out_posts := [sent] |}).
Proof.
  intros i key sent failure Hver Hcep Hne Hlen Hres Hpost Hok.
  assert (Hitems :
    (length (Proxy.in_skusArr i) =? 0)%nat
    || negb (length (Proxy.in_skusArr i) =? length (Proxy.in_qtyArr i))%nat
    = false).
  { rewrite <- Hlen, Nat.eqb_refl, orb_false_r. apply Nat.eqb_neq.
    by destruct (Proxy.in_skusArr i). }
  assert (Hcall : Yampi.calcularFreteYampi post (Proxy.quote_call env i ids)
                  = (sent, Js.Throw ("Yampi " +:+ pretty code +:+ ": " +:+ text))).
  { subst sent. unfold Yampi.calcularFreteYampi in *. cbn [fst snd] in *.
    by rewrite Hpost, Hok. }
  split.
  - intros Hmiss. split.
    + unfold ServerA.handler. fold i.
      rewrite (verified_passes env req Hver), Hcep, Hitems, Hres.
      cbn [Nat.eqb negb]. unfold ServerA.makeCacheKey. fold key.
      destruct (ServerA.getFromCache _ _ _ _) as [cached cache1].
      cbn [fst snd] in *. by rewrite Hmiss, Hcall.
    + intros k. unfold ServerA.getFromCache.
      destruct (quoteCache !! key) as [item|]; [|by right].
      destruct (_ <? _); cbn [snd]; [|by right].
      rewrite lookup_delete. case_decide; auto.
  - intros Hmiss. unfold Server.handler. fold i.
    rewrite (verified_passes env req Hver), Hcep, Hitems, Hres.
    cbn [Nat.eqb negb]. fold key. by rewrite Hmiss, Hcall.
Qed.

Lemma upstream_failure_replies_500_witness :
  let sent := ("https://api.dooki.com.br/v2/loja/logistics/shipping-costs",
               {| Yampi.zipcode := "01001000"; Yampi.total := None;
                  Yampi.origin := "cart_drawer"; Yampi.utm_email := None;
                  Yampi.skus_ids := [Js.Num 99];
                  Yampi.quantities := [Js.Num 1];
                  Yampi.order_id := Some (Js.Num 129339217) |}) in
  let failure :=
    Proxy.error_reply 500 "Yampi 503: Service Unavailable" in
  Server.handler Sample.env_unsigned Sample.skuMap_zero
    Sample.post_unavailable 0 1 Sample.req_quote ∅
  = {| Proxy.out_reply := failure; Proxy.out_cache := ∅;
       Proxy.out_posts := [sent] |}.
Proof.
  refine (proj2 (upstream_failure_replies_500 Sample.env_unsigned
                   Sample.skuMap_zero Sample.post_unavailable 0 1
                   Sample.req_quote ∅ [Js.Num 99] 503 "Service Unavailable"
                   (Js.Throw "invalid json") _ _ _ _ _ _ _) _).
  - left. reflexivity.
  - vm_compute. reflexivity.
  - vm_compute. discriminate.
  - vm_compute. reflexivity.
  - vm_compute. reflexivity.
  - reflexivity.
  - reflexivity.
  - vm_compute. reflexivity.
Defined.

(** Scenario 1 of the specification: "SKU1" resolves through the catalog,
    "99" is used as it is, and the identifiers go upstream in order. *)
Example scenario_1_resolves_and_calls :
  let out := Server.handler Sample.env_unsigned Sample.skuMap_sku1
               Sample.post_ok 0 1 Sample.req_scenario1 ∅ in
  Proxy.status (Proxy.out_reply out) = 200
  /\ List.map (fun p => (Yampi.zipcode p.2, Yampi.skus_ids p.2,
                         Yampi.quantities p.2))
       (Proxy.out_posts out)
     = [("01001000", [Js.Num 501; Js.Num 99], [Js.Num 2; Js.Num 1])]
  /\ Server.cache_hit 300000 299999
       (Proxy.cacheKey "01001000" [Js.Num 501; Js.Num 99]
          [Js.Num 2; Js.Num 1] None)
       (Proxy.out_cache out)
     = Some {| Proxy.stored_at := 1;
               Proxy.data := Js.VArr [Js.VNum (Js.Num 1990)] |}.
Proof. cbv zeta. repeat split; by vm_compute. Qed.

(** * Further properties of the code *)

(** ** Strings *)

Section Strings.
Import Js.

Lemma trimEnd_idemp (s : string) : trimEnd (trimEnd s) = trimEnd s.
Proof.
  induction s as [|c r IH]; simpl; [done|].
  destruct (trimEnd r) as [|d t] eqn:E.
  - destruct (is_space c) eqn:Hc; simpl; [done|]. by rewrite Hc.
  - simpl in *. by rewrite IH.
Qed.

Lemma trimStart_head (s : string) :
  match trimStart s with
  | EmptyString => True
  | String c _ => is_space c = false
  end.
Proof.
  induction s as [|c r IH]; simpl; [done|].
  destruct (is_space c) eqn:Hc; [done|]. simpl. done.
Qed.

Lemma trimEnd_head (c : ascii) (r : string) :
  is_space c = false -> exists r', trimEnd (String c r) = String c r'.
Proof.
  intros Hc. simpl. destruct (trimEnd r); rewrite ?Hc; eauto.
Qed.

Lemma trim_head (s : string) :
  match trim s with
  | EmptyString => True
  | String c _ => is_space c = false
  end.
Proof.
  unfold trim. pose proof (trimStart_head s) as H.
  destruct (trimStart s) as [|c r]; [done|].
  destruct (trimEnd_head c r H) as [r' ->]. done.
Qed.

Lemma trim_idemp (s : string) : trim (trim s) = trim s.
Proof.
  pose proof (trim_head s) as H. unfold trim at 1.
  destruct (trim s) as [|c r] eqn:E; [done|].
  cbn [trimStart]. rewrite H, <- E. unfold trim. apply trimEnd_idemp.
Qed.

Lemma strip_non_digits_digits (s : string) :
  sforall is_digit (strip_non_digits s) = true.
Proof.
  unfold strip_non_digits.
  induction s as [|c r IH]; simpl; [done|].
  destruct (is_digit c) eqn:Hc; simpl; [by rewrite Hc|done].
Qed.

End Strings.

(** X1. A catalog lookup ignores the white space around its argument:
    whenever the trimmed argument is not empty, looking up the argument
    and looking up its trimmed form give the same result. A lookup of a
    falsy value (undefined, null, false, 0, NaN, the empty string) is
    absent whatever the catalog holds, even an entry under the empty
    key. *)
Theorem getId_ignores_surrounding_space (this : Catalog.YampiSkuMap) :
  (forall s : string,
      Js.trim s <> EmptyString ->
      Catalog.getId this (Js.VStr s) = Catalog.getId this (Js.VStr (Js.trim s)))
  /\ (forall v : Js.jsval, Js.truthy v = false -> Catalog.getId this v = None).
Proof.
  split.
  - intros s Hs. unfold Catalog.getId. cbn [Js.ToString].
    rewrite trim_idemp.
    destruct s as [|c r]; [done|].
    by destruct (Js.trim (String c r)).
  - intros v Hv. unfold Catalog.getId. by rewrite Hv.
Qed.

(** ** Hydration: pages requested, prior content, repeated runs *)

Section HydrationMore.
Import Js Http Catalog CatalogFacts.

Variable fetch : string -> fetch_result.
Variable this_alias : option string.
Variable opts : hydrate_options.

Lemma pages_from_S (page : Z) (n : nat) :
  pages_from this_alias opts page (S n)
  = page_path this_alias (limit opts) page :: pages_from this_alias opts (page + 1) n.
Proof.
  unfold pages_from. cbn [seq List.map]. rewrite Z.add_0_r. f_equal.
  rewrite <- seq_shift, List.map_map. apply List.map_ext. intros i.
  f_equal. lia.
Qed.

Lemma hydrateLoop_requests (fuel : nat) :
  forall (page total : Z) (m : gmap string number) (reqs : list string)
         (r : run),
    hydrateLoop fetch this_alias opts fuel page total m reqs = Some r ->
    exists n : nat,
      (1 <= n)%nat /\ run_requests r = reqs ++ pages_from this_alias opts page n.
Proof.
  induction fuel as [|fuel IH]; intros page total m reqs r Hr; [done|].
  rewrite hydrateLoop_step in Hr. cbv zeta in Hr.
  assert (Hone : reqs ++ [page_path this_alias (limit opts) page]
                 = reqs ++ pages_from this_alias opts page 1).
  { by rewrite pages_from_S. }
  destruct (yampiGet _ _) as [resp|msg];
    [|exists 1%nat; injection Hr as <-; by split].
  destruct (iterate _) as [ps|msg];
    [|exists 1%nat; injection Hr as <-; by split].
  destruct (_ || _); [exists 1%nat; injection Hr as <-; by split|].
  apply IH in Hr as (n & Hn & ->).
  exists (S n). split; [lia|]. by rewrite pages_from_S, <- app_assoc.
Qed.

Lemma hydrateSku_union (w m : gmap string number) (n : Z) (s : jsval) :
  hydrateSku (w ∪ m, n) s
  = ((hydrateSku (w, n) s).1 ∪ m, (hydrateSku (w, n) s).2).
Proof.
  unfold hydrateSku. destruct (_ && _); [|done]. cbn [fst snd].
  by rewrite !insert_union_l.
Qed.

Lemma fold_hydrateSku_union (l : list jsval) :
  forall (w m : gmap string number) (n : Z),
    fold_left hydrateSku l (w ∪ m, n)
    = ((fold_left hydrateSku l (w, n)).1 ∪ m,
       (fold_left hydrateSku l (w, n)).2).
Proof.
  induction l as [|s l IH]; intros w m n; [done|]. cbn [fold_left].
  rewrite hydrateSku_union, IH. by destruct (hydrateSku (w, n) s).
Qed.

Lemma hydrateProduct_union (w m : gmap string number) (n : Z) (p : jsval) :
  hydrateProduct (w ∪ m, n) p
  = ((hydrateProduct (w, n) p).1 ∪ m, (hydrateProduct (w, n) p).2).
Proof.
  unfold hydrateProduct. destruct (or_else _ _); try done.
  apply fold_hydrateSku_union.
Qed.

Lemma fold_hydrateProduct_union (ps : list jsval) :
  forall (w m : gmap string number) (n : Z),
    fold_left hydrateProduct ps (w ∪ m, n)
    = ((fold_left hydrateProduct ps (w, n)).1 ∪ m,
       (fold_left hydrateProduct ps (w, n)).2).
Proof.
  induction ps as [|p ps IH]; intros w m n; [done|]. cbn [fold_left].
  rewrite hydrateProduct_union, IH. by destruct (hydrateProduct (w, n) p).
Qed.

Lemma hydrateLoop_union (fuel : nat) :
  forall (page total : Z) (w m : gmap string number) (reqs : list string),
    hydrateLoop fetch this_alias opts fuel page total (w ∪ m) reqs
    = over m <$> hydrateLoop fetch this_alias opts fuel page total w reqs.
Proof.
  induction fuel as [|fuel IH]; intros page total w m reqs; [done|].
  rewrite !hydrateLoop_step. cbv zeta.
  destruct (yampiGet _ _) as [resp|msg]; [|done].
  destruct (iterate _) as [ps|msg]; [|done].
  rewrite fold_hydrateProduct_union. cbn [fst snd].
  destruct (_ || _); [done|]. apply IH.
Qed.

End HydrationMore.

(** X2. A hydration that completes has requested the pages [pageStart],
    [pageStart + 1], ... in that order, each exactly once and nothing
    else: at least one page, and no more than the cap allows. *)
Theorem hydration_requests_consecutive_pages
    (fetch : string -> Http.fetch_result) (this_alias : option string)
    (opts : Catalog.hydrate_options) (fuel : nat)
    (this : Catalog.YampiSkuMap) (r : Catalog.run) :
  Catalog.hydrateOnce fetch this_alias opts fuel this = Some r ->
  exists n : nat,
    (1 <= n)%nat
    /\ Z.of_nat n <= Z.max 1 (Catalog.maxPages opts)
    /\ Catalog.run_requests r
       = CatalogFacts.pages_from this_alias opts (Catalog.pageStart opts) n.
Proof.
  intros Hr. unfold Catalog.hydrateOnce in Hr.
  destruct (hydrateLoop_requests fetch this_alias opts fuel _ _ _ _ _ Hr)
    as (n & Hn & Hreq).
  exists n. split; [done|]. split; [|done].
  destruct (hydrateLoop_bounded fetch this_alias opts
              (fuel + Z.to_nat (Catalog.allowance opts (Catalog.pageStart opts)))
              (Catalog.pageStart opts) 0 (Catalog.map this) [])
    as (r' & Hr' & Hlen); [lia|].
  assert (Hle : (fuel <= fuel + Z.to_nat (Catalog.allowance opts
                                            (Catalog.pageStart opts)))%nat)
    by lia.
  rewrite (hydrateLoop_fuel_le fetch this_alias opts _ _ _ _ _ _ r Hle Hr)
    in Hr'.
  injection Hr' as <-. rewrite Hreq in Hlen.
  unfold CatalogFacts.pages_from, Catalog.allowance in Hlen.
  rewrite length_app, length_map, length_seq in Hlen. simpl in Hlen. lia.
Qed.

Lemma hydration_requests_consecutive_pages_witness :
  exists r : Catalog.run,
    Catalog.hydrateOnce Sample.fetch_page2_fails (Some "loja")
      Catalog.default_options 5 (Catalog.new_YampiSkuMap (Some "loja"))
    = Some r
    /\ exists n : nat,
        (1 <= n)%nat /\ Z.of_nat n <= Z.max 1 1000
        /\ Catalog.run_requests r
           = CatalogFacts.pages_from (Some "loja") Catalog.default_options 1 n.
Proof.
  eexists. split; [vm_compute; reflexivity|].
  apply (hydration_requests_consecutive_pages Sample.fetch_page2_fails
           (Some "loja") Catalog.default_options 5
           (Catalog.new_YampiSkuMap (Some "loja"))).
  vm_compute. reflexivity.
Defined.

(** X3. What a hydration requests and how it completes does not depend on
    what the catalog held, and the mapping it leaves is the entries it
    wrote laid over the prior mapping: a hydrated code overrides an older
    entry under the same key and every other entry stays as it was. *)
Theorem hydration_lays_entries_over_prior_content
    (fetch : string -> Http.fetch_result) (this_alias : option string)
    (opts : Catalog.hydrate_options) (fuel : nat)
    (this : Catalog.YampiSkuMap) :
  Catalog.hydrateOnce fetch this_alias opts fuel this
  = CatalogFacts.over (Catalog.map this)
      <$> Catalog.hydrateOnce fetch this_alias opts fuel
            (Catalog.with_map this ∅).
Proof.
  unfold Catalog.hydrateOnce. cbn [Catalog.map Catalog.with_map].
  rewrite <- (hydrateLoop_union fetch this_alias opts fuel).
  by rewrite (left_id_L ∅ (∪)).
Qed.

(** X4. Hydration is idempotent: run again from the catalog it left,
    against the same upstream, it makes the same requests, completes the
    same way and leaves the same mapping. *)
Theorem hydration_twice_is_hydration_once
    (fetch : string -> Http.fetch_result) (this_alias : option string)
    (opts : Catalog.hydrate_options) (fuel : nat)
    (this : Catalog.YampiSkuMap) (r : Catalog.run) :
  Catalog.hydrateOnce fetch this_alias opts fuel this = Some r ->
  Catalog.hydrateOnce fetch this_alias opts fuel
    (Catalog.with_map this (Catalog.run_map r)) = Some r.
Proof.
  intros Hr.
  assert (Hover : forall t : Catalog.YampiSkuMap,
            Catalog.hydrateOnce fetch this_alias opts fuel t
            = CatalogFacts.over (Catalog.map t)
                <$> Catalog.hydrateOnce fetch this_alias opts fuel
                      (Catalog.with_map t ∅)).
  { intros t. unfold Catalog.hydrateOnce. cbn [Catalog.map Catalog.with_map].
    rewrite <- (hydrateLoop_union fetch this_alias opts fuel).
    by rewrite (left_id_L ∅ (∪)). }
  rewrite (Hover this) in Hr.
  rewrite (Hover (Catalog.with_map this (Catalog.run_map r))).
  cbn [Catalog.map Catalog.with_map] in *.
  destruct (Catalog.hydrateOnce _ _ _ _ _) as [r0|]; [|done].
  injection Hr as <-. cbn. unfold CatalogFacts.over. cbn. f_equal. f_equal.
  by rewrite (assoc_L (∪)), (idemp_L (∪)).
Qed.

Lemma hydration_twice_is_hydration_once_witness :
  exists r : Catalog.run,
    Catalog.hydrateOnce Sample.fetch_one_page (Some "loja")
      Catalog.default_options 5 (Catalog.new_YampiSkuMap (Some "loja"))
    = Some r
    /\ Catalog.hydrateOnce Sample.fetch_one_page (Some "loja")
         Catalog.default_options 5
         (Catalog.with_map (Catalog.new_YampiSkuMap (Some "loja"))
            (Catalog.run_map r)) = Some r.
Proof.
  eexists. split; [vm_compute; reflexivity|].
  apply (hydration_twice_is_hydration_once Sample.fetch_one_page
           (Some "loja") Catalog.default_options 5
           (Catalog.new_YampiSkuMap (Some "loja"))).
  vm_compute. reflexivity.
Defined.

Section HydrationCount.
Import Js Http Catalog CatalogFacts.

Lemma size_insert_le (m : gmap string number) (k : string) (v : number) :
  (size (<[k := v]> m) <= S (size m))%nat.
Proof. rewrite map_size_insert. case_match; simpl; lia. Qed.

Lemma hydrateSku_count (st : gmap string number * Z) (s : jsval) :
  st.2 <= (hydrateSku st s).2
  /\ Z.of_nat (size (hydrateSku st s).1) - 3 * (hydrateSku st s).2
     <= Z.of_nat (size st.1) - 3 * st.2.
Proof.
  unfold hydrateSku. destruct (_ && _); cbn [fst snd]; [|lia].
  split; [lia|].
  set (key := trim _). set (id := ToNumber _).
  pose proof (size_insert_le st.1 key id).
  pose proof (size_insert_le (<[key := id]> st.1) (toUpperCase key) id).
  pose proof (size_insert_le
                (<[toUpperCase key := id]> (<[key := id]> st.1))
                (toLowerCase key) id).
  lia.
Qed.

Lemma fold_hydrateSku_count (l : list jsval) :
  forall st : gmap string number * Z,
    st.2 <= (fold_left hydrateSku l st).2
    /\ Z.of_nat (size (fold_left hydrateSku l st).1)
         - 3 * (fold_left hydrateSku l st).2
       <= Z.of_nat (size st.1) - 3 * st.2.
Proof.
  induction l as [|s l IH]; intros st; cbn [fold_left]; [lia|].
  pose proof (hydrateSku_count st s). pose proof (IH (hydrateSku st s)). lia.
Qed.

Lemma hydrateProduct_count (st : gmap string number * Z) (p : jsval) :
  st.2 <= (hydrateProduct st p).2
  /\ Z.of_nat (size (hydrateProduct st p).1) - 3 * (hydrateProduct st p).2
     <= Z.of_nat (size st.1) - 3 * st.2.
Proof.
  unfold hydrateProduct. destruct (or_else _ _); try lia.
  apply fold_hydrateSku_count.
Qed.

Lemma fold_hydrateProduct_count (ps : list jsval) :
  forall st : gmap string number * Z,
    st.2 <= (fold_left hydrateProduct ps st).2
    /\ Z.of_nat (size (fold_left hydrateProduct ps st).1)
         - 3 * (fold_left hydrateProduct ps st).2
       <= Z.of_nat (size st.1) - 3 * st.2.
Proof.
  induction ps as [|p ps IH]; intros st; cbn [fold_left]; [lia|].
  pose proof (hydrateProduct_count st p).
  pose proof (IH (hydrateProduct st p)). lia.
Qed.

Lemma fold_hydrateSku_written (l : list jsval) :
  forall st : gmap string number * Z,
    fold_left hydrateSku l st
    = (fold_left store (List.filter accepted l) st.1,
       st.2 + Z.of_nat (length (List.filter accepted l))).
Proof.
  induction l as [|s l IH]; intros [m t]; cbn [fold_left List.filter].
  - cbn. f_equal. lia.
  - rewrite IH. unfold hydrateSku. fold (accepted s).
    destruct (accepted s); cbn [fst snd fold_left length]; [|done].
    fold (store m s). f_equal. lia.
Qed.

Lemma hydrateProduct_written (st : gmap string number * Z) (p : jsval) :
  hydrateProduct st p
  = (fold_left store (List.filter accepted (skus_of p)) st.1,
     st.2 + Z.of_nat (length (List.filter accepted (skus_of p)))).
Proof.
  unfold hydrateProduct, skus_of.
  destruct (or_else _ _); try apply fold_hydrateSku_written;
    destruct st; cbn; f_equal; lia.
Qed.

Lemma fold_hydrateProduct_written (ps : list jsval) :
  forall st : gmap string number * Z,
    fold_left hydrateProduct ps st
    = (fold_left store (List.filter accepted (flat_map skus_of ps)) st.1,
       st.2 + Z.of_nat (length (List.filter accepted (flat_map skus_of ps)))).
Proof.
  induction ps as [|p ps IH]; intros st; cbn [fold_left flat_map].
  - destruct st. cbn. f_equal. lia.
  - rewrite IH, hydrateProduct_written. cbn [fst snd].
    rewrite List.filter_app, fold_left_app, length_app. f_equal. lia.
Qed.

Variable fetch : string -> fetch_result.
Variable this_alias : option string.
Variable opts : hydrate_options.

Lemma written_cons (path : string) (paths : list string) :
  written fetch (path :: paths)
  = List.filter accepted (records_of fetch path) ++ written fetch paths.
Proof. unfold written. cbn [flat_map]. apply List.filter_app. Qed.

Lemma hydrateLoop_written (fuel : nat) :
  forall (page total : Z) (m : gmap string number) (reqs : list string)
         (r : run),
    hydrateLoop fetch this_alias opts fuel page total m reqs = Some r ->
    exists new : list string,
      run_requests r = reqs ++ new
      /\ forall count : Z,
           run_result r = Return count ->
           count = total + Z.of_nat (length (written fetch new))
           /\ run_map r = fold_left store (written fetch new) m.
Proof.
  induction fuel as [|fuel IH]; intros page total m reqs r Hr; [done|].
  rewrite hydrateLoop_step in Hr. cbv zeta in Hr.
  set (path := page_path this_alias (limit opts) page) in *.
  destruct (yampiGet fetch path) as [resp|msg] eqn:Hget;
    [|injection Hr as <-; exists [path]; split; [done|]; by intros count].
  destruct (iterate _) as [ps|msg] eqn:Hit;
    [|injection Hr as <-; exists [path]; split; [done|]; by intros count].
  assert (Hrec : List.filter accepted (records_of fetch path)
                 = List.filter accepted (flat_map skus_of ps)).
  { unfold records_of. by rewrite Hget, Hit. }
  rewrite fold_hydrateProduct_written in Hr. cbn [fst snd] in Hr.
  destruct (_ || _).
  - injection Hr as <-. exists [path]. split; [done|].
    intros count [= <-]. cbn [run_map].
    rewrite written_cons, Hrec. unfold written. cbn [flat_map List.filter].
    by rewrite app_nil_r.
  - apply IH in Hr as (new & Hreq & Hcount).
    exists (path :: new). split; [by rewrite Hreq, <- app_assoc|].
    intros count Hc. destruct (Hcount count Hc) as [-> ->].
    rewrite written_cons, Hrec, fold_left_app, length_app. split; [lia|done].
Qed.

Lemma hydrateLoop_count (fuel : nat) :
  forall (page total : Z) (m : gmap string number) (reqs : list string)
         (r : run) (count : Z),
    hydrateLoop fetch this_alias opts fuel page total m reqs = Some r ->
    run_result r = Return count ->
    total <= count
    /\ Z.of_nat (size (run_map r)) - 3 * count
       <= Z.of_nat (size m) - 3 * total.
Proof.
  induction fuel as [|fuel IH]; intros page total m reqs r count Hr Hc;
    [done|].
  rewrite hydrateLoop_step in Hr. cbv zeta in Hr.
  destruct (yampiGet _ _) as [resp|msg]; [|by simplify_eq].
  destruct (iterate _) as [ps|msg]; [|by simplify_eq].
  pose proof (fold_hydrateProduct_count ps (m, total)) as Hps.
  cbn [fst snd] in Hps.
  destruct (_ || _).
  - injection Hr as <-. cbn in Hc. injection Hc as <-. cbn. lia.
  - pose proof (IH _ _ _ _ _ _ Hr Hc). lia.
Qed.

End HydrationCount.

(** X5. The count a hydration returns is the number of SKU records it
    wrote, not the number of entries: it is the number of accepted records
    (a truthy [sku], an [id] that is neither null nor undefined) on the
    pages the call requested, a record listed twice counting twice. The
    mapping the call leaves is the prior mapping with the three keys of
    each of these records written in the order of the listing, so it has
    grown by at most three keys for each record counted. *)
Theorem hydration_count_is_records_written
    (fetch : string -> Http.fetch_result) (this_alias : option string)
    (opts : Catalog.hydrate_options) (fuel : nat)
    (this : Catalog.YampiSkuMap) (r : Catalog.run) (count : Z) :
  Catalog.hydrateOnce fetch this_alias opts fuel this = Some r ->
  Catalog.run_result r = Js.Return count ->
  count
  = Z.of_nat (length (CatalogFacts.written fetch (Catalog.run_requests r)))
  /\ Catalog.run_map r
     = fold_left CatalogFacts.store
         (CatalogFacts.written fetch (Catalog.run_requests r))
         (Catalog.map this)
  /\ Z.of_nat (size (Catalog.run_map r))
     <= Z.of_nat (size (Catalog.map this)) + 3 * count.
Proof.
  intros Hr Hc.
  pose proof (hydrateLoop_count fetch this_alias opts fuel _ _ _ _ _ _ Hr Hc).
  destruct (hydrateLoop_written fetch this_alias opts fuel _ _ _ _ _ Hr)
    as (new & Hreq & Hcount).
  cbn [app] in Hreq. rewrite Hreq.
  destruct (Hcount count Hc) as [Hn Hm].
  split; [lia|]. split; [exact Hm|lia].
Qed.

Lemma hydration_count_is_records_written_witness :
  exists r : Catalog.run,
    Catalog.hydrateOnce Sample.fetch_two_spellings (Some "loja")
      Catalog.default_options 5 (Catalog.new_YampiSkuMap (Some "loja"))
    = Some r
    /\ Catalog.run_result r = Js.Return 2
    /\ 2 = Z.of_nat (length (CatalogFacts.written Sample.fetch_two_spellings
                               (Catalog.run_requests r)))
    /\ Catalog.run_map r
       = fold_left CatalogFacts.store
           (CatalogFacts.written Sample.fetch_two_spellings
              (Catalog.run_requests r)) ∅
    /\ Z.of_nat (size (Catalog.run_map r))
       <= Z.of_nat (size (∅ : gmap string Js.number)) + 3 * 2.
Proof.
  eexists. split; [vm_compute; reflexivity|]. split; [reflexivity|].
  apply (hydration_count_is_records_written Sample.fetch_two_spellings
           (Some "loja") Catalog.default_options 5
           (Catalog.new_YampiSkuMap (Some "loja")));
    vm_compute; reflexivity.
Defined.

(** ** Seed load and bootstrap *)

Section Seed.
Import Js Http Catalog CatalogFacts.

Lemma seedRecord_keeps (m : gmap string number) (r : jsval) (k : string) :
  is_Some (m !! k) -> is_Some (seedRecord m r !! k).
Proof.
  intros H. unfold seedRecord. destruct (_ && _); [|done].
  rewrite lookup_insert_is_Some'. auto.
Qed.

Lemma seedEntry_keeps (m : gmap string number) (e : string * jsval)
    (k : string) :
  is_Some (m !! k) -> is_Some (seedEntry m e !! k).
Proof. intros H. unfold seedEntry. rewrite lookup_insert_is_Some'. auto. Qed.

Lemma seedRecords_read (l : list jsval) :
  forall m : gmap string number,
    seedRecords l m = fold_left seedRecord (read_records l) m.
Proof.
  induction l as [|r l IH]; intros m; cbn [seedRecords read_records]; [done|].
  destruct (seedRecord_raises r); [done|]. cbn [fold_left]. apply IH.
Qed.

Lemma seedEntries_read (props : list (string * jsval)) :
  forall m : gmap string number,
    seedEntries props m = fold_left seedEntry (read_entries props) m.
Proof.
  induction props as [|e props IH]; intros m;
    cbn [seedEntries read_entries]; [done|].
  destruct (unconvertible e.2); [done|]. cbn [fold_left]. apply IH.
Qed.

Lemma fold_seedRecord_keeps (l : list jsval) :
  forall (m : gmap string number) (k : string),
    is_Some (m !! k) -> is_Some (fold_left seedRecord l m !! k).
Proof.
  induction l as [|r l IH]; intros m k H; cbn [fold_left]; [done|].
  by apply IH, seedRecord_keeps.
Qed.

Lemma fold_seedEntry_keeps (l : list (string * jsval)) :
  forall (m : gmap string number) (k : string),
    is_Some (m !! k) -> is_Some (fold_left seedEntry l m !! k).
Proof.
  induction l as [|e l IH]; intros m k H; cbn [fold_left]; [done|].
  by apply IH, seedEntry_keeps.
Qed.

Lemma loadSeed_keeps (src : seed_source) (m : gmap string number)
    (k : string) :
  is_Some (m !! k) -> is_Some (loadSeed src m !! k).
Proof.
  intros H. destruct src as [| |raw]; [done..|].
  destruct raw; try done; cbn [loadSeed].
  - rewrite seedRecords_read. by apply fold_seedRecord_keeps.
  - rewrite seedEntries_read. by apply fold_seedEntry_keeps.
Qed.

Lemma fold_seedRecord_writes (l : list jsval) :
  forall (m : gmap string number) (r : jsval),
    r ∈ l ->
    truthy r && truthy (get r "sku") && truthy (get r "id") = true ->
    is_Some (fold_left seedRecord l m !! trim (ToString (get r "sku"))).
Proof.
  induction l as [|r0 l IH]; intros m r Hin Hacc; [by inv Hin|].
  cbn [fold_left]. inv Hin; [|by apply IH].
  apply fold_seedRecord_keeps. unfold seedRecord. rewrite Hacc.
  rewrite lookup_insert_eq. eauto.
Qed.

Lemma fold_seedEntry_writes (l : list (string * jsval)) :
  forall (m : gmap string number) (e : string * jsval),
    e ∈ l -> is_Some (fold_left seedEntry l m !! trim e.1).
Proof.
  induction l as [|e0 l IH]; intros m e Hin; [by inv Hin|].
  cbn [fold_left]. inv Hin; [|by apply IH].
  apply fold_seedEntry_keeps. unfold seedEntry.
  rewrite lookup_insert_eq. eauto.
Qed.

Lemma read_records_prefix (l : list jsval) :
  exists rest : list jsval,
    l = read_records l ++ rest
    /\ Forall (fun r => seedRecord_raises r = false) (read_records l)
    /\ match rest with
       | [] => True
       | r :: _ => seedRecord_raises r = true
       end.
Proof.
  induction l as [|r l (rest & Heq & Hall & Hrest)]; cbn [read_records].
  - exists []. by repeat split.
  - destruct (seedRecord_raises r) eqn:Hr.
    + exists (r :: l). by repeat split.
    + exists rest. split; [cbn; by f_equal|]. split; [by constructor|done].
Qed.

End Seed.

(** X6. [bootstrap] always completes, whatever the seed source and the
    upstream: an unreadable seed, a seed record whose code or identifier
    cannot be converted, and a failed hydration are all swallowed. The
    seed load stores the records that come before the first one that
    raises, and nothing after it. The catalog [bootstrap] leaves keeps
    every key it had and every key the seed load wrote, so each accepted
    record that was read from a seed array, and each non-empty code that
    was read from a seed object, still resolves by its code afterwards. *)
Theorem bootstrap_always_completes
    (src : Catalog.seed_source) (fetch : string -> Http.fetch_result)
    (fuel : nat) (this : Catalog.YampiSkuMap) :
  (1000 <= fuel)%nat ->
  exists this' : Catalog.YampiSkuMap,
    Catalog.bootstrap src fetch fuel this = Some this'
    /\ Catalog.alias this' = Catalog.alias this
    /\ (forall k : string,
          is_Some (Catalog.map this !! k) -> is_Some (Catalog.map this' !! k))
    /\ (forall k : string,
          is_Some (Catalog.loadSeed src (Catalog.map this) !! k) ->
          is_Some (Catalog.map this' !! k))
    /\ (forall l : list Js.jsval,
          src = Catalog.Parsed (Js.VArr l) ->
          Catalog.loadSeed src (Catalog.map this)
          = fold_left Catalog.seedRecord (CatalogFacts.read_records l)
              (Catalog.map this)
          /\ (exists rest : list Js.jsval,
                l = CatalogFacts.read_records l ++ rest
                /\ Forall (fun r => Catalog.seedRecord_raises r = false)
                     (CatalogFacts.read_records l)
                /\ match rest with
                   | [] => True
                   | r :: _ => Catalog.seedRecord_raises r = true
                   end)
          /\ forall r : Js.jsval,
               r ∈ CatalogFacts.read_records l ->
               Js.truthy r && Js.truthy (Js.get r "sku")
                 && Js.truthy (Js.get r "id") = true ->
               is_Some (Catalog.getId this' (Js.get r "sku")))
    /\ (forall (props : list (string * Js.jsval)) (e : string * Js.jsval),
          src = Catalog.Parsed (Js.VObj props) ->
          e ∈ CatalogFacts.read_entries props ->
          e.1 <> EmptyString ->
          is_Some (Catalog.getId this' (Js.VStr e.1))).
Proof.
  intros Hfuel. unfold Catalog.bootstrap.
  set (seeded := Catalog.with_map this _).
  destruct (hydrateOnce_completes fetch (Catalog.alias this)
              Catalog.default_options seeded) as (run0 & Hr & _).
  assert (Hrun : Catalog.hydrateOnce fetch (Catalog.alias this)
                   Catalog.default_options fuel seeded = Some run0).
  { apply Hr.
    change (Z.to_nat (Z.max 1 (Catalog.maxPages Catalog.default_options)))
      with 1000%nat. exact Hfuel. }
  clear Hr. rewrite Hrun.
  assert (Hkeep : forall k, is_Some (Catalog.map seeded !! k) ->
                            is_Some (Catalog.run_map run0 !! k)).
  { intros k. exact (hydrateLoop_keeps fetch (Catalog.alias this)
                       Catalog.default_options fuel _ _ _ _ _ Hrun k). }
  assert (Hget : forall v, Js.truthy v = true ->
            is_Some (Catalog.run_map run0 !! Js.trim (Js.ToString v)) ->
            is_Some (Catalog.getId (Catalog.with_map this (Catalog.run_map run0)) v)).
  { intros v Hv [x Hx]. unfold Catalog.getId. rewrite Hv.
    cbn [negb Catalog.map Catalog.with_map]. rewrite Hx. cbn. eauto. }
  eexists. split; [done|]. split; [done|].
  subst seeded. cbn [Catalog.map Catalog.with_map] in *.
  split; [|split; [|split]].
  - intros k Hk. apply Hkeep. by apply loadSeed_keeps.
  - intros k Hk. by apply Hkeep.
  - intros l ->. cbn [Catalog.loadSeed] in *. split; [|split].
    + apply seedRecords_read.
    + apply read_records_prefix.
    + intros r Hin Hacc. apply Hget.
      * by apply andb_prop in Hacc as [[_ ?]%andb_prop _].
      * apply Hkeep. rewrite seedRecords_read.
        by apply fold_seedRecord_writes.
  - intros props e -> Hin Hne. apply Hget.
    + by destruct e.1.
    + apply Hkeep. cbn [Catalog.loadSeed Js.ToString].
      rewrite seedEntries_read. by apply fold_seedEntry_writes.
Qed.

Lemma bootstrap_always_completes_witness :
  exists this' : Catalog.YampiSkuMap,
    Catalog.bootstrap (Catalog.Parsed Sample.seed_with_bad_record)
      Sample.fetch_down 1000 (Catalog.new_YampiSkuMap (Some "loja"))
    = Some this'
    /\ Catalog.alias this' = Some "loja"
    /\ CatalogFacts.read_records
         [Sample.sku_record "A" (Js.VNum (Js.Num 1));
          Js.VObj [("sku", Js.VObj [("toString", Js.VNum (Js.Num 1))]);
                   ("id", Js.VNum (Js.Num 2))];
          Sample.sku_record "C" (Js.VNum (Js.Num 3))]
       = [Sample.sku_record "A" (Js.VNum (Js.Num 1))]
    /\ is_Some (Catalog.getId this' (Js.VStr "A"))
    /\ Catalog.getId this' (Js.VStr "C") = None.
Proof.
  destruct (bootstrap_always_completes
              (Catalog.Parsed Sample.seed_with_bad_record)
              Sample.fetch_down 1000 (Catalog.new_YampiSkuMap (Some "loja")))
    as (this' & H1 & H2 & _ & _ & Harr & _); [lia|].
  exists this'. split; [exact H1|]. split; [exact H2|].
  split; [vm_compute; reflexivity|]. split.
  - destruct (Harr _ eq_refl) as (_ & _ & Hres).
    apply (Hres (Sample.sku_record "A" (Js.VNum (Js.Num 1)))).
    + vm_compute. constructor.
    + vm_compute. reflexivity.
  - vm_compute in H1. injection H1 as <-. vm_compute. reflexivity.
Defined.

(** ** The request handlers: what goes upstream *)

Section Outbound.
Import Js Http Catalog Yampi Proxy.

Lemma resolveIds_length_nil (skuMap : YampiSkuMap) (l : list jsval)
    (ids : list number) :
  resolveIds skuMap l [] = inl ids -> length ids = length l.
Proof. intros H. by apply resolveIds_length in H. Qed.

Lemma calcularFreteYampi_sent
    (post : string -> quote_body -> fetch_result) (a : quote_args) :
  (calcularFreteYampi post a).1
  = (BASE +:+ "/" +:+ env_string (arg_alias a) +:+ "/logistics/shipping-costs",
     {| zipcode := arg_zipcode a; total := arg_total a;
        origin := "cart_drawer"; utm_email := None;
        skus_ids := arg_skusIds a; quantities := arg_quantities a;
        order_id := arg_orderId a |}).
Proof. reflexivity. Qed.

End Outbound.

(** The shape every upstream quote request of a handler has. *)
Lemma quote_request_shape
    (env : Proxy.process_env) (skuMap : Catalog.YampiSkuMap)
    (post : string -> Yampi.quote_body -> Http.fetch_result)
    (i : Proxy.inputs) (ids : list Js.number)
    (sent : string * Yampi.quote_body) (result : Js.completion Js.jsval) :
  negb (String.length (Proxy.in_cep i) =? 8)%nat = false ->
  (length (Proxy.in_skusArr i) =? 0)%nat
  || negb (length (Proxy.in_skusArr i) =? length (Proxy.in_qtyArr i))%nat
  = false ->
  Proxy.resolveIds skuMap (Proxy.in_skusArr i) [] = inl ids ->
  Yampi.calcularFreteYampi post (Proxy.quote_call env i ids) = (sent, result) ->
  sent.1 = Http.BASE +:+ "/" +:+ Js.env_string (Proxy.YAMPI_ALIAS env)
           +:+ "/logistics/shipping-costs"
  /\ Yampi.zipcode sent.2 = Proxy.in_cep i
  /\ String.length (Yampi.zipcode sent.2) = 8%nat
  /\ Yampi.skus_ids sent.2 <> []
  /\ length (Yampi.skus_ids sent.2) = length (Yampi.quantities sent.2)
  /\ Yampi.order_id sent.2 = Some (Js.Num 129339217)
  /\ Yampi.origin sent.2 = "cart_drawer".
Proof.
  intros Hcep Hitems Hres Hcall.
  apply (f_equal fst) in Hcall. rewrite calcularFreteYampi_sent in Hcall.
  cbn [fst] in Hcall. subst sent. cbn.
  apply negb_false_iff, Nat.eqb_eq in Hcep.
  apply orb_false_iff in Hitems as [Hne Hlen].
  apply Nat.eqb_neq in Hne. apply negb_false_iff, Nat.eqb_eq in Hlen.
  apply resolveIds_length_nil in Hres.
  repeat split; try done.
  - intros ->. simpl in Hres. lia.
  - lia.
Qed.

(** X7. Whatever the request, the catalog, the cache and the upstream, a
    handler calls the quote API at most once, and a call it makes goes to
    the shipping-costs address of the configured alias with a postal code
    of exactly eight digits, at least one identifier, as many quantities
    as identifiers, the fixed order id 129339217 and the origin
    "cart_drawer". This holds for the three revisions of the handler. *)
Theorem handlers_send_well_formed_quote_requests
    (env : Proxy.process_env) (skuMap : Catalog.YampiSkuMap)
    (post : string -> Yampi.quote_body -> Http.fetch_result)
    (now_get now_set : Z) (req : Proxy.request)
    (quoteCache : gmap string Proxy.cache_entry) :
  let well_formed (out : Proxy.outcome) :=
    (length (Proxy.out_posts out) <= 1)%nat
    /\ forall sent : string * Yampi.quote_body,
         sent ∈ Proxy.out_posts out ->
         sent.1 = Http.BASE +:+ "/" +:+ Js.env_string (Proxy.YAMPI_ALIAS env)
                  +:+ "/logistics/shipping-costs"
         /\ String.length (Yampi.zipcode sent.2) = 8%nat
         /\ Js.sforall Js.is_digit (Yampi.zipcode sent.2) = true
         /\ Yampi.skus_ids sent.2 <> []
         /\ length (Yampi.skus_ids sent.2) = length (Yampi.quantities sent.2)
         /\ Yampi.order_id sent.2 = Some (Js.Num 129339217)
         /\ Yampi.origin sent.2 = "cart_drawer" in
  well_formed (ServerA.handler env skuMap post now_get now_set req quoteCache)
  /\ well_formed (Server.handler env skuMap post now_get now_set req quoteCache)
  /\ well_formed (ServerB.handler env skuMap post now_get now_set req quoteCache).
Proof.
  intros well_formed. subst well_formed. cbv beta.
  assert (Hdigits : forall r, Js.sforall Js.is_digit
                                (Proxy.in_cep (Proxy.read_inputs r)) = true)
    by (intros r; apply strip_non_digits_digits).
  assert (HdigitsB : forall r, Js.sforall Js.is_digit
                                 (Proxy.in_cep (ServerB.read_inputs r)) = true)
    by (intros r; apply strip_non_digits_digits).
  split; [|split].
  all: unfold ServerA.handler, Server.handler, ServerB.handler.
  all: repeat case_match; cbn; (split; [lia|]); intros sent Hin;
    try (by inv Hin); apply list_elem_of_singleton in Hin as ->.
  all: match goal with
       | Hc : negb (String.length _ =? 8)%nat = false,
         Hi : (_ || _) = false,
         Hr : Proxy.resolveIds _ _ [] = inl _,
         Hcall : Yampi.calcularFreteYampi _ _ = _ |- _ =>
           destruct (quote_request_shape _ _ _ _ _ _ _ Hc Hi Hr Hcall)
             as (?&Hz&?&?&?&?&?)
       end.
  all: repeat split; try done; rewrite Hz; auto.
Qed.

(** ** The request handlers: replies and the cache *)

Section CacheEffects.
Import Js Http Catalog Yampi Proxy.

Lemma getFromCache_cache (ttl now : Z) (key : string)
    (c : gmap string cache_entry) :
  (ServerA.getFromCache ttl now key c).2 = c
  \/ ((ServerA.getFromCache ttl now key c).2 = delete key c
      /\ (ServerA.getFromCache ttl now key c).1 = VNull
      /\ exists e : cache_entry,
           c !! key = Some e /\ ttl < now - stored_at e).
Proof.
  unfold ServerA.getFromCache. destruct (c !! key) as [e|]; [|by left].
  destruct (ttl <? now - stored_at e) eqn:E; [|by left].
  right. apply Z.ltb_lt in E. eauto.
Qed.

End CacheEffects.

Section HandlerCases.
Import Js Http Catalog Yampi Proxy HandlerFacts.

Variable env : process_env.
Variable skuMap : YampiSkuMap.
Variable post : string -> quote_body -> fetch_result.
Variables now_get now_set : Z.

Lemma Server_handler_cases (req : request)
    (quoteCache : gmap string cache_entry) :
  pipeline_cases env skuMap post now_get now_set (read_inputs req) quoteCache
    (Server.handler env skuMap post now_get now_set req quoteCache).
Proof.
  unfold pipeline_cases, Server.handler.
  destruct (signature_check_enabled env && _); [left; eauto|].
  destruct (negb _) eqn:Hcep; [left; eauto|].
  apply negb_false_iff, Nat.eqb_eq in Hcep.
  destruct (_ || _); [left; eauto|].
  destruct (resolveIds _ _ _) as [ids|s] eqn:Hres; [|left; eauto].
  right. exists ids. split; [done|]. split; [done|]. cbv zeta.
  destruct (Server.cache_hit _ _ _ _) as [e|]; [left; eauto|].
  right. split; [done|].
  destruct (calcularFreteYampi _ _) as [sent [raw|msg]] eqn:Hcall;
    exists sent; [right|left]; eauto.
Qed.

Lemma ServerB_handler_cases (req : request)
    (quoteCache : gmap string cache_entry) :
  pipeline_cases env skuMap post now_get now_set (ServerB.read_inputs req)
    quoteCache
    (ServerB.handler env skuMap post now_get now_set req quoteCache).
Proof.
  unfold pipeline_cases, ServerB.handler.
  destruct (signature_check_enabled env && _); [left; eauto|].
  destruct (negb _) eqn:Hcep; [left; eauto|].
  apply negb_false_iff, Nat.eqb_eq in Hcep.
  destruct (_ || _); [left; eauto|].
  destruct (resolveIds _ _ _) as [ids|s] eqn:Hres; [|left; eauto].
  right. exists ids. split; [done|]. split; [done|]. cbv zeta.
  destruct (Server.cache_hit _ _ _ _) as [e|]; [left; eauto|].
  right. split; [done|].
  destruct (calcularFreteYampi _ _) as [sent [raw|msg]] eqn:Hcall;
    exists sent; [right|left]; eauto.
Qed.

Lemma ServerA_handler_cases (req : request)
    (quoteCache : gmap string cache_entry) :
  pipelineA_cases env skuMap post now_get now_set (read_inputs req) quoteCache
    (ServerA.handler env skuMap post now_get now_set req quoteCache).
Proof.
  unfold pipelineA_cases, ServerA.handler.
  destruct (signature_check_enabled env && _); [left; eauto|].
  destruct (negb _) eqn:Hcep; [left; eauto|].
  apply negb_false_iff, Nat.eqb_eq in Hcep.
  destruct (_ || _); [left; eauto|].
  destruct (resolveIds _ _ _) as [ids|s] eqn:Hres; [|left; eauto].
  right. exists ids. split; [done|]. split; [done|]. cbv zeta.
  unfold ServerA.makeCacheKey.
  destruct (ServerA.getFromCache _ _ _ _) as [cached cache1]. cbn [fst snd].
  destruct (truthy cached); [left; eauto|].
  right. split; [done|].
  destruct (calcularFreteYampi _ _) as [sent [d|msg]] eqn:Hcall;
    exists sent; [right|left]; eauto.
Qed.

End HandlerCases.

(** X8. A handler replies with status 200, 400, 401 or 500 and nothing
    else, and touches the quote cache at one key at most. [server.js] and
    the revision in [yampi.js] leave the cache exactly as it was unless
    they reply 200 after an upstream call; the earlier revision, in that
    case, can only have dropped the entry of the request's key, and only
    if that entry was older than the TTL. *)
Theorem handlers_write_cache_only_on_success
    (env : Proxy.process_env) (skuMap : Catalog.YampiSkuMap)
    (post : string -> Yampi.quote_body -> Http.fetch_result)
    (now_get now_set : Z) (req : Proxy.request)
    (quoteCache : gmap string Proxy.cache_entry) :
  let a := ServerA.handler env skuMap post now_get now_set req quoteCache in
  let b := Server.handler env skuMap post now_get now_set req quoteCache in
  let c := ServerB.handler env skuMap post now_get now_set req quoteCache in
  let statuses (out : Proxy.outcome) :=
    Proxy.status (Proxy.out_reply out) ∈ [200; 400; 401; 500] in
  let one_key (out : Proxy.outcome) :=
    exists key : string,
      forall k : string,
        k <> key -> Proxy.out_cache out !! k = quoteCache !! k in
  let quiet (out : Proxy.outcome) :=
    Proxy.status (Proxy.out_reply out) <> 200 \/ Proxy.out_posts out = [] in
  (statuses a /\ statuses b /\ statuses c)
  /\ (one_key a /\ one_key b /\ one_key c)
  /\ (quiet b -> Proxy.out_cache b = quoteCache)
  /\ (quiet c -> Proxy.out_cache c = quoteCache)
  /\ (quiet a ->
      Proxy.out_cache a = quoteCache
      \/ exists (key : string) (e : Proxy.cache_entry),
           quoteCache !! key = Some e
           /\ Proxy.TTL env < now_get - Proxy.stored_at e
           /\ Proxy.out_cache a = delete key quoteCache).
Proof.
  intros a b c statuses one_key quiet.
  assert (Hbc : forall i out,
    HandlerFacts.pipeline_cases env skuMap post now_get now_set i quoteCache out ->
    statuses out /\ one_key out
    /\ (quiet out -> Proxy.out_cache out = quoteCache)).
  { intros i out
      [(code & msg & Hcode & ->)
      |(ids & _ & _ & [(e & _ & ->)
                      |(_ & sent & [(msg & _ & ->)|(raw & _ & ->)])])];
      subst statuses one_key quiet; cbn.
    - split; [destruct Hcode as [-> | ->]; (rewrite !elem_of_cons; auto 10)|].
      split; [by exists EmptyString|done].
    - split; [(rewrite !elem_of_cons; auto 10)|]. split; [by exists EmptyString|done].
    - split; [(rewrite !elem_of_cons; auto 10)|]. split; [by exists EmptyString|done].
    - split; [(rewrite !elem_of_cons; auto 10)|]. split.
      + eexists. intros k Hk. by rewrite lookup_insert_ne.
      + by intros [?|?]. }
  assert (Ha : statuses a /\ one_key a
    /\ (quiet a ->
        Proxy.out_cache a = quoteCache
        \/ exists (key : string) (e : Proxy.cache_entry),
             quoteCache !! key = Some e
             /\ Proxy.TTL env < now_get - Proxy.stored_at e
             /\ Proxy.out_cache a = delete key quoteCache)).
  { pose proof (ServerA_handler_cases env skuMap post now_get now_set req
                  quoteCache) as Hcases. fold a in Hcases.
    destruct Hcases as
      [(code & msg & Hcode & ->)
      |(ids & _ & _ & Hrest)]; subst statuses one_key quiet; cbn.
    { split; [destruct Hcode as [-> | ->]; (rewrite !elem_of_cons; auto 10)|].
      split; [by exists EmptyString|by left]. }
    cbv zeta in Hrest.
    set (key := Proxy.cacheKey _ _ _ _) in Hrest.
    assert (Hone : forall k, k <> key ->
      (ServerA.getFromCache (Proxy.TTL env) now_get key quoteCache).2 !! k
      = quoteCache !! k).
    { intros k Hk.
      destruct (getFromCache_cache (Proxy.TTL env) now_get key quoteCache)
        as [-> | [-> _]]; [done|by rewrite lookup_delete_ne]. }
    assert (Hdrop :
      (ServerA.getFromCache (Proxy.TTL env) now_get key quoteCache).2
        = quoteCache
      \/ exists (key0 : string) (e : Proxy.cache_entry),
           quoteCache !! key0 = Some e
           /\ Proxy.TTL env < now_get - Proxy.stored_at e
           /\ (ServerA.getFromCache (Proxy.TTL env) now_get key quoteCache).2
              = delete key0 quoteCache).
    { destruct (getFromCache_cache (Proxy.TTL env) now_get key quoteCache)
        as [-> | (-> & _ & e & He & Hage)]; [by left|right; eauto]. }
    destruct Hrest as [(_ & ->)|(_ & sent & [(msg & _ & ->)|(d & _ & ->)])];
      cbn.
    - split; [(rewrite !elem_of_cons; auto 10)|]. split; [by exists key|done].
    - split; [(rewrite !elem_of_cons; auto 10)|]. split; [by exists key|done].
    - split; [(rewrite !elem_of_cons; auto 10)|]. split.
      + exists key. intros k Hk. unfold ServerA.setCache.
        rewrite lookup_insert_ne by done. by apply Hone.
      + by intros [?|?]. }
  pose proof (Hbc _ _ (Server_handler_cases env skuMap post now_get now_set
                         req quoteCache)) as Hb.
  pose proof (Hbc _ _ (ServerB_handler_cases env skuMap post now_get now_set
                         req quoteCache)) as Hc.
  fold b in Hb. fold c in Hc. tauto.
Qed.

(** X9. In [server.js] and in the revision in [yampi.js], once a request
    has been answered 200 from upstream, the same request handled again
    less than a TTL after the entry was stored is answered from the
    cache: same data, flagged as cached, no upstream call, the cache left
    as it is. *)
Theorem repeated_request_is_served_from_cache
    (env : Proxy.process_env) (skuMap : Catalog.YampiSkuMap)
    (post post' : string -> Yampi.quote_body -> Http.fetch_result)
    (t_get t_set t_get' t_set' : Z) (req : Proxy.request)
    (quoteCache : gmap string Proxy.cache_entry) :
  t_get' - t_set < Proxy.TTL env ->
  let again (h : (string -> Yampi.quote_body -> Http.fetch_result) ->
                 Z -> Z -> Proxy.request -> gmap string Proxy.cache_entry ->
                 Proxy.outcome) :=
    let first := h post t_get t_set req quoteCache in
    Proxy.status (Proxy.out_reply first) = 200 ->
    Proxy.out_posts first <> [] ->
    exists d : Js.jsval,
      Proxy.json (Proxy.out_reply first) = Js.VObj [("data", d)]
      /\ h post' t_get' t_set' req (Proxy.out_cache first)
         = {| Proxy.out_reply :=
                {| Proxy.status := 200;
                   Proxy.json := Js.VObj [("data", d);
                                          ("cached", Js.VBool true)] |};
              Proxy.out_cache := Proxy.out_cache first;
              Proxy.out_posts := [] |} in
  again (Server.handler env skuMap) /\ again (ServerB.handler env skuMap).
Proof.
  intros Hfresh again. apply Z.ltb_lt in Hfresh.
  subst again. cbv beta zeta.
  split.
  - unfold Server.handler.
    destruct (Proxy.signature_check_enabled env && _); [done|].
    destruct (negb _); [done|]. destruct (_ || _); [done|].
    destruct (Proxy.resolveIds _ _ _) as [ids|s]; [|done].
    destruct (Server.cache_hit _ t_get _ _) as [e|]; [done|].
    destruct (Yampi.calcularFreteYampi post _) as [sent [raw|msg]];
      [|done].
    cbn. intros _ _. eexists. split; [done|].
    by rewrite cache_hit_after_insert, Hfresh.
  - unfold ServerB.handler.
    destruct (Proxy.signature_check_enabled env && _); [done|].
    destruct (negb _); [done|]. destruct (_ || _); [done|].
    destruct (Proxy.resolveIds _ _ _) as [ids|s]; [|done].
    destruct (Server.cache_hit _ t_get _ _) as [e|]; [done|].
    destruct (Yampi.calcularFreteYampi post _) as [sent [raw|msg]];
      [|done].
    cbn. intros _ _. eexists. split; [done|].
    by rewrite cache_hit_after_insert, Hfresh.
Qed.

Lemma repeated_request_is_served_from_cache_witness :
  let first := Server.handler Sample.env_unsigned Sample.skuMap_sku1
                 Sample.post_ok 0 1 Sample.req_scenario1 ∅ in
  exists d : Js.jsval,
    Proxy.json (Proxy.out_reply first) = Js.VObj [("data", d)]
    /\ Server.handler Sample.env_unsigned Sample.skuMap_sku1
         Sample.post_unavailable 300000 300001 Sample.req_scenario1
         (Proxy.out_cache first)
       = {| Proxy.out_reply :=
              {| Proxy.status := 200;
                 Proxy.json := Js.VObj [("data", d);
                                        ("cached", Js.VBool true)] |};
            Proxy.out_cache := Proxy.out_cache first;
            Proxy.out_posts := [] |}.
Proof.
  refine (proj1 (repeated_request_is_served_from_cache Sample.env_unsigned
                   Sample.skuMap_sku1 Sample.post_ok Sample.post_unavailable
                   0 1 300000 300001 Sample.req_scenario1 ∅ _) _ _).
  - vm_compute. reflexivity.
  - vm_compute. reflexivity.
  - vm_compute. discriminate.
Defined.

(** X10. In the earlier revision, a request answered 200 from upstream and
    handled again no more than a TTL after the entry was stored is served
    from the cache only if the payload is truthy: then the reply carries
    the same data flagged as cached, with no upstream call. A falsy
    payload (null, 0, false, the empty string) is stored all the same but
    never served: the repeated request goes upstream again. *)
Theorem earlier_revision_serves_only_truthy_payloads
    (env : Proxy.process_env) (skuMap : Catalog.YampiSkuMap)
    (post post' : string -> Yampi.quote_body -> Http.fetch_result)
    (t_get t_set t_get' t_set' : Z) (req : Proxy.request)
    (quoteCache : gmap string Proxy.cache_entry) :
  t_get' - t_set <= Proxy.TTL env ->
  let first := ServerA.handler env skuMap post t_get t_set req quoteCache in
  let second := ServerA.handler env skuMap post' t_get' t_set' req
                  (Proxy.out_cache first) in
  Proxy.status (Proxy.out_reply first) = 200 ->
  Proxy.out_posts first <> [] ->
  exists d : Js.jsval,
    Proxy.json (Proxy.out_reply first) = Js.VObj [("data", d)]
    /\ (Js.truthy d = true ->
        second = {| Proxy.out_reply :=
                      {| Proxy.status := 200;
                         Proxy.json := Js.VObj [("data", d);
                                                ("cached", Js.VBool true)] |};
                    Proxy.out_cache := Proxy.out_cache first;
                    Proxy.out_posts := [] |})
    /\ (Js.truthy d = false -> length (Proxy.out_posts second) = 1%nat).
Proof.
  intros Hfresh first second. subst first second.
  assert (Hnot : (Proxy.TTL env <? t_get' - t_set) = false)
    by (apply Z.ltb_ge; lia).
  unfold ServerA.handler.
  destruct (Proxy.signature_check_enabled env && _); [done|].
  destruct (negb _); [done|]. destruct (_ || _); [done|].
  destruct (Proxy.resolveIds _ _ _) as [ids|s]; [|done].
  destruct (ServerA.getFromCache _ t_get _ _) as [cached cache1].
  destruct (Js.truthy cached); [done|].
  destruct (Yampi.calcularFreteYampi post _) as [sent [d|msg]]; [|done].
  cbn [Proxy.status Proxy.out_reply Proxy.out_posts Proxy.json
       Proxy.out_cache].
  intros _ _. exists d. split; [done|].
  unfold ServerA.makeCacheKey.
  rewrite getFromCache_after_setCache, Hnot.
  split; intros ->; [done|].
  by destruct (Yampi.calcularFreteYampi post' _) as [sent' [d'|msg']].
Qed.

Lemma earlier_revision_serves_only_truthy_payloads_witness :
  let first := ServerA.handler Sample.env_unsigned Sample.skuMap_sku1
                 Sample.post_zero 0 1 Sample.req_scenario1 ∅ in
  let second := ServerA.handler Sample.env_unsigned Sample.skuMap_sku1
                  Sample.post_zero 2 3 Sample.req_scenario1
                  (Proxy.out_cache first) in
  exists d : Js.jsval,
    Proxy.json (Proxy.out_reply first) = Js.VObj [("data", d)]
    /\ Js.truthy d = false
    /\ length (Proxy.out_posts second) = 1%nat.
Proof.
  destruct (earlier_revision_serves_only_truthy_payloads Sample.env_unsigned
              Sample.skuMap_sku1 Sample.post_zero Sample.post_zero
              0 1 2 3 Sample.req_scenario1 ∅) as (d & Hd & _ & Hfalsy).
  - vm_compute. discriminate.
  - vm_compute. reflexivity.
  - vm_compute. discriminate.
  - exists d. split; [exact Hd|].
    assert (Js.truthy d = false) as Ht.
    { vm_compute in Hd. injection Hd as <-. reflexivity. }
    split; [exact Ht|exact (Hfalsy Ht)].
Defined.

(** ** The revisions of the handler compared *)

Section Revisions.
Import Js Http Catalog Yampi Proxy.

Lemma merged_read_inputs (req req' : request) :
  (forall k : string,
      k ∈ ["cep"; "total"; "skus"; "skus_ids"; "quantities"] ->
      ServerB.merged req !! k
      = (if String.eqb (method req') "GET" then query req' else body req') !! k) ->
  ServerB.read_inputs req = read_inputs req'.
Proof.
  intros H. unfold ServerB.read_inputs, read_inputs, param.
  rewrite !H by (rewrite !elem_of_cons; auto 10). done.
Qed.

End Revisions.

(** X11. The revision in [yampi.js] reads its inputs from the query string
    and the body merged, with the body first. It behaves exactly as
    [server.js] whenever, for each of the five input fields, the merge
    holds what [server.js] reads (the query string of a GET, the body
    otherwise); in particular a request with an empty body is handled,
    whatever its method, as [server.js] handles it as a GET. *)
Theorem merged_inputs_revision_agrees
    (env : Proxy.process_env) (skuMap : Catalog.YampiSkuMap)
    (post : string -> Yampi.quote_body -> Http.fetch_result)
    (now_get now_set : Z) (quoteCache : gmap string Proxy.cache_entry) :
  (forall req : Proxy.request,
      (forall k : string,
          k ∈ ["cep"; "total"; "skus"; "skus_ids"; "quantities"] ->
          ServerB.merged req !! k
          = (if String.eqb (Proxy.method req) "GET"
             then Proxy.query req else Proxy.body req) !! k) ->
      ServerB.handler env skuMap post now_get now_set req quoteCache
      = Server.handler env skuMap post now_get now_set req quoteCache)
  /\ (forall (m : string) (q : gmap string Js.jsval),
        ServerB.handler env skuMap post now_get now_set
          {| Proxy.method := m; Proxy.query := q; Proxy.body := ∅ |} quoteCache
        = Server.handler env skuMap post now_get now_set
            {| Proxy.method := "GET"; Proxy.query := q; Proxy.body := ∅ |}
            quoteCache).
Proof.
  split.
  - intros req H. unfold ServerB.handler, Server.handler.
    by rewrite (merged_read_inputs req req H).
  - intros m q. unfold ServerB.handler, Server.handler.
    rewrite (merged_read_inputs _
               {| Proxy.method := "GET"; Proxy.query := q; Proxy.body := ∅ |});
      [done|].
    intros k _. unfold ServerB.merged. cbn. by rewrite (left_id_L ∅ (∪)).
Qed.

(** ** Resolution of item codes *)

Section Resolution.
Import Js Http Catalog Yampi Proxy HandlerFacts.

Variable skuMap : YampiSkuMap.

Lemma number_truthy_false (n : number) :
  number_truthy n = false <-> n = NaN \/ n = Num 0.
Proof.
  destruct n as [|z]; simpl.
  - split; [by left|done].
  - rewrite negb_false_iff, Z.eqb_eq. split.
    + intros ->. by right.
    + intros [?|[= ->]]; done.
Qed.

Lemma resolveIds_step (s : jsval) (rest : list jsval) (acc : list number) :
  (exists id, resolved skuMap s id
              /\ resolveIds skuMap (s :: rest) acc
                 = resolveIds skuMap rest (acc ++ [id]))
  \/ (unmapped skuMap s /\ resolveIds skuMap (s :: rest) acc = inr s).
Proof.
  unfold resolved, unmapped. simpl.
  destruct (all_digits (ToString s)) eqn:Hd; [left; eauto|].
  destruct (getId skuMap s) as [id|] eqn:Hid; [|right; eauto].
  destruct (number_truthy id) eqn:Ht; [left; eauto 10|].
  right. apply number_truthy_false in Ht as [-> | ->]; eauto.
Qed.

Lemma resolved_unmapped (s : jsval) (id : number) :
  resolved skuMap s id -> unmapped skuMap s -> False.
Proof.
  intros [[Hd _]|(_ & Hid & Ht)] [Hn Hu]; [congruence|].
  destruct Hu as [Hu|[Hu|Hu]]; rewrite Hu in Hid; simplify_eq; done.
Qed.

Lemma resolved_functional (s : jsval) (id id' : number) :
  resolved skuMap s id -> resolved skuMap s id' -> id = id'.
Proof. intros [[? ->]|(?&?&?)] [[? ->]|(?&?&?)]; congruence. Qed.

Lemma resolveIds_inl (l : list jsval) :
  forall acc ids : list number,
    resolveIds skuMap l acc = inl ids
    <-> exists ids', ids = acc ++ ids' /\ Forall2 (resolved skuMap) l ids'.
Proof.
  induction l as [|s l IH]; intros acc ids.
  - simpl. split.
    + intros [= <-]. exists []. by rewrite app_nil_r.
    + intros (ids' & -> & H). inv H. by rewrite app_nil_r.
  - destruct (resolveIds_step s l acc) as [(id & Hid & ->)|(Hun & ->)].
    + rewrite IH. split.
      * intros (ids' & -> & H). exists (id :: ids').
        rewrite <- app_assoc. split; [done|]. by constructor.
      * intros (ids' & -> & H). inv H.
        match goal with
        | H1 : resolved skuMap s ?y |- _ =>
            rewrite (resolved_functional s id y Hid H1)
        end.
        eexists. rewrite <- app_assoc. split; [done|]. done.
    + split; [done|]. intros (ids' & _ & H). inv H.
      exfalso. eauto using resolved_unmapped.
Qed.

Lemma resolveIds_inr (l : list jsval) :
  forall (acc : list number) (s : jsval),
    resolveIds skuMap l acc = inr s ->
    exists (pre rest : list jsval) (ids : list number),
      l = pre ++ s :: rest
      /\ Forall2 (resolved skuMap) pre ids
      /\ unmapped skuMap s.
Proof.
  induction l as [|s0 l IH]; intros acc s H; [done|].
  destruct (resolveIds_step s0 l acc) as [(id & Hid & Heq)|(Hun & Heq)];
    rewrite Heq in H.
  - apply IH in H as (pre & rest & ids & -> & Hpre & Hun).
    exists (s0 :: pre), rest, (id :: ids). split; [done|].
    split; [by constructor|done].
  - injection H as <-. exists [], l, []. split; [done|]. split; [constructor|done].
Qed.

Lemma digit_not_space (c : ascii) : is_digit c = true -> is_space c = false.
Proof.
  unfold is_digit, is_space. cbv zeta. generalize (N_of_ascii c). intros n H.
  apply andb_prop in H as [H1%N.leb_le H2%N.leb_le].
  apply orb_false_iff. split.
  - apply andb_false_iff. right. apply N.leb_gt. lia.
  - apply N.eqb_neq. lia.
Qed.

Lemma trimEnd_digits (d : string) :
  sforall is_digit d = true -> trimEnd d = d.
Proof.
  induction d as [|c d IH]; [done|]. cbn [sforall trimEnd].
  intros [Hc Hd]%andb_prop. rewrite (IH Hd).
  destruct d; [|done]. by rewrite (digit_not_space c Hc).
Qed.

Lemma trim_digits (d : string) : sforall is_digit d = true -> trim d = d.
Proof.
  intros Hd. unfold trim.
  assert (trimStart d = d) as ->; [|by apply trimEnd_digits].
  destruct d as [|c d]; [done|]. cbn [sforall trimStart] in *.
  apply andb_prop in Hd as [Hc _]. by rewrite (digit_not_space c Hc).
Qed.

Lemma parse_dec_nonneg (d : string) :
  forall acc : Z,
    0 <= acc -> sforall is_digit d = true -> 0 <= parse_dec acc d.
Proof.
  induction d as [|c d IH]; intros acc Hacc Hd; [done|].
  cbn [sforall parse_dec] in *. apply andb_prop in Hd as [Hc Hd].
  apply IH; [|done]. unfold is_digit, digit_val in *. cbv zeta in Hc.
  apply andb_prop in Hc as [H1%N.leb_le _]. lia.
Qed.

Lemma StringToNumber_digits (d : string) :
  all_digits d = true ->
  exists z : Z, StringToNumber d = Num z /\ 0 <= z.
Proof.
  intros Hd. assert (Hall : sforall is_digit d = true) by by destruct d.
  unfold StringToNumber. rewrite (trim_digits d Hall).
  destruct d as [|c d]; [done|]. rewrite Hd.
  eexists. split; [done|]. by apply parse_dec_nonneg.
Qed.

Lemma all_digits_dash (r : string) : all_digits (String "-" r) = false.
Proof. reflexivity. Qed.

Lemma digits_convert (s : jsval) :
  all_digits (ToString s) = true ->
  exists z : Z, ToNumber s = Num z /\ 0 <= z.
Proof.
  destruct s as [| |[]|[|z]|d|l|props]; try done.
  - intros H. exists z. split; [done|].
    destruct z as [|q|q]; [lia..|].
    change (all_digits (String "-" (pretty (N.pos q))) = true) in H.
    by rewrite all_digits_dash in H.
  - apply StringToNumber_digits.
  - apply StringToNumber_digits.
Qed.

Lemma resolved_exact (l : list jsval) (ids : list number) :
  Forall (fun s => plain s = true) l ->
  Forall2 (resolved skuMap) l ids ->
  Forall2 (fun s id =>
             all_digits (ToString s) = true ->
             exists z : Z, id = Num z /\ 0 <= z <= 9007199254740992) l ids.
Proof.
  intros Hplain Hres. revert Hplain.
  induction Hres as [|s id l ids Hs _ IH]; intros Hplain; [constructor|].
  inv Hplain. constructor; [|by apply IH].
  intros Hd. destruct Hs as [[_ ->]|[Hn _]]; [|congruence].
  destruct (digits_convert s Hd) as (z & Hz & Hpos).
  exists z. split; [done|].
  match goal with H : plain s = true |- _ => unfold plain in H; rewrite Hz in H;
    apply andb_prop in H as [_ Hle%Z.leb_le] end.
  lia.
Qed.

End Resolution.

(** X12. For item codes on which the conversions of the loop complete and
    are exact (neither [String] nor [Number] raises, and a number spelled
    is at most 2^53 in magnitude, which [Number] gives unrounded), the
    resolution loop succeeds exactly when every item code has an
    identifier, and then returns the identifiers in the order of the
    codes, one for each: a code made of digits is passed as the number it
    spells, a natural number of at most 2^53 (so the code "0" goes
    upstream as 0), any other code as the identifier the catalog holds for
    it, which is never 0 or NaN. When the loop fails it names the first
    code that is not made of digits and whose lookup is absent, NaN or 0;
    every code before it had resolved. *)
Theorem resolution_is_positional
    (skuMap : Catalog.YampiSkuMap) (skusArr : list Js.jsval) :
  Forall (fun s => HandlerFacts.plain s = true) skusArr ->
  (forall ids : list Js.number,
      Proxy.resolveIds skuMap skusArr [] = inl ids
      <-> Forall2 (HandlerFacts.resolved skuMap) skusArr ids)
  /\ (forall ids : list Js.number,
        Proxy.resolveIds skuMap skusArr [] = inl ids ->
        Forall2 (fun s id =>
                   Js.all_digits (Js.ToString s) = true ->
                   exists z : Z,
                     id = Js.Num z /\ 0 <= z <= 9007199254740992)
          skusArr ids)
  /\ (forall s : Js.jsval,
        Proxy.resolveIds skuMap skusArr [] = inr s ->
        exists (pre rest : list Js.jsval) (ids : list Js.number),
          skusArr = pre ++ s :: rest
          /\ Forall2 (HandlerFacts.resolved skuMap) pre ids
          /\ HandlerFacts.unmapped skuMap s)
  /\ HandlerFacts.resolved skuMap (Js.VStr "0") (Js.Num 0).
Proof.
  intros Hplain.
  assert (Hiff : forall ids : list Js.number,
            Proxy.resolveIds skuMap skusArr [] = inl ids
            <-> Forall2 (HandlerFacts.resolved skuMap) skusArr ids).
  { intros ids. rewrite resolveIds_inl. split.
    - by intros (ids' & -> & H).
    - intros H. by exists ids. }
  split; [exact Hiff|]. split; [|split].
  - intros ids Hids. apply (resolved_exact skuMap); [done|]. by apply Hiff.
  - intros s. apply resolveIds_inr.
  - by left.
Qed.

Lemma resolution_is_positional_witness :
  Forall (fun s => HandlerFacts.plain s = true) [Js.VStr "SKU1"; Js.VStr "99"]
  /\ Forall2 (HandlerFacts.resolved Sample.skuMap_sku1)
       [Js.VStr "SKU1"; Js.VStr "99"] [Js.Num 501; Js.Num 99].
Proof.
  assert (Hplain : Forall (fun s => HandlerFacts.plain s = true)
                     [Js.VStr "SKU1"; Js.VStr "99"]).
  { repeat constructor. }
  split; [exact Hplain|].
  apply (proj1 (resolution_is_positional Sample.skuMap_sku1
                  [Js.VStr "SKU1"; Js.VStr "99"] Hplain)).
  vm_compute. reflexivity.
Defined.

(** ** Comma-separated inputs *)

Section CommaLists.
Import Js Proxy HandlerFacts.

Lemma split_comma_plain (x : string) :
  sforall (fun c => negb (Ascii.eqb c ",")) x = true ->
  split_comma x = [x].
Proof.
  induction x as [|c x IH]; simpl; [done|].
  intros [Hc Hx]%andb_prop. apply negb_true_iff in Hc. rewrite Hc.
  by rewrite IH.
Qed.

Lemma split_comma_cons (x r : string) :
  sforall (fun c => negb (Ascii.eqb c ",")) x = true ->
  split_comma (x +:+ "," +:+ r) = x :: split_comma r.
Proof.
  induction x as [|c x IH]; simpl; [done|].
  intros [Hc Hx]%andb_prop. apply negb_true_iff in Hc. rewrite Hc.
  by rewrite IH.
Qed.

Lemma split_comma_join (l : list string) :
  l <> [] ->
  Forall token l ->
  split_comma (join_comma l) = l.
Proof.
  induction l as [|x l IH]; [done|]. intros _ Hall.
  apply Forall_cons in Hall as [(_ & Hx & _) Hl].
  destruct l as [|y l]; [by apply split_comma_plain|].
  cbn [join_comma]. rewrite split_comma_cons by done.
  f_equal. by apply IH.
Qed.

Lemma tokens_survive (l : list string) :
  Forall token l ->
  List.filter (fun s => negb (String.eqb s EmptyString)) (List.map trim l) = l.
Proof.
  induction 1 as [|x l (Hne & _ & Htrim) _ IH]; [done|].
  cbn [List.map List.filter]. rewrite Htrim, IH.
  by destruct x.
Qed.

Lemma trim_blank (x : string) : sforall is_space x = true -> trim x = EmptyString.
Proof.
  intros Hx. unfold trim.
  assert (trimStart x = EmptyString) as ->; [|done].
  induction x as [|c x IH]; [done|]. cbn [sforall trimStart] in *.
  apply andb_prop in Hx as [-> Hx]. by apply IH.
Qed.

Lemma split_comma_blank (s : string) :
  sforall (fun c => is_space c || Ascii.eqb c ",") s = true ->
  Forall (fun x => sforall is_space x = true) (split_comma s).
Proof.
  induction s as [|c s IH]; cbn [sforall split_comma].
  - intros _. by repeat constructor.
  - intros [Hc Hs]%andb_prop. specialize (IH Hs).
    destruct (Ascii.eqb c ",") eqn:Hcomma; [by constructor|].
    rewrite orb_false_r in Hc.
    destruct (split_comma s) as [|h t].
    + repeat constructor. cbn. by rewrite Hc.
    + inv IH. constructor; [|done]. cbn. by rewrite Hc.
Qed.

Lemma blanks_vanish (l : list string) :
  Forall (fun x => sforall is_space x = true) l ->
  List.filter (fun s => negb (String.eqb s EmptyString)) (List.map trim l) = [].
Proof.
  induction 1 as [|x l Hx _ IH]; [done|].
  cbn [List.map List.filter]. by rewrite (trim_blank x Hx), IH.
Qed.

End CommaLists.

(** X13. Reading a comma-separated field gives back the list it spells:
    for items that are non-empty, comma-free and without white space at
    either end, [toArr] of the items joined by commas is the list of the
    items, in order. An absent field reads as the empty list, and so
    does every field made of commas and white space only. *)
Theorem toArr_reads_back_joined_items (items : list string) :
  Forall HandlerFacts.token items ->
  Proxy.toArr (Js.VStr (Proxy.join_comma items)) = List.map Js.VStr items
  /\ Proxy.toArr Js.VUndef = []
  /\ Proxy.toArr Js.VNull = []
  /\ Proxy.toArr (Js.VStr " , ,, ") = []
  /\ (forall s : string,
        Js.sforall (fun c => Js.is_space c || Ascii.eqb c ",") s = true ->
        Proxy.toArr (Js.VStr s) = []).
Proof.
  intros Hall. split; [|repeat (split; [by vm_compute|])].
  - unfold Proxy.toArr. cbn [Js.ToString]. f_equal.
    destruct items as [|x l]; [done|].
    rewrite split_comma_join by done. by apply tokens_survive.
  - intros s Hs. unfold Proxy.toArr. cbn [Js.ToString].
    by rewrite (blanks_vanish _ (split_comma_blank s Hs)).
Qed.

Lemma toArr_reads_back_joined_items_witness :
  Proxy.toArr (Js.VStr (Proxy.join_comma ["SKU1"; "99"]))
  = List.map Js.VStr ["SKU1"; "99"].
Proof.
  apply (toArr_reads_back_joined_items ["SKU1"; "99"]).
  repeat constructor; done.
Defined.

(** ** The shape of the payload *)

Section Payload.
Import Js Proxy HandlerFacts.

Lemma normalize_array (raw : jsval) :
  exists l : list jsval, Server.normalize raw = VArr l.
Proof. destruct raw; simpl; eauto. Qed.

Lemma normalize_idemp (raw : jsval) :
  Server.normalize (Server.normalize raw) = Server.normalize raw.
Proof. by destruct raw. Qed.

Lemma cache_hit_lookup (ttl now : Z) (key : string)
    (c : gmap string cache_entry) (e : cache_entry) :
  Server.cache_hit ttl now key c = Some e -> c !! key = Some e.
Proof.
  unfold Server.cache_hit. destruct (c !! key) as [e'|]; [|done].
  by destruct (_ <? _); intros [= <-].
Qed.

End Payload.

(** X14. [server.js] and the revision in [yampi.js] keep the cache a cache
    of arrays: if every cached payload is an array before a request,
    every cached payload is an array after it, and the [data] of a 200
    reply is an array whether it comes from upstream (an array is passed
    on as it is, an object gives the list of its values, anything else
    the empty list) or from the cache. The empty cache qualifies. *)
Theorem replies_carry_arrays
    (env : Proxy.process_env) (skuMap : Catalog.YampiSkuMap)
    (post : string -> Yampi.quote_body -> Http.fetch_result)
    (now_get now_set : Z) (req : Proxy.request)
    (quoteCache : gmap string Proxy.cache_entry) :
  HandlerFacts.holds_arrays quoteCache ->
  let arrays (out : Proxy.outcome) :=
    HandlerFacts.holds_arrays (Proxy.out_cache out)
    /\ (Proxy.status (Proxy.out_reply out) = 200 ->
        exists l : list Js.jsval,
          Js.get (Proxy.json (Proxy.out_reply out)) "data" = Js.VArr l) in
  arrays (Server.handler env skuMap post now_get now_set req quoteCache)
  /\ arrays (ServerB.handler env skuMap post now_get now_set req quoteCache).
Proof.
  intros Hinv arrays.
  assert (H : forall i out,
    HandlerFacts.pipeline_cases env skuMap post now_get now_set i quoteCache out ->
    arrays out).
  { intros i out
      [(code & msg & Hcode & ->)
      |(ids & _ & _ & [(e & He & ->)
                      |(_ & sent & [(msg & _ & ->)|(raw & _ & ->)])])];
      subst arrays; cbn.
    - split; [done|]. destruct Hcode as [-> | ->]; done.
    - split; [done|]. intros _.
      apply cache_hit_lookup in He. by apply (Hinv _ _ He).
    - by split.
    - split; [|intros _; apply normalize_array].
      apply map_Forall_insert_2; [apply normalize_array|done]. }
  split; eapply H.
  - apply Server_handler_cases.
  - apply ServerB_handler_cases.
Qed.

Lemma replies_carry_arrays_witness :
  let out := Server.handler Sample.env_unsigned Sample.skuMap_sku1
               Sample.post_ok 0 1 Sample.req_scenario1 ∅ in
  HandlerFacts.holds_arrays (Proxy.out_cache out)
  /\ (Proxy.status (Proxy.out_reply out) = 200 ->
      exists l : list Js.jsval,
        Js.get (Proxy.json (Proxy.out_reply out)) "data" = Js.VArr l).
Proof.
  apply (replies_carry_arrays Sample.env_unsigned Sample.skuMap_sku1
           Sample.post_ok 0 1 Sample.req_scenario1 ∅).
  apply map_Forall_empty.
Defined.

(** ** What the signed message does not tell apart *)

Section Ambiguity.
Import Js VerifyProxy.

Lemma canonical_two (k1 k2 : string) (a b : jsval) :
  k1 <> k2 -> String.le k1 k2 ->
  Spec.canonical (<[k1 := a]> {[ k2 := b ]})
    (Spec.render (k1, a) +:+ Spec.render (k2, b) +:+ EmptyString).
Proof.
  intros Hne Hle. exists [(k1, a); (k2, b)]. split; [|split; [|done]].
  - rewrite map_to_list_insert by (by rewrite lookup_singleton_ne).
    by rewrite map_to_list_singleton.
  - repeat constructor. exact Hle.
Qed.

Lemma canonical_one (k : string) (a : jsval) :
  Spec.canonical {[ k := a ]} (Spec.render (k, a) +:+ EmptyString).
Proof.
  exists [(k, a)]. split; [by rewrite map_to_list_singleton|].
  split; [repeat constructor|done].
Qed.

Lemma append_assoc' (a b c : string) : (a +:+ b) +:+ c = a +:+ (b +:+ c).
Proof.
  induction a as [|x a IH]; [done|].
  change (String x ((a +:+ b) +:+ c) = String x (a +:+ b +:+ c)).
  by f_equal.
Qed.

Lemma append_empty_r (a : string) : a +:+ EmptyString = a.
Proof.
  induction a as [|x a IH]; [done|].
  change (String x (a +:+ EmptyString) = String x a). by f_equal.
Qed.

End Ambiguity.

(** X15. The message signed for the App Proxy has no separator between
    pairs, so it does not tell a value from the pair that follows it: a
    query with the parameters [k1 = v1] and [k2 = v2] and a query with
    the single parameter [k1 = v1 k2 "=" v2] are signed alike, and
    [verifyShopifyProxy] accepts one exactly when it accepts the other,
    for every secret and signature. *)
Theorem proxy_signature_does_not_separate_pairs
    (k1 k2 v1 v2 sig : string) (secret : option string) :
  k1 <> "signature" -> k2 <> "signature" ->
  k1 <> k2 -> String.le k1 k2 ->
  VerifyProxy.verifyShopifyProxy
    (Some (<["signature" := Js.VStr sig]>
             (<[k1 := Js.VStr v1]> {[ k2 := Js.VStr v2 ]}))) secret
  = VerifyProxy.verifyShopifyProxy
      (Some (<["signature" := Js.VStr sig]>
               {[ k1 := Js.VStr (v1 +:+ k2 +:+ "=" +:+ v2) ]})) secret.
Proof.
  intros H1 H2 Hne Hle.
  unfold VerifyProxy.verifyShopifyProxy.
  destruct secret as [[|c key]|]; [done| |done].
  cbn [default from_option id]. rewrite !lookup_insert_eq.
  cbn [default from_option id].
  rewrite !delete_insert_eq.
  rewrite !delete_id
    by (rewrite ?lookup_insert_ne by done; by rewrite lookup_singleton_ne).
  rewrite (canonical_unique _ _ _ (base_string_canonical _)
             (canonical_two k1 k2 (Js.VStr v1) (Js.VStr v2) Hne Hle)).
  rewrite (canonical_unique _ _ _ (base_string_canonical _)
             (canonical_one k1 (Js.VStr (v1 +:+ k2 +:+ "=" +:+ v2)))).
  unfold Spec.render. cbn [fst snd Js.ToString].
  by rewrite !append_empty_r, !append_assoc'.
Qed.

Lemma proxy_signature_does_not_separate_pairs_witness :
  VerifyProxy.verifyShopifyProxy
    (Some (<["signature" := Js.VStr "00"]>
             (<["cep" := Js.VStr "01001000"]> {[ "skus" := Js.VStr "99" ]})))
    (Some "shpss_secret")
  = VerifyProxy.verifyShopifyProxy
      (Some (<["signature" := Js.VStr "00"]>
               {[ "cep" := Js.VStr ("01001000" +:+ "skus" +:+ "=" +:+ "99") ]}))
      (Some "shpss_secret").
Proof.
  apply (proxy_signature_does_not_separate_pairs "cep" "skus" "01001000" "99"
           "00" (Some "shpss_secret")); done.
Defined.

(** ** The install flow *)

Example install_then_callback :
  OAuth.install OAuthFacts.env0 OAuthFacts.nonce0 OAuthFacts.install_query ∅
  = (OAuth.Redirect
       ("https://loja.myshopify.com/admin/oauth/authorize?"
        +:+ "client_id=key123&scope=read_products%2Cwrite_shipping"
        +:+ "&redirect_uri=https%3A%2F%2Ffrete.example.com%2Fauth%2Fcallback"
        +:+ "&state=0f0e0d0c0b0a09080706050403020100"),
     {[ "loja.myshopify.com" := OAuthFacts.nonce0 ]})
  /\ OAuth.message OAuthFacts.callback_query
     = "code=abc123&shop=loja.myshopify.com&state=0f0e0d0c0b0a09080706050403020100&timestamp=1700000000"
  /\ OAuth.callback OAuthFacts.env0 OAuthFacts.token_ok
       OAuthFacts.callback_query {[ "loja.myshopify.com" := OAuthFacts.nonce0 ]}
     = {| OAuth.cb_reply :=
            OAuth.Redirect
              "https://frete.example.com/installed?shop=loja.myshopify.com";
          OAuth.cb_states := ∅;
          OAuth.cb_token_requests :=
            [("https://loja.myshopify.com/admin/oauth/access_token",
              {| OAuth.client_id := Some "key123";
                 OAuth.client_secret := "shpss_secret";
                 OAuth.code := Js.VStr "abc123" |})] |}.
Proof. repeat split; by vm_compute. Qed.

Section InstallFlow.
Import Js Http OAuth OAuthFacts.

Lemma message_ignores_signature (query : gmap string jsval) (v : jsval) :
  message (<["signature" := v]> query) = message query.
Proof.
  unfold message.
  assert (delete "signature" (delete "hmac" (<["signature" := v]> query))
          = delete "signature" (delete "hmac" query)) as ->; [|done].
  rewrite delete_insert_ne by done. by rewrite delete_insert_eq.
Qed.

(** What a callback that reaches the token exchange has checked. *)
Lemma callback_cases (env : oauth_env)
    (token_fetch : string -> token_body -> fetch_result)
    (query : gmap string jsval) (states : gmap string string) :
  let out := callback env token_fetch query states in
  (exists (code : Z) (text : string),
      (code = 400 \/ code = 401)
      /\ out = {| cb_reply := Send code text; cb_states := states;
                  cb_token_requests := [] |})
  \/ exists (shop state : string),
       query !! "shop" = Some (VStr shop)
       /\ query !! "state" = Some (VStr state)
       /\ states !! shop = Some state
       /\ negb (truthy (VStr shop))
          || negb (truthy (default VUndef (query !! "code")))
          || negb (truthy (default VUndef (query !! "hmac"))) = false
       /\ verifyOAuthHmac query (SHOPIFY_API_SECRET env) = true
       /\ let sent :=
            ("https://" +:+ shop +:+ "/admin/oauth/access_token",
             {| client_id := SHOPIFY_API_KEY env;
                client_secret := SHOPIFY_API_SECRET env;
                code := default VUndef (query !! "code") |}) in
          (exists text : string,
              out = {| cb_reply := Send 500 text; cb_states := states;
                       cb_token_requests := [sent] |})
          \/ (exists url : string,
                out = {| cb_reply := Redirect url;
                         cb_states := delete shop states;
                         cb_token_requests := [sent] |}).
Proof.
  cbv zeta. unfold callback.
  destruct (_ || _) eqn:Hparams; [left; eauto|].
  destruct (negb (verifyOAuthHmac _ _)) eqn:Hmac; [left; eauto|].
  apply negb_false_iff in Hmac.
  destruct (query !! "shop") as [shop|] eqn:Hshop;
    cbn [default from_option id] in *; [|left; eauto].
  destruct (states_get states shop) as [expected|] eqn:Hget; [|left; eauto].
  destruct shop as [| | | |shop| |]; try done. cbn [states_get] in Hget.
  destruct (negb (truthy (VStr expected)) || _) eqn:Hstate; [left; eauto|].
  apply orb_false_iff in Hstate as [_ Hdiff]. unfold differs in Hdiff.
  destruct (query !! "state") as [[| | | |state| |]|] eqn:Hst;
    cbn [default from_option id] in Hdiff; try done.
  apply negb_false_iff, String.eqb_eq in Hdiff as <-.
  right. exists shop, expected. repeat split; try done. cbn [ToString fst snd].
  destruct (token_fetch _ _) as [msg|status text [j|msg]];
    [left; eauto| |].
  - destruct (negb (ok status)); [left; eauto|right; eauto].
  - destruct (negb (ok status)); left; eauto.
Qed.

End InstallFlow.

(** X16. A [signature] parameter has no part in the callback: adding one,
    or changing its value, leaves the signed message, the result of
    [verifyOAuthHmac] and the whole outcome of the callback as they
    were. *)
Theorem callback_ignores_signature_parameter
    (env : OAuth.oauth_env)
    (token_fetch : string -> OAuth.token_body -> Http.fetch_result)
    (query : gmap string Js.jsval) (states : gmap string string)
    (v : Js.jsval) :
  OAuth.verifyOAuthHmac (<["signature" := v]> query) (OAuth.SHOPIFY_API_SECRET env)
  = OAuth.verifyOAuthHmac query (OAuth.SHOPIFY_API_SECRET env)
  /\ OAuth.callback env token_fetch (<["signature" := v]> query) states
     = OAuth.callback env token_fetch query states.
Proof.
  assert (Hv : forall secret,
    OAuth.verifyOAuthHmac (<["signature" := v]> query) secret
    = OAuth.verifyOAuthHmac query secret).
  { intros secret. unfold OAuth.verifyOAuthHmac.
    rewrite message_ignores_signature. by rewrite lookup_insert_ne. }
  split; [apply Hv|].
  unfold OAuth.callback. rewrite Hv.
  by rewrite !(lookup_insert_ne _ "signature") by done.
Qed.

(** X17. The state table only ever names what [isShopDomain] accepts, and
    the client secret only ever goes there: [install] and [callback] keep
    every key of the table a string ending in ".myshopify.com" (in any
    letter case), and over such a table the callback makes at most one
    token request, only for a query whose hmac verifies and whose state is
    the one stored for its shop, and sends it to
    [https://<shop>/admin/oauth/access_token] for that very string. *)
Theorem client_secret_goes_to_shop_domains_only
    (env : OAuth.oauth_env)
    (token_fetch : string -> OAuth.token_body -> Http.fetch_result)
    (nonce : string) (query : gmap string Js.jsval)
    (states : gmap string string) :
  OAuthFacts.shops_only states ->
  let out := OAuth.callback env token_fetch query states in
  OAuthFacts.shops_only (OAuth.install env nonce query states).2
  /\ OAuthFacts.shops_only (OAuth.cb_states out)
  /\ (length (OAuth.cb_token_requests out) <= 1)%nat
  /\ forall sent : string * OAuth.token_body,
       sent ∈ OAuth.cb_token_requests out ->
       exists shop state : string,
         query !! "shop" = Some (Js.VStr shop)
         /\ query !! "state" = Some (Js.VStr state)
         /\ states !! shop = Some state
         /\ OAuth.isShopDomain shop = true
         /\ OAuth.verifyOAuthHmac query (OAuth.SHOPIFY_API_SECRET env) = true
         /\ sent.1 = "https://" +:+ shop +:+ "/admin/oauth/access_token"
         /\ OAuth.client_secret sent.2 = OAuth.SHOPIFY_API_SECRET env.
Proof.
  intros Hinv out. split.
  { unfold OAuth.install.
    destruct (negb (OAuth.isShopDomain _)) eqn:Hshop; [done|].
    apply negb_false_iff in Hshop. cbn [snd].
    intros shop state. rewrite lookup_insert. case_decide as Hk.
    - by subst.
    - apply Hinv. }
  pose proof (callback_cases env token_fetch query states) as Hcases.
  fold out in Hcases.
  destruct Hcases as
    [(code & text & _ & ->)
    |(shop & state & Hshop & Hstate & Hget & _ & Hmac & Hrest)].
  { cbn. split; [done|]. split; [lia|]. intros sent Hin. by inv Hin. }
  assert (Hdom : OAuth.isShopDomain shop = true) by (by eapply Hinv).
  cbv zeta in Hrest.
  destruct Hrest as [(text & ->)|(url & ->)]; cbn.
  - split; [done|]. split; [lia|]. intros sent ->%list_elem_of_singleton.
    exists shop, state. by repeat split.
  - split.
    { intros k v. rewrite lookup_delete. case_decide; [done|]. apply Hinv. }
    split; [lia|]. intros sent ->%list_elem_of_singleton.
    exists shop, state. by repeat split.
Qed.

Lemma client_secret_goes_to_shop_domains_only_witness :
  let states := {[ "loja.myshopify.com" := OAuthFacts.nonce0 ]} in
  let out := OAuth.callback OAuthFacts.env0 OAuthFacts.token_ok
               OAuthFacts.callback_query states in
  OAuthFacts.shops_only
    (OAuth.install OAuthFacts.env0 OAuthFacts.nonce0 OAuthFacts.install_query
       states).2
  /\ OAuthFacts.shops_only (OAuth.cb_states out)
  /\ (length (OAuth.cb_token_requests out) <= 1)%nat.
Proof.
  destruct (client_secret_goes_to_shop_domains_only OAuthFacts.env0
              OAuthFacts.token_ok OAuthFacts.nonce0 OAuthFacts.callback_query
              {[ "loja.myshopify.com" := OAuthFacts.nonce0 ]})
    as (H1 & H2 & H3 & _).
  - intros shop state [<- _]%lookup_singleton_Some. reflexivity.
  - pose proof (client_secret_goes_to_shop_domains_only OAuthFacts.env0
                  OAuthFacts.token_ok OAuthFacts.nonce0
                  OAuthFacts.install_query
                  {[ "loja.myshopify.com" := OAuthFacts.nonce0 ]}) as H.
    split; [|split; [exact H2|exact H3]].
    apply H. intros shop state [<- _]%lookup_singleton_Some. reflexivity.
Defined.

(** X18. A state is spent by the callback that succeeds with it and by
    nothing else: after a callback that ends in the redirect, the same
    callback again is answered 401 "state inválido" without a token
    request; a callback that ends in any error leaves the state table as
    it was, so a failed token exchange can be tried again. *)
Theorem state_is_single_use
    (env : OAuth.oauth_env)
    (token_fetch token_fetch' : string -> OAuth.token_body -> Http.fetch_result)
    (query : gmap string Js.jsval) (states : gmap string string) :
  let out := OAuth.callback env token_fetch query states in
  (forall url : string,
      OAuth.cb_reply out = OAuth.Redirect url ->
      OAuth.callback env token_fetch' query (OAuth.cb_states out)
      = {| OAuth.cb_reply := OAuth.Send 401 "state inválido";
           OAuth.cb_states := OAuth.cb_states out;
           OAuth.cb_token_requests := [] |})
  /\ (forall (code : Z) (text : string),
        OAuth.cb_reply out = OAuth.Send code text ->
        OAuth.cb_states out = states).
Proof.
  intros out.
  pose proof (callback_cases env token_fetch query states) as Hcases.
  fold out in Hcases.
  destruct Hcases as
    [(code & text & _ & ->)
    |(shop & state & Hshop & Hstate & Hget & Hparams & Hmac & Hrest)];
    [by split|].
  cbv zeta in Hrest. destruct Hrest as [(text & ->)|(url & Hout)];
    [by split|].
  rewrite Hout. cbn. split; [|done]. intros _ _.
  unfold OAuth.callback. rewrite Hshop, Hmac.
  cbn [default from_option id OAuth.states_get negb].
  by rewrite Hparams, lookup_delete_eq.
Qed.

(** ** The cache key *)

Section CacheKey.
Import Js Proxy HandlerFacts.

Lemma sforall_app (P : ascii -> bool) (a b : string) :
  sforall P (a +:+ b) = sforall P a && sforall P b.
Proof.
  induction a as [|c a IH]; [done|].
  change (P c && sforall P (a +:+ b) = P c && sforall P a && sforall P b).
  by rewrite IH, andb_assoc.
Qed.

Lemma sforall_impl (P Q : ascii -> bool) (s : string) :
  (forall c, P c = true -> Q c = true) ->
  sforall P s = true -> sforall Q s = true.
Proof.
  intros HPQ. induction s as [|c s IH]; [done|]. simpl.
  intros [Hc Hs]%andb_prop. by rewrite (HPQ c Hc), IH.
Qed.

(** Two strings that agree up to a delimiter neither contains before it
    agree part by part. *)
Lemma app_delim_inj (d : ascii) (a a' r r' : string) :
  sforall (fun c => negb (Ascii.eqb c d)) a = true ->
  sforall (fun c => negb (Ascii.eqb c d)) a' = true ->
  a +:+ String d r = a' +:+ String d r' ->
  a = a' /\ r = r'.
Proof.
  revert a'. induction a as [|c a IH]; intros [|c' a'] Ha Ha' Heq.
  - by injection Heq as ->.
  - injection Heq as <- _. simpl in Ha'. by rewrite Ascii.eqb_refl in Ha'.
  - injection Heq as -> _. simpl in Ha. by rewrite Ascii.eqb_refl in Ha.
  - injection Heq as -> Heq. simpl in Ha, Ha'.
    apply andb_prop in Ha as [_ Ha]. apply andb_prop in Ha' as [_ Ha'].
    destruct (IH a' Ha Ha' Heq) as [-> ->]. done.
Qed.

Lemma pretty_N_go_numeric (x : N) :
  forall s : string,
    sforall numeric s = true -> sforall numeric (pretty_N_go x s) = true.
Proof.
  induction (N.lt_wf_0 x) as [x _ IH]; intros s Hs.
  assert (x = 0 \/ 0 < x)%N as [->|Hx] by lia.
  - by rewrite pretty_N_go_0.
  - rewrite pretty_N_go_step by done. apply IH; [by apply N.div_lt|].
    simpl. rewrite Hs, andb_true_r.
    unfold pretty_N_char. by repeat case_match.
Qed.

Lemma pretty_N_go_nonempty (x : N) :
  forall s : string, s <> EmptyString -> pretty_N_go x s <> EmptyString.
Proof.
  induction (N.lt_wf_0 x) as [x _ IH]; intros s Hs.
  assert (x = 0 \/ 0 < x)%N as [->|Hx] by lia.
  - by rewrite pretty_N_go_0.
  - rewrite pretty_N_go_step by done. apply IH; [by apply N.div_lt|done].
Qed.

Lemma pretty_N_numeric (x : N) :
  sforall numeric (pretty x) = true /\ pretty x <> EmptyString.
Proof.
  unfold pretty, pretty_N. case_decide as Hx; [done|].
  split; [by apply pretty_N_go_numeric|].
  rewrite pretty_N_go_step by lia. by apply pretty_N_go_nonempty.
Qed.

Lemma pretty_Z_numeric (z : Z) :
  sforall numeric (pretty z) = true /\ pretty z <> EmptyString.
Proof.
  destruct z as [|p|p]; [done|apply (pretty_N_numeric (Npos p))|].
  destruct (pretty_N_numeric (Npos p)) as [H _].
  change (pretty (Z.neg p)) with ("-" +:+ pretty (Npos p)).
  split; [|done]. by rewrite sforall_app, H.
Qed.

Lemma numeric_inner (c : ascii) : numeric c = true -> inner c = true.
Proof.
  unfold numeric, inner, is_digit.
  destruct (Ascii.eqb_spec c ",") as [->|]; [done|].
  destruct (Ascii.eqb_spec c "]") as [->|]; [done|].
  by destruct (Ascii.eqb_spec c "}") as [->|].
Qed.

Lemma json_number_inner (n : number) :
  sforall inner (json_number n) = true /\ json_number n <> EmptyString.
Proof.
  destruct n as [|z]; [done|]. destruct (pretty_Z_numeric z) as [H1 H2].
  split; [|done]. eapply sforall_impl; [apply numeric_inner|done].
Qed.

Lemma json_number_inj (n n' : number) :
  json_number n = json_number n' -> n = n'.
Proof.
  destruct n as [|z], n' as [|z']; simpl; intros H; [done| | |].
  - destruct (pretty_Z_numeric z') as [Hn _]. by rewrite <- H in Hn.
  - destruct (pretty_Z_numeric z) as [Hn _]. by rewrite H in Hn.
  - f_equal. by apply (inj pretty).
Qed.

Lemma inner_no (d : ascii) (s : string) :
  inner d = false ->
  sforall inner s = true ->
  sforall (fun c => negb (Ascii.eqb c d)) s = true.
Proof.
  intros Hd. apply sforall_impl. intros c Hc.
  destruct (Ascii.eqb_spec c d) as [->|]; [congruence|done].
Qed.

Lemma join_comma_inner (l : list string) :
  Forall (fun x => sforall inner x = true) l ->
  sforall (fun c => negb (Ascii.eqb c "]")) (join_comma l) = true
  /\ sforall (fun c => negb (Ascii.eqb c "}")) (join_comma l) = true.
Proof.
  induction 1 as [|x l Hx Hl [IH1 IH2]]; [done|].
  destruct l as [|y l].
  - split; by apply inner_no.
  - change (join_comma (x :: y :: l))
      with (x +:+ "," +:+ join_comma (y :: l)).
    rewrite !sforall_app, IH1, IH2.
    rewrite (inner_no "]" x), (inner_no "}" x) by done. done.
Qed.

Lemma join_comma_inj (l l' : list string) :
  Forall (fun x => sforall inner x = true /\ x <> EmptyString) l ->
  Forall (fun x => sforall inner x = true /\ x <> EmptyString) l' ->
  join_comma l = join_comma l' -> l = l'.
Proof.
  intros Hl. revert l'.
  induction Hl as [|x l [Hx Hne] Hl IH]; intros l' Hl' Heq.
  - destruct Hl' as [|x' l' [_ Hne'] Hl']; [done|].
    destruct l'; [by destruct x'|]. by destruct x'.
  - destruct Hl' as [|x' l' [Hx' Hne'] Hl'].
    { destruct l; [by destruct x|]. by destruct x. }
    pose proof (inner_no "," x eq_refl Hx) as Hc.
    pose proof (inner_no "," x' eq_refl Hx') as Hc'.
    destruct l as [|y l], l' as [|y' l'];
      try change (join_comma (x :: y :: l))
        with (x +:+ "," +:+ join_comma (y :: l)) in Heq;
      try change (join_comma (x' :: y' :: l'))
        with (x' +:+ "," +:+ join_comma (y' :: l')) in Heq;
      cbn [join_comma] in Heq.
    + by subst.
    + exfalso. subst x. rewrite sforall_app in Hc.
      apply andb_prop in Hc as [_ Hc]. done.
    + exfalso. subst x'. rewrite sforall_app in Hc'.
      apply andb_prop in Hc' as [_ Hc']. done.
    + change ("," +:+ join_comma (y :: l)) with (String "," (join_comma (y :: l)))
        in Heq.
      change ("," +:+ join_comma (y' :: l')) with (String "," (join_comma (y' :: l')))
        in Heq.
      apply app_delim_inj in Heq as [-> Heq]; [|done..].
      f_equal. by apply IH.
Qed.

Lemma json_numbers_fact (l : list number) :
  Forall (fun x => sforall inner x = true /\ x <> EmptyString)
    (List.map json_number l).
Proof.
  induction l as [|n l IH]; [constructor|].
  constructor; [apply json_number_inner|done].
Qed.

Lemma map_json_number_inj (l l' : list number) :
  List.map json_number l = List.map json_number l' -> l = l'.
Proof.
  revert l'. induction l as [|n l IH]; intros [|n' l'] H; try done.
  injection H as Hn Hl. f_equal; [by apply json_number_inj|by apply IH].
Qed.

End CacheKey.

Section CacheKeyInj.
Import Js Proxy HandlerFacts.

Lemma cacheKey_flat (cep : string) (ids qtys : list number)
    (total : option number) :
  cacheKey cep ids qtys total
  = ("{" +:+ dquote +:+ "cep" +:+ dquote +:+ ":" +:+ dquote)
    +:+ cep
    +:+ String (ascii_of_nat 34)
          (("," +:+ dquote +:+ "ids" +:+ dquote +:+ ":" +:+ "[")
           +:+ join_comma (List.map json_number ids)
           +:+ String "]"
                 (("," +:+ dquote +:+ "qtys" +:+ dquote +:+ ":" +:+ "[")
                  +:+ join_comma (List.map json_number qtys)
                  +:+ String "]" (key_tail total))).
Proof.
  unfold cacheKey, json_numbers, key_tail.
  rewrite !append_assoc'. destruct total; reflexivity.
Qed.

Lemma key_tail_inj (t t' : option number) :
  key_tail t = key_tail t' -> t = t'.
Proof.
  destruct t as [n|], t' as [n'|]; try done. unfold key_tail. intros H.
  repeat apply (inj (String.append _)) in H.
  destruct (json_number_inner n) as [Hn _].
  destruct (json_number_inner n') as [Hn' _].
  change (json_number n +:+ String "}" EmptyString
          = json_number n' +:+ String "}" EmptyString) in H.
  apply app_delim_inj in H as [H _]; [|by apply inner_no..].
  f_equal. by apply json_number_inj.
Qed.

End CacheKeyInj.

(** X19. The cache key tells requests apart. Over the numbers of
    [Js.number] (integers, written in decimal, and NaN, written [null]),
    two requests with postal codes made of digits have the same key only
    if they have the same postal code, the same identifiers in the same
    order, the same quantities in the same order and the same total (or
    both none). So two such requests that differ, even only in the order
    of their items, never share a cache entry. The infinities, which
    [JSON.stringify] writes as [null] too, are outside [Js.number]. *)
Theorem cacheKey_is_injective
    (cep cep' : string) (ids ids' qtys qtys' : list Js.number)
    (total total' : option Js.number) :
  Js.sforall Js.is_digit cep = true ->
  Js.sforall Js.is_digit cep' = true ->
  Proxy.cacheKey cep ids qtys total = Proxy.cacheKey cep' ids' qtys' total' ->
  cep = cep' /\ ids = ids' /\ qtys = qtys' /\ total = total'.
Proof.
  intros Hcep Hcep' H. rewrite !cacheKey_flat in H.
  apply (inj (String.append _)) in H.
  assert (Hq : forall s, Js.sforall Js.is_digit s = true ->
            Js.sforall (fun c => negb (Ascii.eqb c (ascii_of_nat 34))) s = true).
  { intros s. apply sforall_impl. intros c. unfold Js.is_digit.
    destruct (Ascii.eqb_spec c (ascii_of_nat 34)) as [->|]; done. }
  apply app_delim_inj in H as [-> H]; [|by apply Hq..].
  split; [done|].
  apply (inj (String.append _)) in H.
  apply app_delim_inj in H as [Hids H];
    [|apply join_comma_inner;
      eapply Forall_impl; [apply json_numbers_fact|by intros ? [? _]]..].
  apply join_comma_inj in Hids; [|apply json_numbers_fact..].
  apply map_json_number_inj in Hids as ->. split; [done|].
  apply (inj (String.append _)) in H.
  apply app_delim_inj in H as [Hqtys H];
    [|apply join_comma_inner;
      eapply Forall_impl; [apply json_numbers_fact|by intros ? [? _]]..].
  apply join_comma_inj in Hqtys; [|apply json_numbers_fact..].
  apply map_json_number_inj in Hqtys as ->. split; [done|].
  by apply key_tail_inj.
Qed.

Lemma cacheKey_is_injective_witness :
  "01001000" = "01001000"
  /\ [Js.Num 501; Js.Num 99] = [Js.Num 501; Js.Num 99]
  /\ [Js.Num 2; Js.Num 1] = [Js.Num 2; Js.Num 1]
  /\ (None : option Js.number) = None.
Proof.
  apply (cacheKey_is_injective "01001000" "01001000"); reflexivity.
Defined.

(** ** The admin endpoints *)

(** X20. The admin endpoints answer only to the configured token: a
    request is authorized exactly when [ADMIN_TOKEN] is set, not empty,
    and equal to the [x-admin-token] header, so with the token unset no
    request is authorized, not even one without the header. A request
    that is not authorized is answered 401, makes no upstream request and
    leaves the catalog as it was. An authorized refresh completes within
    the default cap, answers 200 with the count or 500 with the failure,
    and loses no key of the catalog. *)
Theorem admin_endpoints_need_the_configured_token
    (ADMIN_TOKEN header sku : option string)
    (fetch : string -> Http.fetch_result) (this : Catalog.YampiSkuMap) :
  (Admin.unauthorized ADMIN_TOKEN header = false
   <-> exists t : string,
         t <> EmptyString /\ ADMIN_TOKEN = Some t /\ header = Some t)
  /\ (Admin.unauthorized ADMIN_TOKEN header = true ->
      (forall fuel : nat,
          Admin.refresh_skus ADMIN_TOKEN header fetch fuel this
          = Some (Admin.deny this))
      /\ Admin.lookup_sku ADMIN_TOKEN header sku this = Admin.deny this
      /\ Admin.adm_status (Admin.deny this) = 401
      /\ Admin.adm_requests (Admin.deny this) = []
      /\ Admin.adm_map (Admin.deny this) = Catalog.map this)
  /\ (Admin.unauthorized ADMIN_TOKEN header = false ->
      exists out : Admin.admin_outcome,
        (forall fuel : nat,
            (1000 <= fuel)%nat ->
            Admin.refresh_skus ADMIN_TOKEN header fetch fuel this = Some out)
        /\ (Admin.adm_status out = 200 \/ Admin.adm_status out = 500)
        /\ Admin.adm_requests out <> []
        /\ forall k : string,
             is_Some (Catalog.map this !! k) ->
             is_Some (Admin.adm_map out !! k)).
Proof.
  split; [|split].
  - unfold Admin.unauthorized. split.
    + destruct ADMIN_TOKEN as [[|c t]|]; [done| |done].
      destruct header as [h|]; [|done].
      intros ->%negb_false_iff%String.eqb_eq.
      exists (String c t). by repeat split.
    + intros (t & Ht & -> & ->). destruct t; [done|].
      by rewrite String.eqb_refl.
  - intros Hun. unfold Admin.refresh_skus, Admin.lookup_sku.
    by rewrite Hun.
  - intros Hok. unfold Admin.refresh_skus. rewrite Hok.
    destruct (hydrateOnce_completes fetch (Catalog.alias this)
                Catalog.default_options this) as (r & Hr & Hone & _).
    assert (Hall : forall fuel : nat,
              (1000 <= fuel)%nat ->
              Catalog.hydrateOnce fetch (Catalog.alias this)
                Catalog.default_options fuel this = Some r).
    { intros fuel Hfuel. apply Hr.
      change (Z.to_nat (Z.max 1 (Catalog.maxPages Catalog.default_options)))
        with 1000%nat. exact Hfuel. }
    clear Hr.
    assert (exists f0 : nat, (1000 <= f0)%nat) as [f0 Hf0]
      by (exists 1000%nat; lia).
    pose proof (Hall f0 Hf0) as Hrun.
    assert (Hne : Catalog.run_requests r <> []).
    { intros Hnil. rewrite Hnil in Hone. cbn in Hone. lia. }
    assert (Hkeep : forall k, is_Some (Catalog.map this !! k) ->
                              is_Some (Catalog.run_map r !! k)).
    { intros k. exact (hydrateLoop_keeps fetch (Catalog.alias this)
                         Catalog.default_options f0 _ _ _ _ _ Hrun k). }
    exists (match Catalog.run_result r with
            | Js.Return count =>
                {| Admin.adm_status := 200;
                   Admin.adm_json :=
                     Js.VObj [("ok", Js.VBool true);
                              ("count", Js.VNum (Js.Num count))];
                   Admin.adm_map := Catalog.run_map r;
                   Admin.adm_requests := Catalog.run_requests r |}
            | Js.Throw msg =>
                {| Admin.adm_status := 500;
                   Admin.adm_json := Js.VObj [("error", Js.VStr msg)];
                   Admin.adm_map := Catalog.run_map r;
                   Admin.adm_requests := Catalog.run_requests r |}
            end).
    split.
    { intros fuel Hfuel. by rewrite (Hall fuel Hfuel). }
    destruct (Catalog.run_result r);
      cbn [Admin.adm_status Admin.adm_requests Admin.adm_map]; auto.
Qed.

(** ** The refresh timer *)

Section Timers.
Import Refresh RefreshFacts.

Lemma orderly_step (t t' : timers) : orderly t -> step t t' -> orderly t'.
Proof.
  intros (Hrun & Hfly & Hone & Hnone) Hstep. unfold orderly.
  destruct Hstep as [t|t|t h Hh|t Hpos];
    destruct t as [tm pd rn nx]; cbn in *.
  - destruct tm as [h|]; cbn; [done|].
    destruct (Hnone eq_refl) as [-> ->].
    repeat split; try done; try lia.
    intros h. rewrite elem_of_union, elem_of_singleton, elem_of_empty.
    by intros [->|[]].
  - destruct tm as [h|]; cbn; [|done].
    repeat split; try done.
    + intros Hr. rewrite (Hfly Hr). apply set_eq. intros x.
      rewrite elem_of_difference, elem_of_empty. tauto.
    + intros h' [Hh' _]%elem_of_difference. by apply Hone.
  - pose proof (Hone h Hh) as ->.
    assert (rn = 0%nat) as ->.
    { destruct rn as [|[|n]]; [done| |lia].
      rewrite (Hfly eq_refl) in Hh. by apply elem_of_empty in Hh. }
    assert (pd ∖ {[ h ]} = ∅) as ->.
    { apply set_eq. intros x.
      rewrite elem_of_difference, elem_of_singleton, elem_of_empty.
      split; [|done]. intros [Hx Hne]. apply Hone in Hx. congruence. }
    repeat split; try done.
  - assert (rn = 1%nat) as -> by lia. rewrite (Hfly eq_refl).
    repeat split; try done; try lia.
    intros h. rewrite elem_of_union, elem_of_singleton, elem_of_empty.
    by intros [->|[]].
Qed.

Lemma reachable_orderly (t : timers) : reachable t -> orderly t.
Proof.
  induction 1 as [|t t' _ IH Hstep]; [|by eapply orderly_step].
  unfold orderly. cbn. repeat split; try done; lia.
Qed.

Lemma stopped_step (t t' : timers) : stopped t -> step t t' -> stopped t'.
Proof.
  intros (Htm & Hpd & Hrn) Hstep. unfold stopped.
  destruct Hstep as [t|t|t h Hh|t Hpos];
    destruct t as [tm pd rn nx]; cbn in *.
  - by destruct tm.
  - destruct tm as [h|]; [|done]. cbn. subst pd.
    repeat split; try done. apply set_eq. intros x.
    rewrite elem_of_difference, elem_of_empty. tauto.
  - subst pd. by apply elem_of_empty in Hh.
  - lia.
Qed.

End Timers.

(** X21. The catalog never has more than one refresh timeout armed, and
    never one while a refresh started by a timeout is still running: in
    every state the timers can reach by [startAutoRefresh],
    [stopAutoRefresh], a timeout firing and a run reaching its [finally],
    at most one run is in flight and then nothing is armed, and an armed
    timeout is the one recorded in the [timer] field. So the refreshes
    started by the timer never overlap, and a second [startAutoRefresh]
    arms nothing. *)
Theorem at_most_one_refresh_timer (t : Refresh.timers) :
  Refresh.reachable t ->
  (Refresh.running t <= 1)%nat
  /\ (Refresh.running t = 1%nat -> Refresh.pending t = ∅)
  /\ (size (Refresh.pending t) <= 1)%nat
  /\ (forall h : nat,
        h ∈ Refresh.pending t -> Refresh.timer t = Some h)
  /\ Refresh.pending (Refresh.startAutoRefresh (Refresh.startAutoRefresh t))
     = Refresh.pending (Refresh.startAutoRefresh t).
Proof.
  intros Hreach.
  destruct (reachable_orderly t Hreach) as (Hrun & Hfly & Hone & Hnone).
  repeat split; try done.
  - destruct (Refresh.timer t) as [h|] eqn:Ht.
    + assert (Refresh.pending t ⊆ {[ h ]}) as Hsub.
      { intros x Hx. apply Hone in Hx. injection Hx as ->.
        by apply elem_of_singleton. }
      apply subseteq_size in Hsub. by rewrite size_singleton in Hsub.
    + destruct (Hnone eq_refl) as [-> _]. rewrite size_empty. lia.
  - unfold Refresh.startAutoRefresh.
    destruct t as [[h|] pd rn nx]; cbn; done.
Qed.

Lemma at_most_one_refresh_timer_witness :
  let t := Refresh.run_finally
             (Refresh.fire 0 (Refresh.startAutoRefresh Refresh.initial)) in
  (Refresh.running t <= 1)%nat
  /\ (Refresh.running t = 1%nat -> Refresh.pending t = ∅)
  /\ (size (Refresh.pending t) <= 1)%nat.
Proof.
  destruct (at_most_one_refresh_timer
              (Refresh.run_finally
                 (Refresh.fire 0 (Refresh.startAutoRefresh Refresh.initial))))
    as (H1 & H2 & H3 & _).
  - eapply Refresh.reach_step; [eapply Refresh.reach_step;
      [eapply Refresh.reach_step; [apply Refresh.reach_initial|]|]|].
    + apply Refresh.step_start.
    + apply Refresh.step_fire. cbn. apply elem_of_union_l.
      by apply elem_of_singleton.
    + apply Refresh.step_finally. cbn. lia.
  - cbv zeta. split; [exact H1|]. split; [exact H2|exact H3].
Defined.

(** X22. [stopAutoRefresh] clears the armed timeout but leaves the [timer]
    field set, and [startAutoRefresh] arms only when that field is unset.
    So once the catalog has been started, stopping it while no refresh is
    running is final: whatever is called afterwards, nothing is ever
    armed again and no refresh runs. Stopping it while a refresh is
    running stops nothing: the run arms the next timeout when it ends. *)
Theorem stop_is_final_when_idle (t : Refresh.timers) :
  Refresh.reachable t ->
  Refresh.timer t <> None ->
  (Refresh.running t = 0%nat ->
   forall t' : Refresh.timers,
     rtc Refresh.step (Refresh.stopAutoRefresh t) t' ->
     Refresh.pending t' = ∅ /\ Refresh.running t' = 0%nat)
  /\ (Refresh.running t = 1%nat ->
      Refresh.pending (Refresh.run_finally (Refresh.stopAutoRefresh t)) <> ∅).
Proof.
  intros Hreach Htimer.
  destruct (reachable_orderly t Hreach) as (Hrun & Hfly & Hone & Hnone).
  split.
  - intros Hidle t' Hsteps.
    assert (Hstopped : RefreshFacts.stopped (Refresh.stopAutoRefresh t)).
    { unfold RefreshFacts.stopped, Refresh.stopAutoRefresh.
      destruct t as [[h|] pd rn nx]; cbn in *; [|done].
      repeat split; try done. apply set_eq. intros x.
      rewrite elem_of_difference, elem_of_singleton, elem_of_empty.
      split; [|done]. intros [Hx Hne]. apply Hone in Hx. congruence. }
    assert (RefreshFacts.stopped t') as (_ & ? & ?); [|done].
    induction Hsteps as [|x y z Hxy _ IH]; [done|].
    apply IH. by eapply stopped_step.
  - intros _. unfold Refresh.run_finally, Refresh.stopAutoRefresh.
    destruct t as [[h|] pd rn nx]; cbn in *; [|done].
    intros Hempty.
    assert (nx ∈ ({[ nx ]} ∪ pd ∖ {[ h ]} : gset nat)) as Hin
      by (apply elem_of_union_l; by apply elem_of_singleton).
    rewrite Hempty in Hin. by apply elem_of_empty in Hin.
Qed.

Lemma stop_is_final_when_idle_witness :
  Refresh.reachable (Refresh.startAutoRefresh Refresh.initial)
  /\ Refresh.timer (Refresh.startAutoRefresh Refresh.initial) <> None
  /\ Refresh.pending
       (Refresh.startAutoRefresh
          (Refresh.stopAutoRefresh
             (Refresh.startAutoRefresh Refresh.initial))) = ∅.
Proof.
  assert (Hreach : Refresh.reachable
                     (Refresh.startAutoRefresh Refresh.initial)).
  { eapply Refresh.reach_step; [apply Refresh.reach_initial|].
    apply Refresh.step_start. }
  assert (Hset : Refresh.timer (Refresh.startAutoRefresh Refresh.initial)
                 <> None) by discriminate.
  split; [exact Hreach|]. split; [exact Hset|].
  refine (proj1 (proj1 (stop_is_final_when_idle _ Hreach Hset) eq_refl _ _)).
  apply rtc_once. apply Refresh.step_start.
Defined.
